(** * tangermeme/attribute.py: DeepLIFT/SHAP attributions

    A shallow embedding of [tangermeme/attribute.py] and of the part of
    PyTorch it drives (tensors, modules, hooks, the backward pass), followed
    by the properties of the projector, the engine and the batched driver.

    Conventions of the embedding.
    - Tensor elements are exact rationals [Q]: the arithmetic is the one the
      code writes, without rounding, infinities or NaN.  Where the code reads
      a [dtype], a tensor carries it: floating point, with these rationals,
      or integer, with unbounded integers.  The tensors of the engine and of
      the drivers take part in gradients and are floating point.
    - A tensor is a nested list, outermost axis first.  Its shape is read off
      the nested lists; a tensor is [regular3] when all its sub-lists agree.
    - Python exceptions are the [Raise] results of [result]. *)

From Stdlib Require Import QArith Qabs ZArith Lia Btauto.
From stdpp Require Import base option list strings gmap.

Set Warnings "-register-all".

(** ** Python values and exceptions *)

Module Py.

Inductive exn :=
| ValueError
| AssertionError
| IndexError
| RuntimeError
| AttributeError
| TypeError
| ZeroDivisionError.

Inductive result (A : Type) :=
| Ok (a : A)
| Raise (e : exn).
Arguments Ok {A} a.
Arguments Raise {A} e.

Definition bind {A B} (m : result A) (k : A → result B) : result B :=
  match m with
  | Ok a => k a
  | Raise e => Raise e
  end.

Definition is_ok {A} (m : result A) : bool :=
  match m with Ok _ => true | Raise _ => false end.

(** [o or raise e]: a library call that signals its failure as [e]. *)
Definition or_raise {A} (e : exn) (o : option A) : result A :=
  match o with Some a => Ok a | None => Raise e end.

End Py.
Export Py.

#[global] Instance result_ret : MRet result := λ A a, Ok a.
#[global] Instance result_bind : MBind result := λ A B k m, Py.bind m k.
#[global] Instance exn_eq_dec : EqDecision exn.
Proof. solve_decision. Defined.

(** ** Tensors *)

Module Tensor.

#[global] Instance Q_inhabited : Inhabited Q := populate 0%Q.

Definition Qltb (a b : Q) : bool := negb (Qle_bool b a).

Abbreviation Vec := (list Q).
Abbreviation Mat := (list (list Q)).
Abbreviation Tensor3 := (list (list (list Q))).

(** [t.shape] of a three-axis tensor. *)
Definition shape3 (t : Tensor3) : nat * nat * nat :=
  (length t, length (default [] (head t)),
   length (default [] (head (default [] (head t))))).

(** [t] is an [n] by [A] by [L] tensor. *)
Definition regular3 (n A L : nat) (t : Tensor3) : Prop :=
  length t = n ∧
  Forall (λ e : Mat, length e = A ∧ Forall (λ r : Vec, length r = L) e) t.

Definition regular2 (A L : nat) (e : Mat) : Prop :=
  length e = A ∧ Forall (λ r : Vec, length r = L) e.

(** A list of [r] rows of [c] elements each, and its element at row [i],
    column [j]. *)
Definition rect {X} (r c : nat) (M : list (list X)) : Prop :=
  length M = r ∧ Forall (λ row : list X, length row = c) M.

Definition el2 {X} `{Inhabited X} (M : list (list X)) (i j : nat) : X :=
  (M !!! i) !!! j.

(** [tensor.dtype]: a floating-point type or a signed integer type.
    Boolean, unsigned and complex tensors are not represented. *)
Inductive dtype := Float | Int.

(** The conversion of a number to an integer type: the fraction is cut
    off, toward zero. *)
Definition truncate (q : Q) : Q :=
  inject_Z (Z.quot (Qnum q) (Z.pos (Qden q))).

(** The number [q] as it is stored into a tensor of dtype [d]. *)
Definition convert (d : dtype) (q : Q) : Q :=
  match d with
  | Float => q
  | Int => truncate q
  end.

(** The row [row] as it is stored into a tensor of dtype [d]. *)
Definition store (d : dtype) (row : Vec) : Vec :=
  match d with
  | Float => row
  | Int => map truncate row
  end.

(** [torch.zeros_like(t)] *)
Definition zeros_like (t : Tensor3) : Tensor3 :=
  map (map (map (λ _ : Q, 0%Q))) t.

(** [t[:, i] = v] for a scalar [v] *)
Definition fill_channel (i : nat) (v : Q) (t : Tensor3) : Tensor3 :=
  map (alter (map (λ _ : Q, v)) i) t.

(** [t[:, i] = s] for [s] with one row per example *)
Definition set_channel (i : nat) (s : Mat) (t : Tensor3) : Tensor3 :=
  zip_with (λ (e : Mat) (r : Vec), <[i := r]> e) t s.

(** Elementwise operations on tensors of one shape. *)
Definition sub3 (a b : Tensor3) : Tensor3 :=
  zip_with (zip_with (zip_with Qminus)) a b.
Definition mul3 (a b : Tensor3) : Tensor3 :=
  zip_with (zip_with (zip_with Qmult)) a b.

(** Sum of the rows of a matrix, first row first. *)
Definition sum_rows (e : Mat) : Vec :=
  match e with
  | [] => []
  | r :: rs => foldl (zip_with Qplus) r rs
  end.

(** [torch.sum(t, dim=1)] *)
Definition sum_dim1 (t : Tensor3) : Mat := map sum_rows t.

(** Sum of a list of numbers. *)
Definition Qsum (l : list Q) : Q := foldr Qplus 0%Q l.

End Tensor.
Export Tensor.

(** ** attribute.py, [hypothetical_attributions] *)

Module Projector.

(** The Python values a caller can pass where a one-element tuple of a
    tensor is expected. *)
Inductive pyobj :=
| PyTensor (d : dtype) (t : Tensor3)
| PyTuple (items : list pyobj)
| PyOther.

(** The first two checks of the validation loop: [val] is a tuple of
    length one whose element is a tensor. *)
Definition one_tensor (val : pyobj) : result (dtype * Tensor3) :=
  match val with
  | PyTuple [PyTensor d t] => Ok (d, t)
  | _ => Raise ValueError
  end.

(** The third check: [val[0].shape != multipliers[0].shape]. *)
Definition check_shape (m t : Tensor3) : result unit :=
  if decide (shape3 t = shape3 m) then Ok () else Raise ValueError.

(** The body of the loop [for i in range(X[0].shape[1])]; [dtype] is
    [X[0].dtype].  [hypothetical_input] and [projected_contribs] have this
    dtype.  The difference and the product take the wider type of their
    operands, in which they are exact (integers are closed under both); the
    sums are converted where they are written into [projected_contribs]. *)
Definition project_step (dtype : dtype) (multipliers X references : Tensor3)
    (projected_contribs : Tensor3) (i : nat) : Tensor3 :=
  let hypothetical_input := fill_channel i 1%Q (zeros_like X) in
  let hypothetical_diffs := sub3 hypothetical_input references in
  let hypothetical_contribs := mul3 hypothetical_diffs multipliers in
  set_channel i (map (store dtype) (sum_dim1 hypothetical_contribs))
              projected_contribs.

(** Lines 64 to 72, for [X[0].dtype = dtype]. *)
Definition project (dtype : dtype) (multipliers X references : Tensor3)
  : Tensor3 :=
  foldl (project_step dtype multipliers X references) (zeros_like references)
        (seq 0 (shape3 X).1.2).

Definition hypothetical_attributions (multipliers X references : pyobj)
  : result pyobj :=
  m ← one_tensor multipliers;
  _ ← check_shape m.2 m.2;
  x ← one_tensor X;
  _ ← check_shape m.2 x.2;
  r ← one_tensor references;
  _ ← check_shape m.2 r.2;
  Ok (PyTuple [PyTensor x.1 (project x.1 m.2 x.2 r.2)]).

(** The element of a tensor at example [k], character [a], position [p]. *)
Definition at3 (t : Tensor3) (k a p : nat) : Q := ((t !!! k) !!! a) !!! p.

(** What the specification asks of the slice at character [c]: over the
    alphabet axis, the sum of (one-hot-at-[c] minus reference) times
    multiplier. *)
Definition hypothetical_sum (A : nat) (multipliers references : Tensor3)
    (k c p : nat) : Q :=
  Qsum (map (λ a, ((if decide (a = c) then 1 else 0) - at3 references k a p) *
                    at3 multipliers k a p)%Q (seq 0 A)).

(** One example's view of the loop body of [project]. *)
Definition contribs_at (mk xk rk : Mat) (i : nat) : Mat :=
  zip_with (zip_with Qmult)
    (zip_with (zip_with Qminus)
       (alter (map (λ _ : Q, 1%Q)) i (map (map (λ _ : Q, 0%Q)) xk)) rk) mk.

Definition example_step (d : dtype) (mk xk rk : Mat) (e : Mat) (i : nat) : Mat :=
  <[i := store d (sum_rows (contribs_at mk xk rk i))]> e.

End Projector.
Export Projector.

(** ** The part of PyTorch the engine drives *)

Module Torch.

(** *** Elementwise operations with broadcasting

    Two axes of equal size are combined pointwise; an axis of size one is
    stretched to the other; anything else is a [RuntimeError]. *)

Fixpoint mapM_result {A B} (f : A → result B) (l : list A) : result (list B) :=
  match l with
  | [] => Ok []
  | x :: l' => y ← f x; ys ← mapM_result f l'; Ok (y :: ys)
  end.

Definition bzip {A B C} (f : A → B → result C) (a : list A) (b : list B)
  : result (list C) :=
  if decide (length a = length b) then
    mapM_result (λ p, f p.1 p.2) (zip a b)
  else
    match a, b with
    | [x], _ => mapM_result (f x) b
    | _, [y] => mapM_result (λ x, f x y) a
    | _, _ => Raise RuntimeError
    end.

(** A binary elementwise operation on 1-D and on 2-D tensors. *)
Definition ew1 {A B C} (f : A → B → C) : list A → list B → result (list C) :=
  bzip (λ x y, Ok (f x y)).
Definition ew2 {A B C} (f : A → B → C)
  : list (list A) → list (list B) → result (list (list C)) :=
  bzip (ew1 f).

(** [torch.where(cond, a, b)] *)
Definition where_ (cond : list (list bool)) (a b : Mat) : result Mat :=
  ab ← ew2 pair a b;
  ew2 (λ (c : bool) (p : Q * Q), if c then p.1 else p.2) cond ab.

(** [torch.chunk(t, 2)] along the first axis: pieces of
    [ceil(len / 2)] rows; two empty pieces for an empty tensor. *)
Definition chunk {A} (t : list A) : list (list A) :=
  let k := (length t + 1) / 2 in
  if decide (length t = 0) then [[]; []]
  else if decide (length t ≤ k) then [t]
  else [take k t; drop k t].

(** [torch.sub( *chunks )] *)
Definition sub_chunks2 (chunks : list Mat) : result Mat :=
  match chunks with
  | [a; b] => ew2 Qminus a b
  | _ => Raise TypeError
  end.
Definition sub_chunks1 (chunks : list Vec) : result Vec :=
  match chunks with
  | [a; b] => ew1 Qminus a b
  | _ => Raise TypeError
  end.

Definition same_shape2 (a b : Mat) : bool :=
  bool_decide (map length a = map length b).

(** *** Layers

    A layer acts on each example of the batch separately; an example is
    presented to it as its row-major vector of features. *)

Inductive layer_op :=
| Linear (weight : Mat) (bias : Vec)
| Pointwise (f f' : Q → Q).

Definition dot (w x : Vec) : Q := Qsum (zip_with Qmult w x).

Definition relu (x : Q) : Q := if Qltb 0 x then x else 0%Q.
Definition relu' (x : Q) : Q := if Qltb 0 x then 1%Q else 0%Q.
Definition relu6 (x : Q) : Q :=
  if Qltb 0 x then (if Qltb x 6 then x else 6%Q) else 0%Q.
Definition relu6' (x : Q) : Q :=
  if Qltb 0 x then (if Qltb x 6 then 1%Q else 0%Q) else 0%Q.

(** The forward computation on one example. *)
Definition op_forward (op : layer_op) (x : Vec) : result Vec :=
  match op with
  | Linear W b =>
      if decide (Forall (λ w : Vec, length w = length x) W ∧ length b = length W)
      then Ok (zip_with (λ (w : Vec) (c : Q), (dot w x + c)%Q) W b)
      else Raise RuntimeError
  | Pointwise f _ => Ok (map f x)
  end.

(** The gradient with respect to the input of one example, from the
    gradient [g] with respect to its output. *)
Definition op_backward (op : layer_op) (x g : Vec) : Vec :=
  match op with
  | Linear W _ =>
      foldl (zip_with Qplus) (map (λ _ : Q, 0%Q) x)
            (zip_with (λ (gc : Q) (w : Vec), map (Qmult gc) w) g W)
  | Pointwise _ f' => zip_with (λ xi gi : Q, (gi * f' xi)%Q) x g
  end.

(** *** Modules, hook tables and handles *)

Inductive hook :=
| EngineForwardHook                 (* DeepLiftShap._forward_hook *)
| EngineForwardPreHook              (* DeepLiftShap._forward_pre_hook *)
| EngineBackwardHook (eps : Q)      (* DeepLiftShap._backward_hook, with self.eps *)
| ForeignHook (tag : nat).          (* a hook of another consumer; it observes only *)

Record nn_module := mk_module {
  mro : list string;                  (* names of the classes of type(module).__mro__ *)
  op : layer_op;
  _forward_hooks : gmap nat hook;
  _forward_pre_hooks : gmap nat hook;
  _backward_hooks : gmap nat hook;
  input : option Mat;                 (* the attribute module.input, once set *)
  output : option Mat;                (* the attribute module.output, once set *)
}.

Definition set_input (x : Mat) (m : nn_module) : nn_module :=
  mk_module (mro m) (op m) (_forward_hooks m) (_forward_pre_hooks m)
            (_backward_hooks m) (Some x) (output m).
Definition set_output (y : Mat) (m : nn_module) : nn_module :=
  mk_module (mro m) (op m) (_forward_hooks m) (_forward_pre_hooks m)
            (_backward_hooks m) (input m) (Some y).

Inductive hook_table := ForwardTable | ForwardPreTable | BackwardTable.

Definition get_table (t : hook_table) (m : nn_module) : gmap nat hook :=
  match t with
  | ForwardTable => _forward_hooks m
  | ForwardPreTable => _forward_pre_hooks m
  | BackwardTable => _backward_hooks m
  end.

Definition set_table (t : hook_table) (tbl : gmap nat hook) (m : nn_module)
  : nn_module :=
  match t with
  | ForwardTable =>
      mk_module (mro m) (op m) tbl (_forward_pre_hooks m) (_backward_hooks m)
                (input m) (output m)
  | ForwardPreTable =>
      mk_module (mro m) (op m) (_forward_hooks m) tbl (_backward_hooks m)
                (input m) (output m)
  | BackwardTable =>
      mk_module (mro m) (op m) (_forward_hooks m) (_forward_pre_hooks m) tbl
                (input m) (output m)
  end.

(** [isinstance(module, classes)] for a tuple of classes. *)
Definition isinstance (m : nn_module) (classes : list string) : bool :=
  existsb (λ c, bool_decide (c ∈ mro m)) classes.

(** A [RemovableHandle]: the table it was issued for and its id. *)
Record handle := mk_handle {
  h_module : nat;
  h_table : hook_table;
  h_id : nat;
}.

(** The interpreter state the engine reads and writes: the modules of the
    model in the order [Module.apply] visits them (the model computes their
    composition), the counter [RemovableHandle.next_id], and what was passed
    to [warnings.warn] and to [print]. *)
Record state := mk_state {
  model : list nn_module;
  next_id : nat;
  warnings : list Vec;
  stdout : list Vec;
}.

Definition set_model (ms : list nn_module) (st : state) : state :=
  mk_state ms (next_id st) (warnings st) (stdout st).

(** [module.register_*_hook(h)] on the module at index [i]. *)
Definition register_hook (i : nat) (t : hook_table) (h : hook) (st : state)
  : handle * state :=
  let id := next_id st in
  (mk_handle i t id,
   mk_state (alter (λ m, set_table t (<[id := h]> (get_table t m)) m) i (model st))
            (S id) (warnings st) (stdout st)).

(** [handle.remove()] *)
Definition remove (h : handle) (st : state) : state :=
  set_model
    (alter (λ m, set_table (h_table h) (delete (h_id h) (get_table (h_table h) m)) m)
           (h_module h) (model st))
    st.

(** The hook, if any, that a handle still designates. *)
Definition hook_at (st : state) (h : handle) : option hook :=
  m ← model st !! h_module h; get_table (h_table h) m !! h_id h.

End Torch.
Export Torch.

(** ** attribute.py, the hook methods of [DeepLiftShap] *)

Module Hooks.

(** [module.input = inputs[0].clone().detach()] *)
Definition _forward_pre_hook (module : nn_module) (inputs : Mat) : nn_module :=
  set_input inputs module.

(** [module.output = outputs.clone().detach()] *)
Definition _forward_hook (module : nn_module) (outputs : Mat) : nn_module :=
  set_output outputs module.

(** The rescale rule; [eps] is [self.eps], [grad_input] and [grad_output]
    are the first elements of the tuples the hook receives.  A missing
    attribute is an [AttributeError].  Division is that of [Q]: a
    quotient by zero is zero. *)
Definition _backward_hook (eps : Q) (module : nn_module)
    (grad_input grad_output : Mat) : result Mat :=
  module_input ← or_raise AttributeError (input module);
  delta_in_ ← sub_chunks2 (chunk module_input);
  module_output ← or_raise AttributeError (output module);
  delta_out_ ← sub_chunks2 (chunk module_output);
  let delta_in := delta_in_ ++ delta_in_ in
  let delta_out := delta_out_ ++ delta_out_ in
  delta ← ew2 Qdiv delta_out delta_in;
  scaled ← ew2 Qmult grad_output delta;
  where_ (map (map (λ d : Q, Qltb (Qabs d) eps)) delta_in) grad_input scaled.

(** What [_backward_hook] computes on a batch of [n] examples followed by
    their [n] baselines, every tensor having one shape: the difference of
    the two halves, repeated for both halves, and the selection. *)
Definition paired_delta (n : nat) (t : Mat) : Mat :=
  let d := zip_with (zip_with Qminus) (take n t) (drop n t) in d ++ d.

Definition rescaled (eps : Q) (n : nat) (inp out grad_input grad_output : Mat)
  : Mat :=
  zip_with (zip_with (λ (c : bool) (p : Q * Q), if c then p.1 else p.2))
    (map (map (λ d : Q, Qltb (Qabs d) eps)) (paired_delta n inp))
    (zip_with (zip_with pair) grad_input
       (zip_with (zip_with Qmult) grad_output
          (zip_with (zip_with Qdiv) (paired_delta n out) (paired_delta n inp)))).

End Hooks.
Export Hooks.

(** ** Running a model: forward and backward passes with hooks *)

Module Autograd.

(** *** The forward pass *)

Definition hooks_of (tbl : gmap nat hook) : list hook := (map_to_list tbl).*2.

Definition run_forward_pre_hooks (m : nn_module) (x : Mat) : nn_module :=
  foldl (λ m h, match h with
                | EngineForwardPreHook => _forward_pre_hook m x
                | _ => m
                end)
        m (hooks_of (_forward_pre_hooks m)).

Definition run_forward_hooks (m : nn_module) (y : Mat) : nn_module :=
  foldl (λ m h, match h with
                | EngineForwardHook => _forward_hook m y
                | _ => m
                end)
        m (hooks_of (_forward_hooks m)).

(** [module(x)]: pre-hooks, the layer on every row, hooks. *)
Definition call_module (m : nn_module) (x : Mat) : nn_module * result Mat :=
  let m1 := run_forward_pre_hooks m x in
  match mapM_result (op_forward (op m)) x with
  | Raise e => (m1, Raise e)
  | Ok y => (run_forward_hooks m1 y, Ok y)
  end.

(** [model(x)]: the modules after the call, the input each executed module
    received (what autograd saves for the backward pass), and the output. *)
Fixpoint forward (ms : list nn_module) (x : Mat)
  : list nn_module * list Mat * result Mat :=
  match ms with
  | [] => ([], [], Ok x)
  | m :: rest =>
      match call_module m x with
      | (m', Raise e) => (m' :: rest, [x], Raise e)
      | (m', Ok y) =>
          let '(rest', tape, r) := forward rest y in
          (m' :: rest', x :: tape, r)
      end
  end.


(** What the forward hooks leave on a module: the engine's hooks, where
    present, store the tensor; hooks of other consumers store nothing. *)
Definition is_forward_pre_hook (h : hook) : bool :=
  match h with EngineForwardPreHook => true | _ => false end.
Definition is_forward_hook (h : hook) : bool :=
  match h with EngineForwardHook => true | _ => false end.

Definition capture_input (x : Mat) (m : nn_module) : nn_module :=
  if existsb is_forward_pre_hook (hooks_of (_forward_pre_hooks m))
  then set_input x m else m.

Definition capture_output (y : Mat) (m : nn_module) : nn_module :=
  if existsb is_forward_hook (hooks_of (_forward_hooks m))
  then set_output y m else m.

(** The layers alone, without modules and hooks: on one example, and on a
    batch. *)
Fixpoint chain (ops : list layer_op) (x : Vec) : result Vec :=
  match ops with
  | [] => Ok x
  | o :: rest => y ← op_forward o x; chain rest y
  end.

Fixpoint chain_rows (ops : list layer_op) (x : Mat) : result Mat :=
  match ops with
  | [] => Ok x
  | o :: rest => y ← mapM_result (op_forward o) x; chain_rows rest y
  end.

(** *** The backward pass *)

(** The hooks of [module._backward_hooks] on the gradient the layer
    computed: an engine hook replaces it by what it returns, which must
    have the shape of the layer input. *)
Definition run_backward_hooks (m : nn_module) (grad_input grad_output : Mat)
  : result Mat :=
  foldl (λ (acc : result Mat) (h : hook),
           res ← acc;
           match h with
           | EngineBackwardHook eps =>
               r ← _backward_hook eps m res grad_output;
               if same_shape2 r res then Ok r else Raise RuntimeError
           | _ => Ok res
           end)
        (Ok grad_input) (hooks_of (_backward_hooks m)).

(** The backward step of one module whose forward input was [x]. *)
Definition module_backward (m : nn_module) (x : Mat) (grad_output : Mat)
  : result Mat :=
  run_backward_hooks m (zip_with (op_backward (op m)) x grad_output) grad_output.

(** The backward pass through the chain, last module first. *)
Fixpoint backward (ms : list nn_module) (tape : list Mat) (g : Mat) : result Mat :=
  match ms, tape with
  | m :: rest, x :: tape' => g' ← backward rest tape' g; module_backward m x g'
  | _, _ => Ok g
  end.

(** [Module.apply(fn)]: [fn] on every module, by index. *)
Fixpoint apply_ {C} (fn : nat → C → result unit * C) (idx : list nat) (c : C)
  : result unit * C :=
  match idx with
  | [] => (Ok (), c)
  | i :: rest =>
      match fn i c with
      | (Ok _, c') => apply_ fn rest c'
      | (Raise e, c') => (Raise e, c')
      end
  end.

(** An example as the row-major vector of its features. *)
Definition flatten_example (e : Mat) : Vec := concat e.

(** The rows of a flat vector, cut like the rows of [e]. *)
Fixpoint unflatten (e : Mat) (v : Vec) : Mat :=
  match e with
  | [] => []
  | r :: e' => take (length r) v :: unflatten e' (drop (length r) v)
  end.

End Autograd.
Export Autograd.

(** ** attribute.py, class [DeepLiftShap] *)

Module Engine.

Definition _MaxPoolNd : string := "torch.nn.modules.pooling._MaxPoolNd".
Definition ReLU : string := "torch.nn.ReLU".

Record DeepLiftShap := mk_engine {
  ignore_layers : list string;
  eps : Q;
  warning_threshold : Q;
  verbose : bool;
  forward_handles : list handle;
  backward_handles : list handle;
}.

Definition default_ignore_layers : list string := [ReLU].
Definition default_eps : Q := 1 # 1000000.
Definition default_warning_threshold : Q := 1 # 1000.

(** The loop [for module in model.named_modules()] of [__init__]. *)
Fixpoint check_modules (named_modules : list nn_module) : result unit :=
  match named_modules with
  | [] => Ok ()
  | module :: rest =>
      if isinstance module [_MaxPoolNd] then Raise ValueError
      else check_modules rest
  end.

Definition __init__ (model : list nn_module) (ignore_layers : list string)
    (eps warning_threshold : Q) (verbose : bool) : result DeepLiftShap :=
  _ ← check_modules model;
  Ok (mk_engine ignore_layers eps warning_threshold verbose [] []).

Definition _can_register_hook (self : DeepLiftShap) (module : nn_module) : bool :=
  if bool_decide (0 < size (_backward_hooks module)) then false
  else if negb (isinstance module (ignore_layers self)) then false
  else true.

(** The engine object and the interpreter state it works on. *)
Definition ctx : Type := DeepLiftShap * state.

(** [_register_hooks] on the module at index [i].  [self.layer] is never
    assigned, so reaching it is an [AttributeError]. *)
Definition _register_hooks (i : nat) (attribute_to_layer_input : bool) (c : ctx)
  : result unit * ctx :=
  let '(self, st) := c in
  match model st !! i with
  | None => (Ok (), c)
  | Some module =>
      if negb (_can_register_hook self module) then (Ok (), c)
      else if negb attribute_to_layer_input then (Raise AttributeError, c)
      else
        let '(forward_handle, st1) :=
          register_hook i ForwardTable EngineForwardHook st in
        let '(pre_forward_handle, st2) :=
          register_hook i ForwardPreTable EngineForwardPreHook st1 in
        let '(backward_handle, st3) :=
          register_hook i BackwardTable (EngineBackwardHook (eps self)) st2 in
        (Ok (),
         (mk_engine (ignore_layers self) (eps self) (warning_threshold self)
                    (verbose self)
                    (forward_handles self ++ [forward_handle; pre_forward_handle])
                    (backward_handles self ++ [backward_handle]),
          st3))
  end.

(** [self.model.apply(self._register_hooks)] *)
Definition register_all (c : ctx) : result unit * ctx :=
  apply_ (λ i, _register_hooks i true) (seq 0 (length (model c.2))) c.

(** The gradient of [torch.chunk(outputs, 2)[0].sum()] with respect to
    [outputs]: one on the rows of the first chunk, zero elsewhere. *)
Definition grad_of_first_chunk_sum (outputs : Mat) : Mat :=
  let k := length (default [] (head (chunk outputs))) in
  imap (λ (i : nat) (row : Vec),
          map (λ _ : Q, if decide (i < k) then 1%Q else 0%Q) row) outputs.

(** Lines 186 to 199: register the hooks, run the model on the examples
    followed by the baselines, and take the gradient with respect to
    [inputs].  Returns [outputs] and [gradients]. *)
Definition gradient_pass (inputs baselines : Tensor3) (c : ctx)
  : result (Mat * Tensor3) * ctx :=
  match register_all c with
  | (Raise e, c1) => (Raise e, c1)
  | (Ok _, (self1, st1)) =>
      let inputs_ := inputs ++ baselines in
      let '(ms, tape, outputs) := forward (model st1) (map flatten_example inputs_) in
      let st2 := set_model ms st1 in
      match outputs with
      | Raise e => (Raise e, (self1, st2))
      | Ok outputs =>
          match backward ms tape (grad_of_first_chunk_sum outputs) with
          | Raise e => (Raise e, (self1, st2))
          | Ok g =>
              let gradients := zip_with unflatten inputs (take (length inputs) g) in
              (Ok (outputs, gradients), (self1, st2))
          end
      end
  end.

(** Lines 203 to 205. *)
Definition convergence_deltas (outputs : Mat) (inputs baselines gradients : Tensor3)
  : result Vec :=
  column0 ← mapM_result (λ row : Vec, or_raise IndexError (row !! 0)) outputs;
  output_diff ← sub_chunks1 (chunk column0);
  diffs ← bzip (ew2 Qminus) inputs baselines;
  products ← bzip (ew2 Qmult) diffs gradients;
  let input_diff := map (λ e : Mat, Qsum (concat e)) products in
  d ← ew1 Qminus output_diff input_diff;
  Ok (map Qabs d).

(** Lines 207 to 212: the warning and the verbose report. *)
Definition report (self : DeepLiftShap) (convergence_deltas : Vec) (st : state)
  : state :=
  let st1 :=
    if existsb (λ d, Qltb (warning_threshold self) d) convergence_deltas
    then mk_state (model st) (next_id st) (warnings st ++ [convergence_deltas])
                  (stdout st)
    else st in
  if verbose self
  then mk_state (model st1) (next_id st1) (warnings st1)
                (stdout st1 ++ [convergence_deltas])
  else st1.

(** The [try] block. *)
Definition attribute_try (inputs baselines : Tensor3) (c : ctx)
  : result Tensor3 * ctx :=
  match gradient_pass inputs baselines c with
  | (Raise e, c1) => (Raise e, c1)
  | (Ok (outputs, gradients), (self1, st1)) =>
      match convergence_deltas outputs inputs baselines gradients with
      | Raise e => (Raise e, (self1, st1))
      | Ok deltas => (Ok gradients, (self1, report self1 deltas st1))
      end
  end.

(** The [finally] block. *)
Definition attribute_finally (self : DeepLiftShap) (st : state) : state :=
  foldl (λ st h, remove h st)
        (foldl (λ st h, remove h st) st (forward_handles self))
        (backward_handles self).

(** [DeepLiftShap.attribute(inputs, baselines)], without extra forward
    arguments. *)
Definition attribute (inputs baselines : Tensor3) (c : ctx)
  : result Tensor3 * ctx :=
  if bool_decide (shape3 inputs = shape3 baselines) then
    let '(r, (self1, st1)) := attribute_try inputs baselines c in
    (r, (self1, attribute_finally self1 st1))
  else (Raise AssertionError, c).

(** What the cleanup leaves alone on a module. *)
Definition frame (m : nn_module) : list string * layer_op * option Mat * option Mat :=
  (mro m, op m, input m, output m).

(** *** The conservation law *)

(** The model's output on one example, and its channel 0. *)
Definition model_output (ms : list nn_module) (e : Mat) : result Vec :=
  chain (map op ms) (flatten_example e).

Definition output0 (ms : list nn_module) (e : Mat) : result Q :=
  y ← model_output ms e; or_raise IndexError (y !! 0).

(** The sum over all (character, position) features of
    [(x - b) * g]. *)
Definition attribution_sum (x b g : Mat) : Q :=
  Qsum (concat (zip_with (zip_with Qmult) (zip_with (zip_with Qminus) x b) g)).

(** By how much the sum of the attributions of example [x] with
    baseline [b] misses the difference of the model's outputs. *)
Definition conservation_gap (ms : list nn_module) (x b g : Mat) : result Q :=
  ox ← output0 ms x;
  ob ← output0 ms b;
  Ok (Qabs ((ox - ob) - attribution_sum x b g)).

(** The deltas [convergence_deltas] computes for [n] examples, written
    example by example. *)
Definition expected_deltas (n : nat) (outputs : Mat)
    (inputs baselines gradients : Tensor3) : Vec :=
  map (λ i, Qabs ((el2 outputs i 0 - el2 outputs (n + i) 0) -
                  attribution_sum (inputs !!! i) (baselines !!! i)
                                  (gradients !!! i))%Q)
      (seq 0 n).

(** *** What a call registers *)

(** The handles the engine holds after a step that it did not hold before. *)
Definition new_handles (self self' : DeepLiftShap) : list handle :=
  drop (length (forward_handles self)) (forward_handles self') ++
  drop (length (backward_handles self)) (backward_handles self').

(** The module at index [i] receives the three hooks of the engine when
    [attribute] registers its hooks from [c]: the registration issues a
    handle for each of its three tables, and each designates the engine's
    hook. *)
Definition receives_hooks (c : ctx) (i : nat) : Prop :=
  let c' := (register_all c).2 in
  ∃ idf idp idb : nat,
    mk_handle i ForwardTable idf ∈ new_handles c.1 c'.1 ∧
    mk_handle i ForwardPreTable idp ∈ new_handles c.1 c'.1 ∧
    mk_handle i BackwardTable idb ∈ new_handles c.1 c'.1 ∧
    hook_at c'.2 (mk_handle i ForwardTable idf) = Some EngineForwardHook ∧
    hook_at c'.2 (mk_handle i ForwardPreTable idp) = Some EngineForwardPreHook ∧
    hook_at c'.2 (mk_handle i BackwardTable idb)
      = Some (EngineBackwardHook (eps c.1)).

(** A module after [_register_hooks] gave it the ids [id], [id + 1] and
    [id + 2]. *)
Definition registered_module (e : Q) (id : nat) (m : nn_module) : nn_module :=
  mk_module (mro m) (op m)
            (<[id := EngineForwardHook]> (_forward_hooks m))
            (<[S id := EngineForwardPreHook]> (_forward_pre_hooks m))
            (<[S (S id) := EngineBackwardHook e]> (_backward_hooks m))
            (input m) (output m).

(** The outcome of [register_all] computed along the list of modules: the
    modules, the forward and backward handles issued, and the next id. *)
Fixpoint register_from (self : DeepLiftShap) (i id : nat) (ms : list nn_module)
  : list nn_module * list handle * list handle * nat :=
  match ms with
  | [] => ([], [], [], id)
  | m :: rest =>
      if _can_register_hook self m then
        let '(rest', fh, bh, id') := register_from self (S i) (S (S (S id))) rest in
        (registered_module (eps self) id m :: rest',
         mk_handle i ForwardTable id :: mk_handle i ForwardPreTable (S id) :: fh,
         mk_handle i BackwardTable (S (S id)) :: bh, id')
      else
        let '(rest', fh, bh, id') := register_from self (S i) id rest in
        (m :: rest', fh, bh, id')
  end.

Definition add_handles (self : DeepLiftShap) (fh bh : list handle) : DeepLiftShap :=
  mk_engine (ignore_layers self) (eps self) (warning_threshold self) (verbose self)
            (forward_handles self ++ fh) (backward_handles self ++ bh).

End Engine.
Export Engine.

(** ** The engine on one example and its baseline

    What [attribute] computes for one (example, baseline) pair of the
    batch, written without the batch: the layers on both rows, then the
    gradient back through them, rescaled at the hooked layers. *)

Module Pairwise.

(** A batch of examples followed by their baselines. *)
Definition unpair {A} (ps : list (A * A)) : list A := ps.*1 ++ ps.*2.

(** Two results agree when they return the same value or both raise. *)
Definition result_agree {A} (r r' : result A) : Prop :=
  match r, r' with
  | Ok a, Ok b => a = b
  | Raise _, Raise _ => True
  | _, _ => False
  end.

(** [r] returns [φ b] when [r'] returns [b], and raises when [r'] raises. *)
Definition follows {A B} (φ : B → A) (r : result A) (r' : result B) : Prop :=
  match r' with
  | Ok b => r = Ok (φ b)
  | Raise _ => is_ok r = false
  end.

(** [r] raises nothing but [e]. *)
Definition raises_only {A} (e : exn) (r : result A) : Prop :=
  ∀ e', r = Raise e' → e' = e.

(** The rows of a batch of pairs, each with the half it lies in: [false]
    for the examples, [true] for the baselines. *)
Definition sides {T} (ts : list T) : list (T * bool) :=
  map (λ t, (t, false)) ts ++ map (λ t, (t, true)) ts.

Definition side {A} (s : bool) (p : A * A) : A := if s then p.2 else p.1.

Definition both {A B} (f : A → result B) (p : A * A) : result (B * B) :=
  y1 ← f p.1; y2 ← f p.2; Ok (y1, y2).

Definition is_engine_backward_hook (h : hook) : bool :=
  match h with EngineBackwardHook _ => true | _ => false end.

(** No module carries a backward hook of an engine. *)
Definition clean_backward (ms : list nn_module) : Prop :=
  Forall (λ m, existsb is_engine_backward_hook (hooks_of (_backward_hooks m))
               = false) ms.

(** What the backward pass reads of a module. *)
Definition sig (m : nn_module) : list string * layer_op * gmap nat hook :=
  (mro m, op m, _backward_hooks m).

(** Broadcasting of two rows: when it is defined, and its value. *)
Definition bok {A B} (a : list A) (b : list B) : bool :=
  bool_decide (length a = length b) || bool_decide (length a = 1)
  || bool_decide (length b = 1).

Definition bval {A B C} (f : A → B → C) (a : list A) (b : list B) : list C :=
  if decide (length a = length b) then zip_with f a b
  else match a, b with
       | [x], _ => map (f x) b
       | _, [y] => map (λ x, f x y) a
       | _, _ => []
       end.

(** The rescale rule on one row: the inputs [x], [b] and outputs [yx],
    [yb] of the layer for the example and its baseline, the gradient
    [native] the layer computed and the incoming gradient [g]. *)
Definition rescale_value (eps : Q) (x b yx yb native g : Vec) : Vec :=
  let din := bval Qminus x b in
  let dout := bval Qminus yx yb in
  let d := bval Qdiv dout din in
  bval (λ (c : bool) (p : Q * Q), if c then p.1 else p.2)
       (map (λ d : Q, Qltb (Qabs d) eps) din)
       (bval pair native (bval Qmult g d)).

Definition rescale_guard (eps : Q) (x b yx yb native g : Vec) : bool :=
  let din := bval Qminus x b in
  let dout := bval Qminus yx yb in
  let d := bval Qdiv dout din in
  let s := bval Qmult g d in
  let ab := bval pair native s in
  bok x b && bok yx yb && bok dout din && bok g d && bok native s
  && bok (map (λ d : Q, Qltb (Qabs d) eps) din) ab
  && bool_decide (length (rescale_value eps x b yx yb native g) = length native).

(** What the backward step of a layer reads for one pair: its inputs, its
    outputs and the incoming gradients. *)
Abbreviation rowT := ((Vec * Vec) * (Vec * Vec) * (Vec * Vec))%type.

(** The backward step of one layer on a pair: [p] its inputs, [q] its
    outputs, [g] the incoming gradients. *)
Definition pair_step (eps : Q) (o : layer_op) (hooked : bool)
    (p q g : Vec * Vec) : result (Vec * Vec) :=
  let nx := op_backward o p.1 g.1 in
  let nb := op_backward o p.2 g.2 in
  if hooked then
    if rescale_guard eps p.1 p.2 q.1 q.2 nx g.1
       && rescale_guard eps p.1 p.2 q.1 q.2 nb g.2
    then Ok (rescale_value eps p.1 p.2 q.1 q.2 nx g.1,
             rescale_value eps p.1 p.2 q.1 q.2 nb g.2)
    else Raise RuntimeError
  else Ok (nx, nb).

(** The seed of the backward pass: one for every output of the example,
    zero for those of the baseline. *)
Definition seed_pair (q : Vec * Vec) : Vec * Vec :=
  (map (λ _ : Q, 1%Q) q.1, map (λ _ : Q, 0%Q) q.2).

Fixpoint pair_gradient (eps : Q) (layers : list (layer_op * bool))
    (p : Vec * Vec) : result (Vec * Vec) :=
  match layers with
  | [] => Ok (seed_pair p)
  | (o, hooked) :: rest =>
      q ← both (op_forward o) p;
      g ← pair_gradient eps rest q;
      pair_step eps o hooked p q g
  end.

(** The same pass on a whole batch, layer by layer. *)
Fixpoint batch_gradient (ms : list nn_module) (X : Mat) : result Mat :=
  match ms with
  | [] => Ok (grad_of_first_chunk_sum X)
  | m :: rest =>
      Y ← mapM_result (op_forward (op m)) X;
      G ← batch_gradient rest Y;
      module_backward (capture_output Y (capture_input X m)) X G
  end.

(** The module [m], hooks registered, is the layer [l]: hooked, it
    carries the backward hook of the engine alone and its two forward
    hooks; not hooked, no backward hook of an engine. *)
Definition layer_of (eps : Q) (m : nn_module) (l : layer_op * bool) : Prop :=
  op m = l.1 ∧
  if l.2 then
    hooks_of (_backward_hooks m) = [EngineBackwardHook eps] ∧
    existsb is_forward_pre_hook (hooks_of (_forward_pre_hooks m)) = true ∧
    existsb is_forward_hook (hooks_of (_forward_hooks m)) = true
  else existsb is_engine_backward_hook (hooks_of (_backward_hooks m)) = false.

(** The layers as the engine [self] treats them: hooked or not. *)
Definition hooked_layers (self : DeepLiftShap) (ms : list nn_module)
  : list (layer_op * bool) :=
  map (λ m, (op m, _can_register_hook self m)) ms.

(** [attribute] on the pair of one example and one baseline. *)
Definition pair_engine (eps : Q) (layers : list (layer_op * bool)) (x b : Mat)
  : result Mat :=
  let p := (flatten_example x, flatten_example b) in
  g ← pair_gradient eps layers p;
  q ← both (chain (map fst layers)) p;
  if bool_decide (q.1 ≠ []) && bool_decide (q.2 ≠ [])
  then Ok (unflatten x g.1) else Raise IndexError.

(** *** The rescale rule and the sum of the attributions *)






(** The projector on one example of floating-point tensors. *)
Definition project_example (A : nat) (g x b : Mat) : Mat :=
  foldl (example_step Float g x b) (map (map (λ _ : Q, 0%Q)) b) (seq 0 A).

End Pairwise.
Export Pairwise.

(** ** The hook tables of a model *)

Module Tables.

(** The three hook tables of a module. *)
Definition hook_tables (m : nn_module)
  : gmap nat hook * gmap nat hook * gmap nat hook :=
  (_forward_hooks m, _forward_pre_hooks m, _backward_hooks m).

(** Every id in a hook table of the model was issued before: it is below
    [RemovableHandle.next_id]. *)
Definition ids_below (next : nat) (ms : list nn_module) : Prop :=
  ∀ (m : nn_module) (t : hook_table) (id : nat),
    m ∈ ms → is_Some (get_table t m !! id) → id < next.

(** The table a handle of a registered module points into, with its hook. *)
Definition registered_id (t : hook_table) (id : nat) : nat :=
  match t with
  | ForwardTable => id
  | ForwardPreTable => S id
  | BackwardTable => S (S id)
  end.

Definition registered_hook (e : Q) (t : hook_table) : hook :=
  match t with
  | ForwardTable => EngineForwardHook
  | ForwardPreTable => EngineForwardPreHook
  | BackwardTable => EngineBackwardHook e
  end.

End Tables.
Export Tables.

(** ** attribute.py, [deep_lift_shap] *)

Module Driver.

Abbreviation Tensor4 := (list (list (list (list Q)))).

(** The [random_state] a reference generator is called with: an integer,
    or none, in which case it draws from the global generator ([draw]
    counts the draws made so far). *)
Inductive seed :=
| Seeded (random_state : Z)
| Unseeded (draw : nat).

(** A reference generator [references(batch, n, random_state)], returning
    for each example of the batch [n] references. *)
Definition generator : Type := Tensor3 → nat → seed → Tensor4.

Inductive references_arg :=
| RefTensor (t : Tensor4)
| RefFunc (f : generator).

Definition shape2 (e : Mat) : nat * nat :=
  (length e, length (default [] (head e))).

(** [torch.cat(ts)] along the first axis. *)
Definition cat (ts : list Tensor3) : result Tensor3 :=
  match ts with
  | [] => Raise RuntimeError
  | _ =>
      match concat ts with
      | [] => Ok []
      | e :: rest =>
          if forallb (λ e' : Mat, bool_decide (shape2 e' = shape2 e)) rest
          then Ok (e :: rest) else Raise RuntimeError
      end
  end.

(** [torch.stack(l)] *)
Definition stack (l : list Mat) : result Tensor3 :=
  match l with
  | [] => Raise RuntimeError
  | e :: rest =>
      if forallb (same_shape2 e) rest then Ok (e :: rest) else Raise RuntimeError
  end.

(** [torch.stack(l).mean(dim=0)] *)
Definition stack_mean (l : list Mat) : result Mat :=
  t ← stack l;
  match t with
  | [] => Raise RuntimeError
  | e :: rest =>
      Ok (map (map (λ s : Q, (s / inject_Z (Z.of_nat (length l)))%Q))
              (foldl (zip_with (zip_with Qplus)) e rest))
  end.

(** [t[idx]] for a list of indices. *)
Definition gather {A} (t : list A) (idx : list nat) : result (list A) :=
  mapM_result (λ i, or_raise IndexError (t !! i)) idx.

(** [t[Xi, rj]] for two lists of indices. *)
Definition gather2 (t : Tensor4) (Xi rj : list nat) : result Tensor3 :=
  mapM_result (λ p : nat * nat,
                 row ← or_raise IndexError (t !! p.1);
                 or_raise IndexError (row !! p.2))
              (zip Xi rj).

(** [t[:, 0]] *)
Definition select0 (t : Tensor4) : result Tensor3 :=
  mapM_result (λ row : Tensor3, or_raise IndexError (row !! 0)) t.

(** [out[0]] of the tuple the projector returns. *)
Definition first_tensor (out : pyobj) : result Tensor3 :=
  match out with
  | PyTuple (PyTensor _ t :: _) => Ok t
  | _ => Raise TypeError
  end.

(** The [N * k] examples of [l] as [N] groups of [k]. *)
Fixpoint groups {A} (N k : nat) (l : list A) : list (list A) :=
  match N with
  | 0 => []
  | S N' => take k l :: groups N' k (drop k l)
  end.

(** [t] is an [M] by [n] by [A] by [L] tensor. *)
Definition regular4 (M n A L : nat) (t : Tensor4) : Prop :=
  length t = M ∧ Forall (regular3 n A L) t.

(** The variables of the loop, with the interpreter state and the number
    of draws made from the global random generator. *)
Record loop := mk_loop {
  Xi : list nat;
  rj : list nat;
  attr_ : list Mat;
  attributions : list Mat;
  z : nat;
  references_ : list Mat;
  world : state;
  draws : nat;
}.

Section deep_lift_shap.

Variable X : Tensor3.
Variable references : references_arg.
Variable n_shuffles : nat.
Variable batch_size : Z.
Variable return_references : bool.
Variable hypothetical : bool.
Variable warning_threshold : Q.
Variable print_convergence_deltas : bool.
Variable random_state : option Z.

(** The references of one batch, and the draws made after it. *)
Definition batch_references (_X : Tensor3) (Xi rj : list nat) (draws : nat)
  : result (Tensor3 * nat) :=
  match references with
  | RefTensor t => r ← gather2 t Xi rj; Ok (r, draws)
  | RefFunc f =>
      match random_state with
      | None => r ← select0 (f _X 1 (Unseeded draws)); Ok (r, S draws)
      | Some random_state =>
          rs ← mapM_result
                 (λ p : Mat * nat,
                    select0 (f [p.1] 1 (Seeded (random_state + Z.of_nat p.2))))
                 (zip _X rj);
          r ← cat rs;
          Ok (r, draws)
      end
  end.

(** What one round of the loop [while len(attr_) >= n_shuffles] appends
    for example [z]: the mean of its attributions, times the example
    unless [hypothetical]. *)
Definition average (z : nat) (group : list Mat) : result Mat :=
  attr_avg ← stack_mean group;
  if hypothetical then Ok attr_avg
  else Xz ← or_raise IndexError (X !! z); ew2 Qmult attr_avg Xz.

(** The loop [while len(attr_) >= n_shuffles]; it ends within
    [len(attr_)] rounds when [n_shuffles] is positive. *)
Fixpoint drain (fuel : nat) (l : loop) : result loop :=
  match fuel with
  | 0 => Ok l
  | S fuel' =>
      if decide (n_shuffles ≤ length (attr_ l)) then
        attr_avg ← average (z l) (take n_shuffles (attr_ l));
        drain fuel' (mk_loop (Xi l) (rj l) (drop n_shuffles (attr_ l))
                             (attributions l ++ [attr_avg]) (S (z l))
                             (references_ l) (world l) (draws l))
      else Ok l
  end.

(** The body of [if len(Xi) == batch_size or i == (n-1)]. *)
Definition run_batch (l : loop) : result loop :=
  _X ← gather X (Xi l);
  rd ← batch_references _X (Xi l) (rj l) (draws l);
  let _references := rd.1 in
  self ← __init__ (model (world l)) default_ignore_layers default_eps
                  warning_threshold print_convergence_deltas;
  let res := attribute _X _references (self, world l) in
  gradients ← res.1;
  out ← hypothetical_attributions (PyTuple [PyTensor Float gradients])
                                  (PyTuple [PyTensor Float _X])
                                  (PyTuple [PyTensor Float _references]);
  attr ← first_tensor out;
  l1 ← drain (length (attr_ l ++ attr))
             (mk_loop (Xi l) (rj l) (attr_ l ++ attr) (attributions l) (z l)
                      (references_ l) res.2.2 rd.2);
  Ok (mk_loop [] [] (attr_ l1) (attributions l1) (z l1)
              (if return_references then references_ l1 ++ _references
               else references_ l1)
              (world l1) (draws l1)).

(** One round of [for i in trange(n)]. *)
Definition body (n : nat) (l : loop) (i : nat) : result loop :=
  if decide (n_shuffles = 0) then Raise ZeroDivisionError
  else
    let l := mk_loop (Xi l ++ [i / n_shuffles]) (rj l ++ [i mod n_shuffles])
                     (attr_ l) (attributions l) (z l) (references_ l)
                     (world l) (draws l) in
    if decide (Z.of_nat (length (Xi l)) = batch_size ∨ i = n - 1)
    then run_batch l else Ok l.

Fixpoint for_loop (n : nat) (idx : list nat) (l : loop) : result loop :=
  match idx with
  | [] => Ok l
  | i :: rest => l' ← body n l i; for_loop n rest l'
  end.

(** The function from the loop on, [n_shuffles] being settled. *)
Definition deep_lift_shap_loop (st : state) : result (Tensor3 * option Tensor4) :=
  let n := length X * n_shuffles in
  l ← for_loop n (seq 0 n) (mk_loop [] [] [] [] 0 [] st 0);
  attributions ← stack (attributions l);
  if return_references then
    match references_ l with
    | [] => Raise RuntimeError
    | _ =>
        if decide (length (references_ l) = length X * n_shuffles)
        then Ok (attributions, Some (groups (length X) n_shuffles (references_ l)))
        else Raise RuntimeError
    end
  else Ok (attributions, None).

End deep_lift_shap.

(** [deep_lift_shap(model, X, references=..., n_shuffles=...,
    batch_size=..., ...)] on the model of the state [st], without extra
    forward arguments.  The device and the progress bar play no part.  With
    a tensor of references, [n_shuffles] is [references.shape[1]]. *)
Definition deep_lift_shap (X : Tensor3) (references : references_arg)
    (n_shuffles : nat) (batch_size : Z) (return_references hypothetical : bool)
    (warning_threshold : Q) (print_convergence_deltas : bool)
    (random_state : option Z) (st : state)
  : result (Tensor3 * option Tensor4) :=
  let n_shuffles :=
    match references with
    | RefTensor t => length (default [] (head t))
    | RefFunc _ => n_shuffles
    end in
  deep_lift_shap_loop X references n_shuffles batch_size return_references
                      hypothetical warning_threshold print_convergence_deltas
                      random_state st.

(** *** The pairs of the driver, one by one *)

(** The reference the generator [f] returns for example [x] with the seed
    [random_state + j]. *)
Definition seeded_reference (f : generator) (random_state : Z) (x : Mat) (j : nat)
  : Mat :=
  default [] (head (default [] (head (f [x] 1 (Seeded (random_state + Z.of_nat j)))))).

(** The attribution of the pair with flat index [i]: example [i / n_shuffles],
    reference index [i mod n_shuffles]; an engine is built on the modules
    [ms], run on the pair, and its gradient projected. *)
Definition pair_attribution (X : Tensor3) (f : generator) (n_shuffles : nat)
    (random_state : Z) (A : nat) (warning_threshold : Q)
    (print_convergence_deltas : bool) (ms : list nn_module) (i : nat)
  : result Mat :=
  let x := X !!! (i / n_shuffles) in
  let b := seeded_reference f random_state x (i mod n_shuffles) in
  self ← __init__ ms default_ignore_layers default_eps
                  warning_threshold print_convergence_deltas;
  g ← pair_engine (eps self) (hooked_layers self ms) x b;
  Ok (project_example A g x b).

Definition pair_reference (X : Tensor3) (f : generator) (n_shuffles : nat)
    (random_state : Z) (i : nat) : Mat :=
  seeded_reference f random_state (X !!! (i / n_shuffles)) (i mod n_shuffles).

(** [v] is what the driver appends for example [k] when the
    attributions of the pairs, in the order of their flat indices, are [D]. *)
Definition averaged (X : Tensor3) (hypothetical : bool) (n_shuffles : nat)
    (D : list Mat) (k : nat) (v : Mat) : Prop :=
  average X hypothetical k (take n_shuffles (drop (k * n_shuffles) D)) = Ok v.

(** The variables of the loop of the driver when the pairs [0 .. s) have
    been attributed, with attributions [D], and the pairs [s .. i) wait in
    [Xi] and [rj]; [ms] are the modules of the model before the first
    batch. *)
Definition loop_inv (X : Tensor3) (f : generator) (n_shuffles : nat)
    (return_references hypothetical : bool) (warning_threshold : Q)
    (print_convergence_deltas : bool) (random_state : Z) (A L : nat)
    (ms : list nn_module) (s i : nat) (D : list Mat) (l : loop) : Prop :=
  s ≤ i ∧
  Xi l = map (λ j, j / n_shuffles) (seq s (i - s)) ∧
  rj l = map (λ j, j mod n_shuffles) (seq s (i - s)) ∧
  mapM_result (pair_attribution X f n_shuffles random_state A warning_threshold
                                print_convergence_deltas ms) (seq 0 s) = Ok D ∧
  Forall (rect A L) D ∧
  z l = s / n_shuffles ∧
  attr_ l = drop (z l * n_shuffles) D ∧
  Forall2 (averaged X hypothetical n_shuffles D) (seq 0 (z l)) (attributions l) ∧
  references_ l =
    (if return_references
     then map (pair_reference X f n_shuffles random_state) (seq 0 s) else []) ∧
  map sig (model (world l)) = map sig ms.

(** *** The pairs of the driver, for any source of references *)

(** The reference of the pair with flat index [i] in a tensor of
    references. *)
Definition tensor_reference (t : Tensor4) (n_shuffles : nat) (i : nat) : Mat :=
  (t !!! (i / n_shuffles)) !!! (i mod n_shuffles).

(** The attribution of the pair with flat index [i] when its reference is
    [ref i]. *)
Definition pair_attribution_at (X : Tensor3) (ref : nat → Mat) (n_shuffles : nat)
    (A : nat) (warning_threshold : Q) (print_convergence_deltas : bool)
    (ms : list nn_module) (i : nat) : result Mat :=
  let x := X !!! (i / n_shuffles) in
  let b := ref i in
  self ← __init__ ms default_ignore_layers default_eps
                  warning_threshold print_convergence_deltas;
  g ← pair_engine (eps self) (hooked_layers self ms) x b;
  Ok (project_example A g x b).

(** The variables of the loop when the pairs [0 .. s) have been
    attributed, with attributions [D], and the pairs [s .. i) wait. *)
Definition loop_inv_at (X : Tensor3) (ref : nat → Mat) (n_shuffles : nat)
    (return_references hypothetical : bool) (warning_threshold : Q)
    (print_convergence_deltas : bool) (A L : nat)
    (ms : list nn_module) (s i : nat) (D : list Mat) (l : loop) : Prop :=
  s ≤ i ∧
  Xi l = map (λ j, j / n_shuffles) (seq s (i - s)) ∧
  rj l = map (λ j, j mod n_shuffles) (seq s (i - s)) ∧
  mapM_result (pair_attribution_at X ref n_shuffles A warning_threshold
                                   print_convergence_deltas ms) (seq 0 s) = Ok D ∧
  Forall (rect A L) D ∧
  z l = s / n_shuffles ∧
  attr_ l = drop (z l * n_shuffles) D ∧
  Forall2 (averaged X hypothetical n_shuffles D) (seq 0 (z l)) (attributions l) ∧
  references_ l = (if return_references then map ref (seq 0 s) else []) ∧
  map sig (model (world l)) = map sig ms.

End Driver.
Export Driver.

(** ** attribute.py, [_captum_deep_lift_shap]

    The debugging driver built on Captum.  Captum is not part of this
    file: what [DeepLiftShap(model).attribute(_X, _references, target=0,
    custom_attribution_func=hypothetical_attributions)] does is a
    parameter, a function of the two tensors and the interpreter state.
    The import of Captum is taken to succeed. *)

Module Captum.

(** The exceptions of [result], and the [NameError] of a name that was
    never bound. *)
Inductive error :=
| PyError (e : exn)
| NameError.

Inductive outcome (A : Type) :=
| Done (a : A)
| Fails (e : error).
Arguments Done {A} a.
Arguments Fails {A} e.

(** [torch.cat] of tensors of references. *)
Definition cat4 (ts : list Tensor4) : result Tensor4 :=
  match ts with
  | [] => Raise RuntimeError
  | _ =>
      match concat ts with
      | [] => Ok []
      | e :: rest =>
          if forallb (λ e' : Tensor3, bool_decide (shape3 e' = shape3 e)) rest
          then Ok (e :: rest) else Raise RuntimeError
      end
  end.

(** The variables of the loop. *)
Record captum_loop := mk_captum_loop {
  c_attributions : list Tensor3;
  c_references_ : list Tensor4;
  c_world : state;
  c_draws : nat;
}.

Section _captum_deep_lift_shap.

Variable captum_attribute : Tensor3 → Tensor3 → state → result Tensor3 * state.
Variable X : Tensor3.
Variable references : references_arg.
Variable n_shuffles : nat.
Variable return_references : bool.
Variable hypothetical : bool.
Variable random_state : option Z.

(** [references[i:i+1][0]], or [references(_X, n=n_shuffles,
    random_state=random_state)[0]]. *)
Definition captum_references (i : nat) (_X : Tensor3) (draws : nat)
  : result (Tensor3 * nat) :=
  match references with
  | RefTensor t =>
      r ← or_raise IndexError (head (take 1 (drop i t))); Ok (r, draws)
  | RefFunc f =>
      match random_state with
      | Some random_state =>
          r ← or_raise IndexError (head (f _X n_shuffles (Seeded random_state)));
          Ok (r, draws)
      | None =>
          r ← or_raise IndexError (head (f _X n_shuffles (Unseeded draws)));
          Ok (r, S draws)
      end
  end.

(** One round of [for i in trange(len(X))].  The name [_reference] is
    bound nowhere, in the function or in the module. *)
Definition captum_body (l : captum_loop) (i : nat) : outcome captum_loop :=
  let _X := take 1 (drop i X) in
  match captum_references i _X (c_draws l) with
  | Raise e => Fails (PyError e)
  | Ok (_references, draws) =>
      match captum_attribute _X _references (c_world l) with
      | (Raise e, _) => Fails (PyError e)
      | (Ok attr, world) =>
          match (if hypothetical then Ok attr else bzip (ew2 Qmult) attr _X) with
          | Raise e => Fails (PyError e)
          | Ok attr =>
              if return_references then Fails NameError
              else Done (mk_captum_loop (c_attributions l ++ [attr])
                                        (c_references_ l) world draws)
          end
      end
  end.

Fixpoint captum_for (idx : list nat) (l : captum_loop) : outcome captum_loop :=
  match idx with
  | [] => Done l
  | i :: rest =>
      match captum_body l i with
      | Fails e => Fails e
      | Done l' => captum_for rest l'
      end
  end.

(** [_captum_deep_lift_shap(model, X, references=..., n_shuffles=...,
    return_references=..., hypothetical=..., random_state=...)] on the
    state [st], without extra forward arguments. *)
Definition _captum_deep_lift_shap (st : state)
  : outcome (Tensor3 * option Tensor4) :=
  match captum_for (seq 0 (length X)) (mk_captum_loop [] [] st 0) with
  | Fails e => Fails e
  | Done l =>
      match cat (c_attributions l) with
      | Raise e => Fails (PyError e)
      | Ok attributions =>
          if return_references then
            match cat4 (c_references_ l) with
            | Raise e => Fails (PyError e)
            | Ok references_ => Done (attributions, Some references_)
            end
          else Done (attributions, None)
      end
  end.

End _captum_deep_lift_shap.

End Captum.
Export Captum.

(** ** Small models used in examples *)

Module Examples.

Definition fresh_module (classes : list string) (o : layer_op) : nn_module :=
  mk_module classes o ∅ ∅ ∅ None None.

Definition linear_layer (W : Mat) (b : Vec) : nn_module :=
  fresh_module ["torch.nn.Linear"; "torch.nn.Module"] (Linear W b).

Definition relu_layer : nn_module :=
  fresh_module [ReLU; "torch.nn.Module"] (Pointwise relu relu').

Definition relu6_layer : nn_module :=
  fresh_module ["torch.nn.ReLU6"; "torch.nn.Hardtanh"; "torch.nn.Module"]
               (Pointwise relu6 relu6').

(** The engine as [DeepLiftShap(model)] builds it. *)
Definition default_engine : DeepLiftShap :=
  mk_engine default_ignore_layers default_eps default_warning_threshold false [] [].

Definition fresh_state (ms : list nn_module) : state := mk_state ms 0 [] [].

(** A generator of references: reference [j] of an example is the example
    with its rows rotated by the seed plus [j]. *)
Definition rotate (k : nat) (e : Mat) : Mat :=
  drop (k mod length e) e ++ take (k mod length e) e.

Definition rotations : generator :=
  λ batch n s,
    map (λ e, map (λ j, rotate (match s with
                                | Seeded z => Z.to_nat z + j
                                | Unseeded d => d + j
                                end) e) (seq 0 n)) batch.

End Examples.
Export Examples.

(** * Properties *)
Lemma sum_rows_acc_lookup (rs : Mat) : ∀ (acc : Vec) (L p : nat),
  length acc = L → Forall (λ r : Vec, length r = L) rs → p < L →
  ∃ v, foldl (zip_with Qplus) acc rs !! p = Some v ∧
       (v == (acc !!! p) + Qsum (map (λ r : Vec, r !!! p) rs))%Q.
Proof.
  induction rs as [|r rs IH]; intros acc L p Hacc Hrs Hp; simpl.
  - destruct (lookup_lt_is_Some_2 acc p) as [v Hv]; [lia|].
    exists v. split; [done|]. rewrite (list_lookup_total_correct _ _ _ Hv). ring.
  - inversion Hrs as [|? ? Hr Hrs']; subst.
    destruct (IH (zip_with Qplus acc r) (length acc) p) as (v & Hv & Heq); auto.
    { rewrite length_zip_with. lia. }
    exists v. split; [done|]. rewrite Heq.
    destruct (lookup_lt_is_Some_2 acc p) as [a Ha]; [lia|].
    destruct (lookup_lt_is_Some_2 r p) as [b Hb]; [lia|].
    assert (Hz : zip_with Qplus acc r !! p = Some (a + b)%Q).
    { rewrite lookup_zip_with, Ha, Hb. done. }
    rewrite (list_lookup_total_correct _ _ _ Hz), (list_lookup_total_correct _ _ _ Ha),
      (list_lookup_total_correct _ _ _ Hb). ring.
Qed.

Lemma sum_rows_lookup (e : Mat) (A L p : nat) :
  regular2 A L e → 0 < A → p < L →
  ∃ v, sum_rows e !! p = Some v ∧ (v == Qsum (map (λ r : Vec, r !!! p) e))%Q.
Proof.
  intros [Hlen Hrows] HA Hp. destruct e as [|r rs]; simpl in *; [lia|].
  inversion Hrows as [|? ? Hr Hrs]; subst.
  destruct (sum_rows_acc_lookup rs r (length r) p) as (v & Hv & Heq); auto.
  exists v. split; [done|]. rewrite Heq. reflexivity.
Qed.

Lemma sum_rows_length (e : Mat) (A L : nat) :
  regular2 A L e → 0 < A → length (sum_rows e) = L.
Proof.
  intros [Hlen Hrows] HA. destruct e as [|r rs]; simpl in *; [lia|].
  inversion Hrows as [|? ? Hr Hrs]; subst. clear Hrows HA.
  revert r Hrs. induction rs as [|r' rs IH]; intros r Hrs; simpl; [done|].
  inversion Hrs as [|? ? Hr' Hrs']; subst.
  rewrite IH.
  - rewrite length_zip_with. lia.
  - rewrite length_zip_with. eapply Forall_impl; [exact Hrs'|]. simpl. intros; lia.
Qed.

Lemma store_length (d : dtype) (row : Vec) : length (store d row) = length row.
Proof. destruct d; simpl; [done|]. by rewrite length_map. Qed.

Lemma store_lookup (d : dtype) (row : Vec) (p : nat) :
  store d row !! p = convert d <$> row !! p.
Proof.
  destruct d; simpl.
  - by destruct (row !! p).
  - by rewrite list_lookup_fmap.
Qed.

Lemma truncate_proper (q q' : Q) : (q == q')%Q → truncate q = truncate q'.
Proof.
  unfold Qeq, truncate. destruct q as [a b], q' as [c d]. simpl. intros H.
  f_equal.
  rewrite <- (Z.quot_mul_cancel_r a (Z.pos b) (Z.pos d)) by lia.
  rewrite H, (Z.mul_comm (Z.pos b) (Z.pos d)).
  apply Z.quot_mul_cancel_r; lia.
Qed.

Lemma convert_proper (d : dtype) (q q' : Q) :
  (q == q')%Q → (convert d q == convert d q')%Q.
Proof.
  intros H. destruct d; simpl; [done|]. by rewrite (truncate_proper q q' H).
Qed.

Lemma project_step_lookup (d : dtype) (m x r proj : Tensor3) (i k : nat) mk xk rk e :
  m !! k = Some mk → x !! k = Some xk → r !! k = Some rk → proj !! k = Some e →
  project_step d m x r proj i !! k = Some (example_step d mk xk rk e i).
Proof.
  intros Hm Hx Hr He. unfold project_step, set_channel, sum_dim1, mul3, sub3,
    fill_channel, zeros_like.
  rewrite lookup_zip_with, He. simpl.
  rewrite !list_lookup_fmap, lookup_zip_with, lookup_zip_with.
  rewrite !list_lookup_fmap, Hx, Hr, Hm. simpl. done.
Qed.

Lemma project_step_length (d : dtype) (m x r proj : Tensor3) (i n : nat) :
  length m = n → length x = n → length r = n → length proj = n →
  length (project_step d m x r proj i) = n.
Proof.
  intros Hm Hx Hr Hp. unfold project_step, set_channel, sum_dim1, mul3, sub3,
    fill_channel, zeros_like.
  rewrite length_zip_with, !length_map, !length_zip_with, !length_map. lia.
Qed.

Lemma project_fold_lookup (d : dtype) (m x r : Tensor3) (k : nat) mk xk rk
    (l : list nat) :
  m !! k = Some mk → x !! k = Some xk → r !! k = Some rk →
  ∀ proj e, proj !! k = Some e →
  foldl (project_step d m x r) proj l !! k
    = Some (foldl (example_step d mk xk rk) e l).
Proof.
  intros Hm Hx Hr. induction l as [|i l IH]; intros proj e He; simpl; [done|].
  apply IH. by apply project_step_lookup.
Qed.

Lemma project_fold_length (d : dtype) (m x r : Tensor3) (n : nat) (l : list nat) :
  length m = n → length x = n → length r = n →
  ∀ proj, length proj = n → length (foldl (project_step d m x r) proj l) = n.
Proof.
  intros Hm Hx Hr. induction l as [|i l IH]; intros proj Hp; simpl; [done|].
  apply IH. by apply project_step_length.
Qed.

Lemma example_fold_length (d : dtype) (mk xk rk : Mat) (l : list nat) :
  ∀ e, length (foldl (example_step d mk xk rk) e l) = length e.
Proof.
  induction l as [|i l IH]; intros e; simpl; [done|].
  rewrite IH. unfold example_step. by rewrite length_insert.
Qed.

Lemma example_fold_lookup (d : dtype) (mk xk rk : Mat) (l : list nat) :
  NoDup l → ∀ (e : Mat) (c : nat), c < length e →
  foldl (example_step d mk xk rk) e l !! c =
    if decide (c ∈ l) then Some (store d (sum_rows (contribs_at mk xk rk c)))
    else e !! c.
Proof.
  induction l as [|i l IH]; intros Hnd e c Hc; cbn [foldl].
  - rewrite decide_False; [done|apply not_elem_of_nil].
  - apply NoDup_cons in Hnd as [Hni Hnd].
    rewrite IH; [|done|unfold example_step; by rewrite length_insert].
    destruct (decide (c = i)) as [->|Hne].
    + rewrite (decide_False (P := i ∈ l)); [|done].
      rewrite (decide_True (P := i ∈ i :: l)); [|by left].
      unfold example_step. by rewrite list_lookup_insert_eq.
    + unfold example_step. rewrite list_lookup_insert_ne; [|done].
      destruct (decide (c ∈ l)) as [Hin|Hnin].
      * rewrite decide_True; [done|by right].
      * rewrite decide_False; [done|]. intros Hin. apply elem_of_cons in Hin as [?|?]; done.
Qed.

Lemma regular3_shape3 (n A L : nat) (t : Tensor3) :
  regular3 n A L t →
  shape3 t = (n, if decide (n = 0) then 0 else A,
              if decide (n = 0) then 0 else if decide (A = 0) then 0 else L).
Proof.
  intros [Hn Hall]. unfold shape3. destruct t as [|e t]; simpl in *; subst.
  - done.
  - inversion Hall as [|? ? [HA HL] _]; subst. simpl.
    destruct e as [|row e]; simpl in *; [done|].
    inversion HL; subst. done.
Qed.

Lemma regular3_lookup (n A L : nat) (t : Tensor3) (k : nat) :
  regular3 n A L t → k < n → ∃ e, t !! k = Some e ∧ regular2 A L e.
Proof.
  intros [Hn Hall] Hk. destruct (lookup_lt_is_Some_2 t k) as [e He]; [lia|].
  exists e. split; [done|]. eapply Forall_lookup_1 in Hall; [|exact He]. exact Hall.
Qed.

Lemma regular2_lookup (A L : nat) (e : Mat) (a : nat) :
  regular2 A L e → a < A → ∃ row, e !! a = Some row ∧ length row = L.
Proof.
  intros [Hn Hall] Ha. destruct (lookup_lt_is_Some_2 e a) as [row Hrow]; [lia|].
  exists row. split; [done|]. eapply Forall_lookup_1 in Hall; [|exact Hrow]. exact Hall.
Qed.

Lemma contribs_at_lookup (A L : nat) (mk xk rk : Mat) (c a p : nat) :
  regular2 A L mk → regular2 A L xk → regular2 A L rk → a < A → p < L →
  ∃ row, contribs_at mk xk rk c !! a = Some row ∧ length row = L ∧
    row !! p = Some (((if decide (a = c) then 1 else 0) - ((rk !!! a) !!! p)) *
                       ((mk !!! a) !!! p))%Q.
Proof.
  intros Hm Hx Hr Ha Hp.
  destruct (regular2_lookup _ _ _ a Hm Ha) as (mrow & Hmrow & Hml).
  destruct (regular2_lookup _ _ _ a Hx Ha) as (xrow & Hxrow & Hxl).
  destruct (regular2_lookup _ _ _ a Hr Ha) as (rrow & Hrrow & Hrl).
  destruct (lookup_lt_is_Some_2 mrow p) as [mv Hmv]; [lia|].
  destruct (lookup_lt_is_Some_2 xrow p) as [xv Hxv]; [lia|].
  destruct (lookup_lt_is_Some_2 rrow p) as [rv Hrv]; [lia|].
  unfold contribs_at.
  rewrite lookup_zip_with, lookup_zip_with, list_lookup_alter.
  rewrite (list_lookup_total_correct _ _ _ Hrrow), (list_lookup_total_correct _ _ _ Hmrow).
  rewrite (list_lookup_total_correct _ _ _ Hrv), (list_lookup_total_correct _ _ _ Hmv).
  destruct (decide (c = a)) as [->|Hne].
  - rewrite (decide_True (P := a = a)); [|done].
    rewrite list_lookup_fmap, Hxrow, Hrrow, Hmrow. simpl.
    eexists. split; [reflexivity|]. split.
    { rewrite !length_zip_with, !length_map; lia. }
    rewrite !lookup_zip_with, !list_lookup_fmap, Hxv, Hrv, Hmv. done.
  - rewrite (decide_False (P := a = c)); [|done].
    rewrite list_lookup_fmap, Hxrow, Hrrow, Hmrow. simpl.
    eexists. split; [reflexivity|]. split.
    { rewrite !length_zip_with, !length_map; lia. }
    rewrite !lookup_zip_with, !list_lookup_fmap, Hxv, Hrv, Hmv. done.
Qed.

Lemma contribs_at_regular (A L : nat) (mk xk rk : Mat) (c : nat) :
  regular2 A L mk → regular2 A L xk → regular2 A L rk →
  regular2 A L (contribs_at mk xk rk c).
Proof.
  intros Hm Hx Hr. split.
  - unfold contribs_at. rewrite !length_zip_with, length_alter, length_map.
    destruct Hm, Hx, Hr. lia.
  - apply Forall_lookup_2. intros a row Hrow.
    assert (Ha : a < A).
    { apply lookup_lt_Some in Hrow. unfold contribs_at in Hrow.
      rewrite !length_zip_with, length_alter, length_map in Hrow.
      destruct Hm, Hx, Hr. lia. }
    destruct L as [|L'].
    + unfold contribs_at in Hrow.
      apply lookup_zip_with_Some in Hrow as (u & v & -> & Hu & Hv).
      destruct (regular2_lookup _ _ _ a Hm Ha) as (mrow & Hmrow & Hml).
      rewrite length_zip_with. assert (v = mrow) by congruence. subst. lia.
    + destruct (contribs_at_lookup A (S L') mk xk rk c a 0 Hm Hx Hr Ha)
        as (row' & Hrow' & Hlen & _); [lia|]. congruence.
Qed.

Lemma Qsum_ext {X} (f g : X → Q) (l : list X) :
  (∀ a, a ∈ l → (f a == g a)%Q) → (Qsum (map f l) == Qsum (map g l))%Q.
Proof.
  induction l as [|a l IH]; intros H; simpl; [reflexivity|].
  rewrite (H a); [|by left]. rewrite IH; [reflexivity|].
  intros b Hb. apply H. by right.
Qed.

Lemma map_lookup_total_seq {X} `{Inhabited X} (l : list X) :
  l = map (λ a, l !!! a) (seq 0 (length l)).
Proof.
  apply list_eq. intros i. rewrite list_lookup_fmap.
  destruct (decide (i < length l)) as [Hi|Hi].
  - rewrite lookup_seq_lt; [|done]. simpl.
    destruct (lookup_lt_is_Some_2 l i Hi) as [v Hv].
    by rewrite (list_lookup_total_correct _ _ _ Hv).
  - rewrite lookup_seq_ge; [|lia]. simpl. apply lookup_ge_None. lia.
Qed.

Lemma project_spec (d : dtype) (n A L : nat) (m x r : Tensor3) :
  regular3 n A L m → regular3 n A L x → regular3 n A L r →
  regular3 n A L (project d m x r) ∧
  ∀ k c p, k < n → c < A → p < L →
    (at3 (project d m x r) k c p == convert d (hypothetical_sum A m r k c p))%Q.
Proof.
  intros Hm Hx Hr.
  assert (Hlen : length (project d m x r) = n).
  { unfold project. apply project_fold_length; try apply Hm; try apply Hx; try apply Hr.
    unfold zeros_like. rewrite length_map. apply Hr. }
  assert (Hrange : n ≠ 0 → (shape3 x).1.2 = A).
  { intros Hn. rewrite (regular3_shape3 _ _ _ _ Hx). simpl. by rewrite decide_False. }
  assert (Hex : ∀ k, k < n → ∃ mk xk rk, m !! k = Some mk ∧ x !! k = Some xk ∧
      r !! k = Some rk ∧ regular2 A L mk ∧ regular2 A L xk ∧ regular2 A L rk ∧
      project d m x r !! k =
        Some (foldl (example_step d mk xk rk) (map (map (λ _ : Q, 0%Q)) rk) (seq 0 A))).
  { intros k Hk.
    destruct (regular3_lookup _ _ _ _ k Hm Hk) as (mk & Hmk & Hmk').
    destruct (regular3_lookup _ _ _ _ k Hx Hk) as (xk & Hxk & Hxk').
    destruct (regular3_lookup _ _ _ _ k Hr Hk) as (rk & Hrk & Hrk').
    exists mk, xk, rk. repeat split; try done; try apply Hmk'; try apply Hxk'; try apply Hrk'.
    unfold project. rewrite Hrange; [|lia].
    apply project_fold_lookup; try done.
    unfold zeros_like. by rewrite list_lookup_fmap, Hrk. }
  assert (Hrow : ∀ k c, k < n → c < A → ∃ mk xk rk, m !! k = Some mk ∧
      r !! k = Some rk ∧ regular2 A L mk ∧ regular2 A L xk ∧ regular2 A L rk ∧
      ∃ e, project d m x r !! k = Some e ∧ length e = A ∧
           e !! c = Some (store d (sum_rows (contribs_at mk xk rk c)))).
  { intros k c Hk Hc. destruct (Hex k Hk) as (mk & xk & rk & Hmk & Hxk & Hrk & Rm & Rx & Rr & Hp).
    exists mk, xk, rk. repeat split; try done; try apply Rm; try apply Rx; try apply Rr.
    eexists. split; [exact Hp|]. split.
    - rewrite example_fold_length, length_map. apply Rr.
    - rewrite example_fold_lookup; [|apply NoDup_seq|rewrite length_map; destruct Rr; lia].
      rewrite decide_True; [done|]. apply elem_of_seq. lia. }
  split.
  - split; [done|]. apply Forall_lookup_2. intros k e He.
    assert (Hk : k < n) by (apply lookup_lt_Some in He; lia).
    destruct (Hex k Hk) as (mk & xk & rk & Hmk & Hxk & Hrk & Rm & Rx & Rr & Hp).
    rewrite Hp in He. injection He as <-. split.
    + rewrite example_fold_length, length_map. apply Rr.
    + apply Forall_lookup_2. intros c row Hc.
      assert (Hc' : c < A).
      { apply lookup_lt_Some in Hc. rewrite example_fold_length, length_map in Hc.
        destruct Rr; lia. }
      rewrite example_fold_lookup in Hc; [|apply NoDup_seq|rewrite length_map; destruct Rr; lia].
      rewrite decide_True in Hc; [|apply elem_of_seq; lia].
      injection Hc as <-. rewrite store_length.
      apply (sum_rows_length _ A L); [by apply contribs_at_regular|lia].
  - intros k c p Hk Hc Hp.
    destruct (Hrow k c Hk Hc) as (mk & xk & rk & Hmk & Hrk & Rm & Rx & Rr & e & He & _ & Hec).
    unfold at3 at 1.
    rewrite (list_lookup_total_correct _ _ _ He), (list_lookup_total_correct _ _ _ Hec).
    destruct (sum_rows_lookup (contribs_at mk xk rk c) A L p) as (v & Hv & Heq);
      [by apply contribs_at_regular|lia|done|].
    assert (Hsv : store d (sum_rows (contribs_at mk xk rk c)) !! p = Some (convert d v))
      by (by rewrite store_lookup, Hv).
    rewrite (list_lookup_total_correct _ _ _ Hsv).
    apply convert_proper. rewrite Heq.
    unfold hypothetical_sum.
    assert (HA : length (contribs_at mk xk rk c) = A)
      by (by apply (contribs_at_regular A L mk xk rk c)).
    rewrite (map_lookup_total_seq (contribs_at mk xk rk c)) at 1.
    rewrite map_map, HA. apply Qsum_ext. intros a Ha. apply elem_of_seq in Ha.
    destruct (contribs_at_lookup A L mk xk rk c a p Rm Rx Rr) as (row & Hr1 & _ & Hr2);
      [lia|done|].
    rewrite (list_lookup_total_correct _ _ _ Hr1), (list_lookup_total_correct _ _ _ Hr2).
    unfold at3. rewrite (list_lookup_total_correct _ _ _ Hmk), (list_lookup_total_correct _ _ _ Hrk).
    reflexivity.
Qed.




(** *** Construction *)

Lemma isinstance_single (m : nn_module) (c : string) :
  isinstance m [c] = bool_decide (c ∈ mro m).
Proof. unfold isinstance. simpl. by rewrite orb_false_r. Qed.

Lemma check_modules_raise (ms : list nn_module) :
  Exists (λ m, _MaxPoolNd ∈ mro m) ms ↔ check_modules ms = Raise ValueError.
Proof.
  induction ms as [|m ms IH]; cbn [check_modules].
  - split; [intros H; inversion H|discriminate].
  - rewrite isinstance_single. rewrite Exists_cons.
    case_bool_decide as Hm; [tauto|].
    rewrite <- IH. tauto.
Qed.

Lemma check_modules_ok (ms : list nn_module) :
  Forall (λ m, _MaxPoolNd ∉ mro m) ms ↔ check_modules ms = Ok ().
Proof.
  induction ms as [|m ms IH]; cbn [check_modules].
  - split; [done|constructor].
  - rewrite isinstance_single. rewrite Forall_cons.
    case_bool_decide as Hm; [|rewrite <- IH; tauto].
    split; [tauto|discriminate].
Qed.

(** C6. Constructing the engine on a model one of whose modules is a
    max-pooling layer (an instance of [_MaxPoolNd]) raises [ValueError];
    on a model without one it returns the engine, holding no handle.  The
    constructor reads the list of modules and nothing else: it runs no
    forward pass and leaves the interpreter state as it is. *)
Theorem init_rejects_max_pooling (ms : list nn_module) (ig : list string)
    (e thr : Q) (v : bool) :
  (Exists (λ m, _MaxPoolNd ∈ mro m) ms ↔
     __init__ ms ig e thr v = Raise ValueError) ∧
  (Forall (λ m, _MaxPoolNd ∉ mro m) ms ↔
     __init__ ms ig e thr v = Ok (mk_engine ig e thr v [] [])).
Proof.
  unfold __init__. split.
  - rewrite check_modules_raise.
    destruct (check_modules ms) as [[]|err]; simpl; split; congruence.
  - rewrite check_modules_ok.
    destruct (check_modules ms) as [[]|err]; simpl; split; congruence.
Qed.


(** *** Registration *)

Lemma can_register_add_handles (self : DeepLiftShap) fh bh m :
  _can_register_hook (add_handles self fh bh) m = _can_register_hook self m.
Proof. done. Qed.

Lemma register_from_add_handles (self : DeepLiftShap) fh bh ms : ∀ i id,
  register_from (add_handles self fh bh) i id ms = register_from self i id ms.
Proof.
  induction ms as [|m ms IH]; intros i id; simpl; [done|].
  rewrite can_register_add_handles. by rewrite !IH.
Qed.

Lemma add_handles_nil (self : DeepLiftShap) : add_handles self [] [] = self.
Proof. destruct self. unfold add_handles. simpl. by rewrite !app_nil_r. Qed.

Lemma add_handles_add_handles (self : DeepLiftShap) a b c d :
  add_handles (add_handles self a b) c d = add_handles self (a ++ c) (b ++ d).
Proof. unfold add_handles. simpl. by rewrite <- !app_assoc. Qed.

Lemma alter_middle {X} (f : X → X) (done rest : list X) (m : X) :
  alter f (length done) (done ++ m :: rest) = done ++ f m :: rest.
Proof.
  pose proof (alter_app_r f done (m :: rest) 0) as H.
  rewrite Nat.add_0_r in H. exact H.
Qed.

Lemma register_hooks_step (self : DeepLiftShap) (st : state) done m rest :
  model st = done ++ m :: rest →
  _register_hooks (length done) true (self, st) =
    if _can_register_hook self m then
      (Ok (),
       (add_handles self
          [mk_handle (length done) ForwardTable (next_id st);
           mk_handle (length done) ForwardPreTable (S (next_id st))]
          [mk_handle (length done) BackwardTable (S (S (next_id st)))],
        mk_state (done ++ registered_module (eps self) (next_id st) m :: rest)
                 (S (S (S (next_id st)))) (warnings st) (stdout st)))
    else (Ok (), (self, st)).
Proof.
  intros Hm. unfold _register_hooks. rewrite Hm.
  rewrite list_lookup_middle; [|done].
  destruct (_can_register_hook self m); simpl; [|done].
  unfold register_hook. simpl. rewrite Hm.
  rewrite !alter_middle. simpl. done.
Qed.

Lemma apply_register_from (self : DeepLiftShap) (rest : list nn_module) :
  ∀ (done : list nn_module) (st : state) (fh0 bh0 : list handle),
  model st = done ++ rest →
  apply_ (λ i, _register_hooks i true) (seq (length done) (length rest))
         (add_handles self fh0 bh0, st) =
    let '(rest', fh, bh, id') :=
      register_from self (length done) (next_id st) rest in
    (Ok (), (add_handles self (fh0 ++ fh) (bh0 ++ bh),
             mk_state (done ++ rest') id' (warnings st) (stdout st))).
Proof.
  induction rest as [|m rest IH]; intros done st fh0 bh0 Hm; cbn [length seq apply_ register_from].
  - rewrite !app_nil_r. rewrite app_nil_r in Hm. rewrite <- Hm. by destruct st.
  - rewrite (register_hooks_step _ st done m rest Hm).
    rewrite can_register_add_handles.
    destruct (_can_register_hook self m) eqn:Hcan.
    + rewrite add_handles_add_handles.
      specialize (IH (done ++ [registered_module (eps self) (next_id st) m])
        (mk_state (done ++ registered_module (eps self) (next_id st) m :: rest)
                  (S (S (S (next_id st)))) (warnings st) (stdout st))).
      rewrite length_app in IH. simpl in IH. rewrite Nat.add_1_r in IH.
      rewrite IH; [|by rewrite <- app_assoc].
      destruct (register_from self (S (length done)) (S (S (S (next_id st)))) rest)
        as [[[rest' fh] bh] id'].
      simpl. by rewrite <- !app_assoc.
    + specialize (IH (done ++ [m]) st fh0 bh0).
      rewrite length_app in IH. simpl in IH. rewrite Nat.add_1_r in IH.
      rewrite IH; [|by rewrite <- app_assoc].
      destruct (register_from self (S (length done)) (next_id st) rest)
        as [[[rest' fh] bh] id'].
      by rewrite <- !app_assoc.
Qed.

Lemma register_all_from (self : DeepLiftShap) (st : state) :
  register_all (self, st) =
    let '(ms', fh, bh, id') := register_from self 0 (next_id st) (model st) in
    (Ok (), (add_handles self fh bh, mk_state ms' id' (warnings st) (stdout st))).
Proof.
  unfold register_all. simpl.
  pose proof (apply_register_from self (model st) [] st [] []) as H.
  simpl in H. rewrite add_handles_nil in H. by apply H.
Qed.

Lemma can_register_hook_iff (self : DeepLiftShap) (m : nn_module) :
  _can_register_hook self m = true ↔
  size (_backward_hooks m) = 0 ∧ isinstance m (ignore_layers self) = true.
Proof.
  unfold _can_register_hook. case_bool_decide as Hs.
  - split; [discriminate|]. intros [? _]. lia.
  - destruct (isinstance m (ignore_layers self)); simpl.
    + split; [|done]. intros _. split; [lia|done].
    + split; [discriminate|]. intros [_ ?]. discriminate.
Qed.

Lemma register_from_mono (self : DeepLiftShap) (ms : list nn_module) :
  ∀ i id ms' fh bh id', register_from self i id ms = (ms', fh, bh, id') → id ≤ id'.
Proof.
  induction ms as [|m ms IH]; intros i id ms' fh bh id' H; cbn [register_from] in H.
  - injection H as <- <- <- <-. lia.
  - destruct (_can_register_hook self m).
    + destruct (register_from self (S i) (S (S (S id))) ms) as [[[r f] b] n] eqn:E.
      injection H as <- <- <- <-. apply IH in E. lia.
    + destruct (register_from self (S i) id ms) as [[[r f] b] n] eqn:E.
      injection H as <- <- <- <-. by apply IH in E.
Qed.

Lemma register_from_lookup (self : DeepLiftShap) (ms : list nn_module) :
  ∀ i id ms' fh bh id', register_from self i id ms = (ms', fh, bh, id') →
  ∀ j m, ms !! j = Some m →
    if _can_register_hook self m then
      ∃ k, id ≤ k ∧ S (S (S k)) ≤ id' ∧
           ms' !! j = Some (registered_module (eps self) k m) ∧
           mk_handle (i + j) ForwardTable k ∈ fh ∧
           mk_handle (i + j) ForwardPreTable (S k) ∈ fh ∧
           mk_handle (i + j) BackwardTable (S (S k)) ∈ bh
    else ms' !! j = Some m.
Proof.
  induction ms as [|m0 ms IH]; intros i id ms' fh bh id' Hreg j m Hj; [done|].
  cbn [register_from] in Hreg.
  destruct (_can_register_hook self m0) eqn:Hcan0.
  - destruct (register_from self (S i) (S (S (S id))) ms) as [[[r f] b] n] eqn:Hrec.
    injection Hreg as <- <- <- <-.
    pose proof (register_from_mono _ _ _ _ _ _ _ _ Hrec) as Hmono.
    destruct j as [|j]; simpl in Hj.
    + injection Hj as <-. rewrite Hcan0. exists id.
      rewrite Nat.add_0_r. repeat split; try done; try lia.
      * apply elem_of_cons; by left.
      * apply elem_of_cons; right. apply elem_of_cons; by left.
      * apply elem_of_cons; by left.
    + specialize (IH _ _ _ _ _ _ Hrec j m Hj).
      destruct (_can_register_hook self m); [|done].
      destruct IH as (k & Hk1 & Hk2 & Hl & Hf & Hp & Hb).
      exists k. replace (i + S j) with (S i + j) by lia.
      repeat split; try done; try lia.
      * apply elem_of_cons; right. apply elem_of_cons; by right.
      * apply elem_of_cons; right. apply elem_of_cons; by right.
      * apply elem_of_cons; by right.
  - destruct (register_from self (S i) id ms) as [[[r f] b] n] eqn:Hrec.
    injection Hreg as <- <- <- <-.
    destruct j as [|j]; simpl in Hj.
    + injection Hj as <-. by rewrite Hcan0.
    + specialize (IH _ _ _ _ _ _ Hrec j m Hj).
      destruct (_can_register_hook self m); [|done].
      destruct IH as (k & Hk1 & Hk2 & Hl & Hf & Hp & Hb).
      exists k. replace (i + S j) with (S i + j) by lia. done.
Qed.

Lemma register_from_handles (self : DeepLiftShap) (ms : list nn_module) :
  ∀ i id ms' fh bh id', register_from self i id ms = (ms', fh, bh, id') →
  ∀ h, h ∈ fh ++ bh →
    ∃ j m, h_module h = i + j ∧ ms !! j = Some m ∧
           _can_register_hook self m = true ∧ id ≤ h_id h < id'.
Proof.
  induction ms as [|m0 ms IH]; intros i id ms' fh bh id' Hreg h Hh.
  - injection Hreg as <- <- <- <-. by apply elem_of_nil in Hh.
  - cbn [register_from] in Hreg.
    destruct (_can_register_hook self m0) eqn:Hcan0.
    + destruct (register_from self (S i) (S (S (S id))) ms) as [[[r f] b] n] eqn:Hrec.
      injection Hreg as <- <- <- <-.
      pose proof (register_from_mono _ _ _ _ _ _ _ _ Hrec) as Hmono.
      assert (Hh' : h = mk_handle i ForwardTable id ∨ h = mk_handle i ForwardPreTable (S id)
                    ∨ h = mk_handle i BackwardTable (S (S id)) ∨ h ∈ f ++ b).
      { apply elem_of_app in Hh as [Hh|Hh].
        - apply elem_of_cons in Hh as [->|Hh]; [by left|].
          apply elem_of_cons in Hh as [->|Hh]; [right; by left|].
          right; right; right. apply elem_of_app. by left.
        - apply elem_of_cons in Hh as [->|Hh]; [right; right; by left|].
          right; right; right. apply elem_of_app. by right. }
      destruct Hh' as [->|[->|[->|Hin]]].
      * exists 0, m0. simpl. rewrite Nat.add_0_r. repeat split; try done; lia.
      * exists 0, m0. simpl. rewrite Nat.add_0_r. repeat split; try done; lia.
      * exists 0, m0. simpl. rewrite Nat.add_0_r. repeat split; try done; lia.
      * destruct (IH _ _ _ _ _ _ Hrec h Hin) as (j & m & Hj1 & Hj2 & Hj3 & Hj4).
        exists (S j), m. repeat split; try done; lia.
    + destruct (register_from self (S i) id ms) as [[[r f] b] n] eqn:Hrec.
      injection Hreg as <- <- <- <-.
      destruct (IH _ _ _ _ _ _ Hrec h Hh) as (j & m & Hj1 & Hj2 & Hj3 & Hj4).
      exists (S j), m. repeat split; try done; lia.
Qed.

Lemma new_handles_add (self : DeepLiftShap) fh bh :
  new_handles self (add_handles self fh bh) = fh ++ bh.
Proof. unfold new_handles. simpl. by rewrite !drop_app_length. Qed.

Lemma receives_hooks_iff_can_register (self : DeepLiftShap) (st : state)
    (i : nat) (m : nn_module) :
  model st !! i = Some m →
  receives_hooks (self, st) i ↔ _can_register_hook self m = true.
Proof.
  intros Hm. unfold receives_hooks. rewrite register_all_from. simpl.
  destruct (register_from self 0 (next_id st) (model st)) as [[[ms' fh] bh] id'] eqn:Hreg.
  simpl. rewrite new_handles_add. split.
  - intros (idf & idp & idb & Hf & _).
    destruct (register_from_handles _ _ _ _ _ _ _ _ Hreg _ Hf) as (j & m' & Hj & Hm' & Hcan & _).
    simpl in Hj. subst j. congruence.
  - intros Hcan.
    pose proof (register_from_lookup _ _ _ _ _ _ _ _ Hreg i m Hm) as H.
    rewrite Hcan in H. destruct H as (k & _ & _ & Hl & Hf & Hp & Hb). simpl in *.
    exists k, (S k), (S (S k)). unfold hook_at. simpl. rewrite Hl. simpl.
    rewrite !lookup_insert_eq.
    repeat split; try done; apply elem_of_app; auto.
Qed.


(** C2 (amended). When [attribute] registers its hooks, a module receives
    the forward, forward-pre and backward hooks of the engine exactly when
    it has no backward hook yet and it IS an instance of one of the
    [ignore_layers] types; any other module is left as it was. *)
Theorem hooks_registered_iff_eligible (self : DeepLiftShap) (st : state)
    (i : nat) (m : nn_module) :
  model st !! i = Some m →
  (receives_hooks (self, st) i ↔
     size (_backward_hooks m) = 0 ∧ isinstance m (ignore_layers self) = true) ∧
  (¬ receives_hooks (self, st) i →
     model (register_all (self, st)).2.2 !! i = Some m).
Proof.
  intros Hm. split.
  - rewrite (receives_hooks_iff_can_register self st i m Hm).
    apply can_register_hook_iff.
  - rewrite (receives_hooks_iff_can_register self st i m Hm).
    intros Hcan. rewrite register_all_from.
    destruct (register_from self 0 (next_id st) (model st)) as [[[ms' fh] bh] id'] eqn:Hreg.
    pose proof (register_from_lookup _ _ _ _ _ _ _ _ Hreg i m Hm) as H.
    destruct (_can_register_hook self m); [done|]. exact H.
Qed.

Lemma hooks_registered_iff_eligible_witness :
  let st := fresh_state [linear_layer [[2; -1]]%Q [0]%Q; relu_layer] in
  model st !! 1 = Some relu_layer ∧
  (receives_hooks (default_engine, st) 1 ↔
     size (_backward_hooks relu_layer) = 0 ∧
     isinstance relu_layer (ignore_layers default_engine) = true) ∧
  (¬ receives_hooks (default_engine, st) 1 →
     model (register_all (default_engine, st)).2.2 !! 1 = Some relu_layer).
Proof.
  intros st. split; [reflexivity|].
  apply (hooks_registered_iff_eligible default_engine st 1 relu_layer). reflexivity.
Defined.

(** C2 as stated fails: with the default engine, a linear layer without
    any backward hook is outside the [ignore_layers] set and receives no
    hook, while the ReLU layer, inside the set, receives all three. *)
Lemma ignored_layers_are_the_hooked_ones :
  let lin := linear_layer [[2; -1]]%Q [0]%Q in
  let st := fresh_state [lin; relu_layer] in
  (size (_backward_hooks lin) = 0 ∧
   isinstance lin (ignore_layers default_engine) = false ∧
   ¬ receives_hooks (default_engine, st) 0) ∧
  (size (_backward_hooks relu_layer) = 0 ∧
   isinstance relu_layer (ignore_layers default_engine) = true ∧
   receives_hooks (default_engine, st) 1).
Proof.
  intros lin st. split.
  - split; [reflexivity|]. split; [reflexivity|].
    rewrite (receives_hooks_iff_can_register default_engine st 0 lin); [|reflexivity].
    vm_compute. discriminate.
  - split; [reflexivity|]. split; [reflexivity|].
    rewrite (receives_hooks_iff_can_register default_engine st 1 relu_layer); [|reflexivity].
    reflexivity.
Qed.


(** *** Elementwise operations on tensors of one shape *)

Lemma mapM_result_Ok {X Y} (f : X → result Y) (g : X → Y) (l : list X) :
  (∀ x, x ∈ l → f x = Ok (g x)) → mapM_result f l = Ok (map g l).
Proof.
  induction l as [|x l IH]; intros H; simpl; [done|].
  rewrite (H x); [|by left]. simpl.
  rewrite IH; [done|]. intros y Hy. apply H. by right.
Qed.

Lemma map_uncurry_zip {X Y Z} (g : X → Y → Z) (a : list X) (b : list Y) :
  map (λ p, g p.1 p.2) (zip a b) = zip_with g a b.
Proof.
  revert b. induction a as [|x a IH]; intros [|y b]; simpl; try done.
  by rewrite IH.
Qed.

Lemma bzip_same_length {X Y Z} (f : X → Y → result Z) (g : X → Y → Z)
    (a : list X) (b : list Y) :
  length a = length b →
  (∀ x y, (x, y) ∈ zip a b → f x y = Ok (g x y)) →
  bzip f a b = Ok (zip_with g a b).
Proof.
  intros Hlen H. unfold bzip. rewrite decide_True; [|done].
  rewrite (mapM_result_Ok _ (λ p, g p.1 p.2)).
  - by rewrite map_uncurry_zip.
  - intros [x y] Hxy. simpl. by apply H.
Qed.

Lemma ew1_same_length {X Y Z} (f : X → Y → Z) (a : list X) (b : list Y) :
  length a = length b → ew1 f a b = Ok (zip_with f a b).
Proof. intros Hlen. unfold ew1. by apply bzip_same_length. Qed.

Lemma rect_lookup {X} (r c : nat) (M : list (list X)) (i : nat) (row : list X) :
  rect r c M → M !! i = Some row → length row = c.
Proof. intros [_ H] Hi. by eapply Forall_lookup_1 in H. Qed.

Lemma ew2_rect {X Y Z} (f : X → Y → Z) (r c : nat)
    (A : list (list X)) (B : list (list Y)) :
  rect r c A → rect r c B → ew2 f A B = Ok (zip_with (zip_with f) A B).
Proof.
  intros HA HB. unfold ew2. apply bzip_same_length.
  - destruct HA, HB. lia.
  - intros x y Hxy. apply ew1_same_length.
    apply list_elem_of_lookup in Hxy as [i Hi].
    apply lookup_zip_with_Some in Hi as (x' & y' & Heq & Hx & Hy).
    injection Heq as <- <-.
    rewrite (rect_lookup _ _ _ _ _ HA Hx), (rect_lookup _ _ _ _ _ HB Hy). done.
Qed.

Lemma rect_zip_with {X Y Z} (f : X → Y → Z) (r c : nat)
    (A : list (list X)) (B : list (list Y)) :
  rect r c A → rect r c B → rect r c (zip_with (zip_with f) A B).
Proof.
  intros HA HB. split.
  - rewrite length_zip_with. destruct HA, HB. lia.
  - apply Forall_lookup_2. intros i row Hi.
    apply lookup_zip_with_Some in Hi as (x & y & -> & Hx & Hy).
    rewrite length_zip_with.
    rewrite (rect_lookup _ _ _ _ _ HA Hx), (rect_lookup _ _ _ _ _ HB Hy). lia.
Qed.

Lemma rect_map {X Y} (f : X → Y) (r c : nat) (A : list (list X)) :
  rect r c A → rect r c (map (map f) A).
Proof.
  intros [Hl HA]. split; [by rewrite length_map|].
  apply Forall_fmap. eapply Forall_impl; [exact HA|].
  intros row Hrow. simpl. by rewrite length_map.
Qed.

Lemma rect_app {X} (r1 r2 c : nat) (A B : list (list X)) :
  rect r1 c A → rect r2 c B → rect (r1 + r2) c (A ++ B).
Proof.
  intros [Hl1 H1] [Hl2 H2]. split; [rewrite length_app; lia|].
  by apply Forall_app.
Qed.

Lemma rect_take {X} (r c k : nat) (A : list (list X)) :
  rect r c A → k ≤ r → rect k c (take k A).
Proof.
  intros [Hl H] Hk. split; [rewrite length_take; lia|]. by apply Forall_take.
Qed.

Lemma rect_drop {X} (r c k : nat) (A : list (list X)) :
  rect r c A → rect (r - k) c (drop k A).
Proof.
  intros [Hl H]. split; [rewrite length_drop; lia|]. by apply Forall_drop.
Qed.

Lemma rect_row {X} (r c : nat) (A : list (list X)) (i : nat) :
  rect r c A → i < r → ∃ row, A !! i = Some row ∧ length row = c.
Proof.
  intros HA Hi. destruct HA as [Hl HA].
  destruct (lookup_lt_is_Some_2 A i) as [row Hrow]; [lia|].
  exists row. split; [done|]. by eapply Forall_lookup_1 in HA.
Qed.

Lemma rect_el2 {X} `{Inhabited X} (r c : nat) (A : list (list X)) (i j : nat) :
  rect r c A → i < r → j < c →
  ∃ row, A !! i = Some row ∧ row !! j = Some (el2 A i j).
Proof.
  intros HA Hi Hj. destruct (rect_row r c A i HA Hi) as (row & Hrow & Hlen).
  exists row. split; [done|].
  destruct (lookup_lt_is_Some_2 row j) as [v Hv]; [lia|].
  unfold el2. rewrite (list_lookup_total_correct _ _ _ Hrow).
  by rewrite (list_lookup_total_correct _ _ _ Hv).
Qed.

Lemma el2_intro {X} `{Inhabited X} (A : list (list X)) (i j : nat) row v :
  A !! i = Some row → row !! j = Some v → el2 A i j = v.
Proof.
  intros Hrow Hv. unfold el2. rewrite (list_lookup_total_correct _ _ _ Hrow).
  by rewrite (list_lookup_total_correct _ _ _ Hv).
Qed.

Lemma el2_zip_with {X Y Z} `{Inhabited X, Inhabited Y, Inhabited Z}
    (f : X → Y → Z) (r c : nat) (A : list (list X)) (B : list (list Y)) (i j : nat) :
  rect r c A → rect r c B → i < r → j < c →
  el2 (zip_with (zip_with f) A B) i j = f (el2 A i j) (el2 B i j).
Proof.
  intros HA HB Hi Hj.
  destruct (rect_el2 r c A i j HA Hi Hj) as (ra & Hra & Hva).
  destruct (rect_el2 r c B i j HB Hi Hj) as (rb & Hrb & Hvb).
  apply (el2_intro _ i j (zip_with f ra rb)).
  - by rewrite lookup_zip_with, Hra, Hrb.
  - by rewrite lookup_zip_with, Hva, Hvb.
Qed.

Lemma el2_map {X Y} `{Inhabited X, Inhabited Y}
    (f : X → Y) (r c : nat) (A : list (list X)) (i j : nat) :
  rect r c A → i < r → j < c → el2 (map (map f) A) i j = f (el2 A i j).
Proof.
  intros HA Hi Hj.
  destruct (rect_el2 r c A i j HA Hi Hj) as (ra & Hra & Hva).
  apply (el2_intro _ i j (map f ra)).
  - by rewrite list_lookup_fmap, Hra.
  - by rewrite list_lookup_fmap, Hva.
Qed.

Lemma el2_app_l {X} `{Inhabited X} (A B : list (list X)) (i j : nat) :
  i < length A → el2 (A ++ B) i j = el2 A i j.
Proof. intros Hi. unfold el2. by rewrite lookup_total_app_l. Qed.

Lemma el2_app_r {X} `{Inhabited X} (A B : list (list X)) (i j : nat) :
  length A ≤ i → el2 (A ++ B) i j = el2 B (i - length A) j.
Proof. intros Hi. unfold el2. by rewrite lookup_total_app_r. Qed.

Lemma el2_take {X} `{Inhabited X} (A : list (list X)) (k i j : nat) :
  i < k → el2 (take k A) i j = el2 A i j.
Proof. intros Hi. unfold el2. by rewrite lookup_total_take_lt. Qed.

Lemma el2_drop {X} `{Inhabited X} (A : list (list X)) (k i j : nat) :
  el2 (drop k A) i j = el2 A (k + i) j.
Proof. unfold el2. by rewrite lookup_total_drop. Qed.

Lemma chunk_even {X} (n : nat) (t : list X) :
  length t = n + n → chunk t = [take n t; drop n t].
Proof.
  intros Hlen. unfold chunk.
  destruct (decide (length t = 0)) as [H0|H0].
  - assert (n = 0) as -> by lia. destruct t; [done|discriminate].
  - assert (Hk : (length t + 1) / 2 = n).
    { rewrite Hlen. symmetry. apply (Nat.div_unique _ 2 n 1); lia. }
    rewrite Hk. rewrite decide_False; [done|lia].
Qed.


(** *** The rescale rule *)

Lemma Qltb_lt (a b : Q) : Qltb a b = true ↔ (a < b)%Q.
Proof.
  unfold Qltb. rewrite negb_true_iff. split.
  - intros H. apply Qnot_le_lt. intros Hle.
    apply Qle_bool_iff in Hle. congruence.
  - intros H. destruct (Qle_bool b a) eqn:E; [|done].
    apply Qle_bool_iff in E. exfalso. by apply (Qlt_not_le a b).
Qed.

Lemma Qltb_ge (a b : Q) : Qltb a b = false ↔ (b <= a)%Q.
Proof.
  unfold Qltb. rewrite negb_false_iff. apply Qle_bool_iff.
Qed.

Lemma rect_paired_delta (n F : nat) (t : Mat) :
  rect (n + n) F t → rect (n + n) F (paired_delta n t).
Proof.
  intros Ht. unfold paired_delta. apply rect_app; apply rect_zip_with.
  - apply (rect_take (n + n)); [done|lia].
  - replace n with (n + n - n) at 1 by lia. by apply rect_drop.
  - apply (rect_take (n + n)); [done|lia].
  - replace n with (n + n - n) at 1 by lia. by apply rect_drop.
Qed.

Lemma sub_chunks2_even (n F : nat) (t : Mat) :
  rect (n + n) F t →
  sub_chunks2 (chunk t) = Ok (zip_with (zip_with Qminus) (take n t) (drop n t)).
Proof.
  intros Ht. rewrite (chunk_even n); [|apply Ht]. simpl.
  apply (ew2_rect _ n F).
  - apply (rect_take (n + n)); [done|lia].
  - replace n with (n + n - n) at 1 by lia. by apply rect_drop.
Qed.

Lemma backward_hook_value (eps : Q) (m : nn_module) (n F : nat)
    (inp out gin gout : Mat) :
  input m = Some inp → output m = Some out →
  rect (n + n) F inp → rect (n + n) F out →
  rect (n + n) F gin → rect (n + n) F gout →
  _backward_hook eps m gin gout = Ok (rescaled eps n inp out gin gout).
Proof.
  intros Hin Hout Rinp Rout Rgin Rgout. unfold _backward_hook.
  rewrite Hin, Hout. simpl.
  rewrite (sub_chunks2_even n F inp Rinp). simpl.
  rewrite (sub_chunks2_even n F out Rout). simpl.
  fold (paired_delta n inp). fold (paired_delta n out).
  pose proof (rect_paired_delta n F inp Rinp) as Rdi.
  pose proof (rect_paired_delta n F out Rout) as Rdo.
  rewrite (ew2_rect Qdiv (n + n) F); [|done..]. simpl.
  rewrite (ew2_rect Qmult (n + n) F); [|done|by apply rect_zip_with]. simpl.
  unfold where_.
  rewrite (ew2_rect pair (n + n) F); [|done|by apply rect_zip_with; [|apply rect_zip_with]].
  simpl.
  rewrite (ew2_rect _ (n + n) F); [done|by apply rect_map|].
  apply rect_zip_with; [done|]. apply rect_zip_with; [done|]. by apply rect_zip_with.
Qed.

Lemma rect_rescaled (eps : Q) (n F : nat) (inp out gin gout : Mat) :
  rect (n + n) F inp → rect (n + n) F out →
  rect (n + n) F gin → rect (n + n) F gout →
  rect (n + n) F (rescaled eps n inp out gin gout).
Proof.
  intros Rinp Rout Rgin Rgout. unfold rescaled.
  pose proof (rect_paired_delta n F inp Rinp) as Rdi.
  pose proof (rect_paired_delta n F out Rout) as Rdo.
  apply rect_zip_with; [by apply rect_map|].
  apply rect_zip_with; [done|]. apply rect_zip_with; [done|]. by apply rect_zip_with.
Qed.

Lemma el2_paired_delta (n F : nat) (t : Mat) (i j : nat) :
  rect (n + n) F t → i < n + n → j < F →
  el2 (paired_delta n t) i j =
    (el2 t (i mod n) j - el2 t (n + i mod n) j)%Q.
Proof.
  intros Ht Hi Hj. unfold paired_delta.
  assert (Rt : rect n F (take n t)) by (apply (rect_take (n + n)); [done|lia]).
  assert (Rd : rect n F (drop n t)).
  { replace n with (n + n - n) at 1 by lia. by apply rect_drop. }
  assert (Hlen : length (zip_with (zip_with Qminus) (take n t) (drop n t)) = n).
  { apply (rect_zip_with Qminus n F); done. }
  assert (Hn : 0 < n) by lia.
  assert (Hmod : i mod n < n) by (apply Nat.mod_upper_bound; lia).
  assert (Hcase : el2 (zip_with (zip_with Qminus) (take n t) (drop n t)) (i mod n) j
                  = (el2 t (i mod n) j - el2 t (n + i mod n) j)%Q).
  { rewrite (el2_zip_with Qminus n F); [|done..].
    rewrite el2_take; [|done]. by rewrite el2_drop. }
  destruct (decide (i < n)) as [Hlt|Hge].
  - rewrite el2_app_l; [|lia]. rewrite <- Hcase. by rewrite Nat.mod_small.
  - rewrite el2_app_r; [|lia]. rewrite Hlen. rewrite <- Hcase.
    replace (i mod n) with (i - n); [done|].
    apply (Nat.mod_unique i n 1 (i - n)); lia.
Qed.

Lemma el2_rescaled (eps : Q) (n F : nat) (inp out gin gout : Mat) (i j : nat) :
  rect (n + n) F inp → rect (n + n) F out →
  rect (n + n) F gin → rect (n + n) F gout → i < n + n → j < F →
  el2 (rescaled eps n inp out gin gout) i j =
    if Qltb (Qabs (el2 (paired_delta n inp) i j)) eps then el2 gin i j
    else (el2 gout i j *
          (el2 (paired_delta n out) i j / el2 (paired_delta n inp) i j))%Q.
Proof.
  intros Rinp Rout Rgin Rgout Hi Hj. unfold rescaled.
  pose proof (rect_paired_delta n F inp Rinp) as Rdi.
  pose proof (rect_paired_delta n F out Rout) as Rdo.
  rewrite (el2_zip_with _ (n + n) F); [|by apply rect_map| |done..].
  2:{ apply rect_zip_with; [done|]. apply rect_zip_with; [done|]. by apply rect_zip_with. }
  rewrite (el2_map _ (n + n) F); [|done..].
  rewrite (el2_zip_with pair (n + n) F); [|done| |done..].
  2:{ apply rect_zip_with; [done|]. by apply rect_zip_with. }
  rewrite (el2_zip_with Qmult (n + n) F); [|done|by apply rect_zip_with|done..].
  rewrite (el2_zip_with Qdiv (n + n) F); [|done..].
  done.
Qed.

(** C4. In the backward hook of a module that captured an input and an
    output of [n] examples followed by their [n] baselines, with [din] the
    difference between the example-side and the baseline-side element of
    the captured input and [dout] the same for the captured output, the
    gradient the hook returns is the incoming gradient times [dout / din]
    at every element where [|din| >= eps], and the gradient the layer
    computed itself at every element where [|din| < eps]. *)
Theorem backward_hook_rescale_rule (eps : Q) (m : nn_module) (n F : nat)
    (inp out gin gout : Mat) :
  input m = Some inp → output m = Some out →
  rect (n + n) F inp → rect (n + n) F out →
  rect (n + n) F gin → rect (n + n) F gout →
  ∃ res : Mat,
    _backward_hook eps m gin gout = Ok res ∧
    rect (n + n) F res ∧
    ∀ i j, i < n + n → j < F →
      let din := (el2 inp (i mod n) j - el2 inp (n + i mod n) j)%Q in
      let dout := (el2 out (i mod n) j - el2 out (n + i mod n) j)%Q in
      ((eps <= Qabs din)%Q → el2 res i j = (el2 gout i j * (dout / din))%Q) ∧
      ((Qabs din < eps)%Q → el2 res i j = el2 gin i j).
Proof.
  intros Hin Hout Rinp Rout Rgin Rgout.
  exists (rescaled eps n inp out gin gout).
  split; [by apply (backward_hook_value eps m n F)|].
  split; [by apply rect_rescaled|].
  intros i j Hi Hj din dout.
  rewrite (el2_rescaled eps n F); [|done..].
  rewrite !(el2_paired_delta n F); [|done..].
  fold din. fold dout. split.
  - intros Hge. apply Qltb_ge in Hge. by rewrite Hge.
  - intros Hlt. apply Qltb_lt in Hlt. by rewrite Hlt.
Qed.

Lemma backward_hook_rescale_rule_witness :
  let inp : Mat := [[3; 1#2]; [-3; 1#2]]%Q in
  let out : Mat := [[3; 1#2]; [0; 1#2]]%Q in
  let gin : Mat := [[1; 1]; [0; 0]]%Q in
  let gout : Mat := [[1; 1]; [0; 0]]%Q in
  let m := mk_module [ReLU] (Pointwise relu relu') ∅ ∅ ∅ (Some inp) (Some out) in
  input m = Some inp ∧ output m = Some out ∧
  rect (1 + 1) 2 inp ∧ rect (1 + 1) 2 out ∧ rect (1 + 1) 2 gin ∧ rect (1 + 1) 2 gout ∧
  ∃ res : Mat,
    _backward_hook default_eps m gin gout = Ok res ∧
    rect (1 + 1) 2 res ∧
    ∀ i j, i < 1 + 1 → j < 2 →
      let din := (el2 inp (i mod 1) j - el2 inp (1 + i mod 1) j)%Q in
      let dout := (el2 out (i mod 1) j - el2 out (1 + i mod 1) j)%Q in
      ((default_eps <= Qabs din)%Q → el2 res i j = (el2 gout i j * (dout / din))%Q) ∧
      ((Qabs din < default_eps)%Q → el2 res i j = el2 gin i j).
Proof.
  intros inp out gin gout m.
  assert (R : ∀ t : Mat, length t = 2 → Forall (λ row : Vec, length row = 2) t →
                         rect (1 + 1) 2 t) by (intros t ? ?; by split).
  assert (Rinp : rect (1 + 1) 2 inp) by (apply R; [reflexivity|repeat constructor]).
  assert (Rout : rect (1 + 1) 2 out) by (apply R; [reflexivity|repeat constructor]).
  assert (Rgin : rect (1 + 1) 2 gin) by (apply R; [reflexivity|repeat constructor]).
  assert (Rgout : rect (1 + 1) 2 gout) by (apply R; [reflexivity|repeat constructor]).
  split; [reflexivity|]. split; [reflexivity|].
  split; [exact Rinp|]. split; [exact Rout|]. split; [exact Rgin|]. split; [exact Rgout|].
  exact (backward_hook_rescale_rule default_eps m 1 2 inp out gin gout
           eq_refl eq_refl Rinp Rout Rgin Rgout).
Defined.


(** *** Removing handles *)

Lemma get_set_table_eq (t : hook_table) (tbl : gmap nat hook) (m : nn_module) :
  get_table t (set_table t tbl m) = tbl.
Proof. by destruct t. Qed.

Lemma get_set_table_ne (t t' : hook_table) (tbl : gmap nat hook) (m : nn_module) :
  t ≠ t' → get_table t (set_table t' tbl m) = get_table t m.
Proof. by destruct t, t'. Qed.

#[global] Instance hook_table_eq_dec : EqDecision hook_table.
Proof. solve_decision. Defined.

Lemma hook_at_remove_same (h : handle) (st : state) : hook_at (remove h st) h = None.
Proof.
  unfold hook_at, remove. simpl. rewrite list_lookup_alter_eq.
  destruct (model st !! h_module h) as [m|]; simpl; [|done].
  rewrite get_set_table_eq. apply lookup_delete_eq.
Qed.

Lemma hook_at_remove_None (h h' : handle) (st : state) :
  hook_at st h = None → hook_at (remove h' st) h = None.
Proof.
  unfold hook_at, remove. simpl. intros H.
  destruct (decide (h_module h' = h_module h)) as [Heq|Hne].
  - rewrite Heq, list_lookup_alter_eq.
    destruct (model st !! h_module h) as [m|]; simpl in *; [|done].
    destruct (decide (h_table h = h_table h')) as [Ht|Ht].
    + rewrite Ht, get_set_table_eq. rewrite Ht in H.
      rewrite lookup_delete. case_decide; [done|exact H].
    + by rewrite get_set_table_ne.
  - by rewrite list_lookup_alter_ne.
Qed.

Lemma hook_at_foldl_remove_None (hs : list handle) : ∀ (st : state) (h : handle),
  hook_at st h = None → hook_at (foldl (λ st h, remove h st) st hs) h = None.
Proof.
  induction hs as [|h0 hs IH]; intros st h H; simpl; [done|].
  apply IH. by apply hook_at_remove_None.
Qed.

Lemma hook_at_foldl_remove (hs : list handle) : ∀ (st : state) (h : handle),
  h ∈ hs → hook_at (foldl (λ st h, remove h st) st hs) h = None.
Proof.
  induction hs as [|h0 hs IH]; intros st h Hin; simpl.
  - by apply elem_of_nil in Hin.
  - apply elem_of_cons in Hin as [->|Hin].
    + apply hook_at_foldl_remove_None, hook_at_remove_same.
    + by apply IH.
Qed.

Lemma attribute_finally_removes (self : DeepLiftShap) (st : state) (h : handle) :
  h ∈ forward_handles self ++ backward_handles self →
  hook_at (attribute_finally self st) h = None.
Proof.
  intros Hin. unfold attribute_finally. apply elem_of_app in Hin as [Hin|Hin].
  - apply hook_at_foldl_remove_None. by apply hook_at_foldl_remove.
  - by apply hook_at_foldl_remove.
Qed.

Lemma new_handles_subseteq (self self' : DeepLiftShap) (h : handle) :
  h ∈ new_handles self self' → h ∈ forward_handles self' ++ backward_handles self'.
Proof.
  unfold new_handles. intros Hin. apply elem_of_app.
  apply elem_of_app in Hin as [Hin|Hin]; [left|right];
    eapply subseteq_drop; exact Hin.
Qed.

Lemma new_handles_refl (self : DeepLiftShap) : new_handles self self = [].
Proof. unfold new_handles. by rewrite !drop_all. Qed.

(** *** The forward pass *)

Lemma elem_of_hooks_of (h : hook) (tbl : gmap nat hook) :
  h ∈ hooks_of tbl ↔ ∃ id, tbl !! id = Some h.
Proof.
  unfold hooks_of. rewrite list_elem_of_fmap. split.
  - intros [[id h'] [-> Hin]]. exists id. by apply elem_of_map_to_list.
  - intros [id Hid]. exists (id, h). split; [done|]. by apply elem_of_map_to_list.
Qed.

Lemma run_forward_pre_hooks_capture (m : nn_module) (x : Mat) :
  run_forward_pre_hooks m x = capture_input x m.
Proof.
  unfold run_forward_pre_hooks, capture_input, _forward_pre_hook.
  generalize (hooks_of (_forward_pre_hooks m)) as l. intros l.
  assert (Hgen : ∀ m0, (m0 = m ∨ m0 = set_input x m) →
    foldl (λ m h, match h with EngineForwardPreHook => set_input x m | _ => m end) m0 l
    = if existsb is_forward_pre_hook l then set_input x m else m0).
  { induction l as [|h l IH]; intros m0 Hm0; [done|].
    destruct h; cbn [foldl existsb is_forward_pre_hook orb]; try (by apply IH).
    rewrite IH; [|right; by destruct Hm0 as [->| ->]].
    destruct (existsb is_forward_pre_hook l); [done|].
    by destruct Hm0 as [->| ->]. }
  rewrite Hgen; [|by left]. done.
Qed.

Lemma run_forward_hooks_capture (m : nn_module) (y : Mat) :
  run_forward_hooks m y = capture_output y m.
Proof.
  unfold run_forward_hooks, capture_output, _forward_hook.
  generalize (hooks_of (_forward_hooks m)) as l. intros l.
  assert (Hgen : ∀ m0, (m0 = m ∨ m0 = set_output y m) →
    foldl (λ m h, match h with EngineForwardHook => set_output y m | _ => m end) m0 l
    = if existsb is_forward_hook l then set_output y m else m0).
  { induction l as [|h l IH]; intros m0 Hm0; [done|].
    destruct h; cbn [foldl existsb is_forward_hook orb]; try (by apply IH).
    rewrite IH; [|right; by destruct Hm0 as [->| ->]].
    destruct (existsb is_forward_hook l); [done|].
    by destruct Hm0 as [->| ->]. }
  rewrite Hgen; [|by left]. done.
Qed.

Lemma call_module_spec (m : nn_module) (x : Mat) :
  call_module m x =
    match mapM_result (op_forward (op m)) x with
    | Raise e => (capture_input x m, Raise e)
    | Ok y => (capture_output y (capture_input x m), Ok y)
    end.
Proof.
  unfold call_module. rewrite run_forward_pre_hooks_capture.
  destruct (mapM_result (op_forward (op m)) x); [|done].
  by rewrite run_forward_hooks_capture.
Qed.

Lemma capture_input_static (x : Mat) (m : nn_module) :
  mro (capture_input x m) = mro m ∧ op (capture_input x m) = op m ∧
  _forward_hooks (capture_input x m) = _forward_hooks m ∧
  _forward_pre_hooks (capture_input x m) = _forward_pre_hooks m ∧
  _backward_hooks (capture_input x m) = _backward_hooks m ∧
  output (capture_input x m) = output m.
Proof. unfold capture_input. by destruct (existsb _ _). Qed.

Lemma capture_output_static (y : Mat) (m : nn_module) :
  mro (capture_output y m) = mro m ∧ op (capture_output y m) = op m ∧
  _forward_hooks (capture_output y m) = _forward_hooks m ∧
  _forward_pre_hooks (capture_output y m) = _forward_pre_hooks m ∧
  _backward_hooks (capture_output y m) = _backward_hooks m ∧
  input (capture_output y m) = input m.
Proof. unfold capture_output. by destruct (existsb _ _). Qed.

(** The output of the forward pass is that of the layers alone. *)
Lemma forward_result (ms : list nn_module) : ∀ (x : Mat),
  (forward ms x).2 = chain_rows (map op ms) x.
Proof.
  induction ms as [|m ms IH]; intros x; simpl; [done|].
  rewrite call_module_spec.
  destruct (mapM_result (op_forward (op m)) x) as [y|e]; simpl; [|done].
  rewrite <- IH. by destruct (forward ms y) as [[? ?] ?].
Qed.


(** Whatever the outcome, a forward pass changes nothing of a module but
    its captured input and output. *)
Lemma forward_static (ms : list nn_module) : ∀ (x : Mat),
  Forall2 (λ m m', mro m' = mro m ∧ op m' = op m ∧
                   _forward_hooks m' = _forward_hooks m ∧
                   _forward_pre_hooks m' = _forward_pre_hooks m ∧
                   _backward_hooks m' = _backward_hooks m)
          ms (forward ms x).1.1.
Proof.
  induction ms as [|m ms IH]; intros x; simpl; [constructor|].
  rewrite call_module_spec.
  destruct (mapM_result (op_forward (op m)) x) as [y|e]; simpl.
  - specialize (IH y). destruct (forward ms y) as [[rest' tape'] r]. simpl in *.
    constructor; [|done].
    destruct (capture_input_static x m) as (H1 & H2 & H3 & H4 & H5 & _).
    destruct (capture_output_static y (capture_input x m)) as (G1 & G2 & G3 & G4 & G5 & _).
    repeat split; congruence.
  - constructor.
    + destruct (capture_input_static x m) as (H1 & H2 & H3 & H4 & H5 & _). done.
    + apply Forall2_same_length_lookup_2; [done|]. intros i a b Ha Hb.
      assert (a = b) as -> by congruence. done.
Qed.


(** *** The shape of a call *)

Lemma gradient_pass_unfold (inputs baselines : Tensor3) (self : DeepLiftShap)
    (st : state) :
  gradient_pass inputs baselines (self, st) =
    let '(ms1, fh, bh, id1) := register_from self 0 (next_id st) (model st) in
    let self1 := add_handles self fh bh in
    let '(ms2, tape, outputs) :=
      forward ms1 (map flatten_example (inputs ++ baselines)) in
    let st2 := mk_state ms2 id1 (warnings st) (stdout st) in
    match outputs with
    | Raise e => (Raise e, (self1, st2))
    | Ok outputs =>
        match backward ms2 tape (grad_of_first_chunk_sum outputs) with
        | Raise e => (Raise e, (self1, st2))
        | Ok g =>
            (Ok (outputs, zip_with unflatten inputs (take (length inputs) g)),
             (self1, st2))
        end
    end.
Proof.
  unfold gradient_pass. rewrite register_all_from.
  destruct (register_from self 0 (next_id st) (model st)) as [[[ms1 fh] bh] id1].
  simpl. destruct (forward ms1 _) as [[ms2 tape] outputs]. done.
Qed.

Lemma attribute_success_inv (inputs baselines : Tensor3) (self : DeepLiftShap)
    (st : state) (g : Tensor3) (c' : ctx) :
  attribute inputs baselines (self, st) = (Ok g, c') →
  ∃ ms1 fh bh id1 ms2 tape outputs gflat deltas,
    shape3 inputs = shape3 baselines ∧
    register_from self 0 (next_id st) (model st) = (ms1, fh, bh, id1) ∧
    forward ms1 (map flatten_example (inputs ++ baselines)) = (ms2, tape, Ok outputs) ∧
    backward ms2 tape (grad_of_first_chunk_sum outputs) = Ok gflat ∧
    g = zip_with unflatten inputs (take (length inputs) gflat) ∧
    gradient_pass inputs baselines (self, st) =
      (Ok (outputs, g), (add_handles self fh bh,
                         mk_state ms2 id1 (warnings st) (stdout st))) ∧
    convergence_deltas outputs inputs baselines g = Ok deltas ∧
    c' = (add_handles self fh bh,
          attribute_finally (add_handles self fh bh)
            (report (add_handles self fh bh) deltas
                    (mk_state ms2 id1 (warnings st) (stdout st)))).
Proof.
  unfold attribute. case_bool_decide as Hshape; [|discriminate].
  unfold attribute_try. rewrite gradient_pass_unfold.
  destruct (register_from self 0 (next_id st) (model st)) as [[[ms1 fh] bh] id1] eqn:Hreg.
  simpl.
  destruct (forward ms1 _) as [[ms2 tape] [outputs|e]] eqn:Hfwd; [|discriminate].
  destruct (backward ms2 tape _) as [gflat|e] eqn:Hbwd; [|discriminate].
  destruct (convergence_deltas outputs inputs baselines _) as [deltas|e] eqn:Hd;
    [|discriminate].
  intros H. injection H as <- <-.
  exists ms1, fh, bh, id1, ms2, tape, outputs, gflat, deltas.
  repeat split; done.
Qed.

Lemma remove_frame (h : handle) (st : state) :
  map frame (model (remove h st)) = map frame (model st) ∧
  next_id (remove h st) = next_id st ∧
  warnings (remove h st) = warnings st ∧ stdout (remove h st) = stdout st.
Proof.
  split; [|done]. unfold remove. simpl.
  apply list_eq. intros i. rewrite !list_lookup_fmap.
  destruct (decide (h_module h = i)) as [<-|Hne].
  - rewrite list_lookup_alter_eq. destruct (model st !! h_module h) as [m|]; [|done].
    simpl. by destruct (h_table h).
  - by rewrite list_lookup_alter_ne.
Qed.

Lemma foldl_remove_frame (hs : list handle) : ∀ st : state,
  map frame (model (foldl (λ st h, remove h st) st hs)) = map frame (model st) ∧
  next_id (foldl (λ st h, remove h st) st hs) = next_id st ∧
  warnings (foldl (λ st h, remove h st) st hs) = warnings st ∧
  stdout (foldl (λ st h, remove h st) st hs) = stdout st.
Proof.
  induction hs as [|h hs IH]; intros st; simpl; [done|].
  destruct (IH (remove h st)) as (H1 & H2 & H3 & H4).
  destruct (remove_frame h st) as (G1 & G2 & G3 & G4).
  repeat split; congruence.
Qed.

Lemma attribute_finally_frame (self : DeepLiftShap) (st : state) :
  map frame (model (attribute_finally self st)) = map frame (model st) ∧
  next_id (attribute_finally self st) = next_id st ∧
  warnings (attribute_finally self st) = warnings st ∧
  stdout (attribute_finally self st) = stdout st.
Proof.
  unfold attribute_finally.
  destruct (foldl_remove_frame (backward_handles self)
              (foldl (λ st h, remove h st) st (forward_handles self)))
    as (H1 & H2 & H3 & H4).
  destruct (foldl_remove_frame (forward_handles self) st) as (G1 & G2 & G3 & G4).
  repeat split; congruence.
Qed.

Lemma report_model (self : DeepLiftShap) (deltas : Vec) (st : state) :
  model (report self deltas st) = model st ∧
  next_id (report self deltas st) = next_id st.
Proof.
  unfold report. destruct (existsb _ deltas), (verbose self); done.
Qed.

Lemma existsb_hooks_of_insert (p : hook → bool) (tbl : gmap nat hook) (id : nat)
    (h : hook) :
  p h = true → existsb p (hooks_of (<[id := h]> tbl)) = true.
Proof.
  intros Hp. apply existsb_exists. exists h. split; [|done].
  apply list_elem_of_In, elem_of_hooks_of. exists id. apply lookup_insert_eq.
Qed.





Lemma register_from_static (self : DeepLiftShap) (ms : list nn_module) :
  ∀ i id ms' fh bh id', register_from self i id ms = (ms', fh, bh, id') →
  map op ms' = map op ms ∧ map mro ms' = map mro ms.
Proof.
  induction ms as [|m ms IH]; intros i id ms' fh bh id' H; cbn [register_from] in H.
  - by injection H as <- <- <- <-.
  - destruct (_can_register_hook self m).
    + destruct (register_from self (S i) (S (S (S id))) ms) as [[[r f] b] n] eqn:E.
      injection H as <- <- <- <-. destruct (IH _ _ _ _ _ _ E) as [H1 H2].
      simpl. by rewrite H1, H2.
    + destruct (register_from self (S i) id ms) as [[[r f] b] n] eqn:E.
      injection H as <- <- <- <-. destruct (IH _ _ _ _ _ _ E) as [H1 H2].
      simpl. by rewrite H1, H2.
Qed.








(** *** The convergence check *)

Lemma existsb_Qltb (thr : Q) (deltas : Vec) :
  existsb (λ d, Qltb thr d) deltas = true ↔ Exists (λ d, (thr < d)%Q) deltas.
Proof.
  rewrite existsb_exists, Exists_exists. split.
  - intros (d & Hin & Hd). exists d. split; [by apply list_elem_of_In|].
    by apply Qltb_lt.
  - intros (d & Hin & Hd). exists d. split; [by apply list_elem_of_In|].
    by apply Qltb_lt.
Qed.

Lemma attribute_of_gradient_pass (inputs baselines : Tensor3) (self : DeepLiftShap)
    (st : state) (outputs : Mat) (g : Tensor3) (c1 : ctx) (deltas : Vec) :
  shape3 inputs = shape3 baselines →
  gradient_pass inputs baselines (self, st) = (Ok (outputs, g), c1) →
  convergence_deltas outputs inputs baselines g = Ok deltas →
  attribute inputs baselines (self, st) =
    (Ok g, (c1.1, attribute_finally c1.1 (report c1.1 deltas c1.2))) ∧
  warning_threshold c1.1 = warning_threshold self ∧ verbose c1.1 = verbose self ∧
  warnings c1.2 = warnings st ∧ stdout c1.2 = stdout st.
Proof.
  intros Hshape Hgp Hd. split.
  - unfold attribute. rewrite bool_decide_eq_true_2; [|done].
    unfold attribute_try. rewrite Hgp. destruct c1 as [self1 st1].
    rewrite Hd. done.
  - rewrite gradient_pass_unfold in Hgp.
    destruct (register_from self 0 (next_id st) (model st)) as [[[ms1 fh] bh] id1].
    simpl in Hgp.
    destruct (forward ms1 _) as [[ms2 tape] [o|e]]; [|discriminate].
    destruct (backward ms2 tape _) as [gflat|e]; [|discriminate].
    injection Hgp as _ _ <-. done.
Qed.

(** C7. When the gradients and the convergence deltas of a call have been
    computed, [attribute] returns the gradients whatever the deltas are.
    If some delta exceeds [warning_threshold], the deltas are passed to
    [warnings.warn]; if none does, nothing is; and with the verbose flag
    the deltas are printed in either case. *)
Theorem convergence_warning_is_not_fatal (inputs baselines : Tensor3)
    (self : DeepLiftShap) (st : state) (outputs : Mat) (g : Tensor3) (c1 : ctx)
    (deltas : Vec) :
  shape3 inputs = shape3 baselines →
  gradient_pass inputs baselines (self, st) = (Ok (outputs, g), c1) →
  convergence_deltas outputs inputs baselines g = Ok deltas →
  let res := attribute inputs baselines (self, st) in
  res.1 = Ok g ∧
  (Exists (λ d, (warning_threshold self < d)%Q) deltas →
     warnings res.2.2 = warnings st ++ [deltas]) ∧
  (Forall (λ d, (d <= warning_threshold self)%Q) deltas →
     warnings res.2.2 = warnings st) ∧
  (verbose self = true → stdout res.2.2 = stdout st ++ [deltas]) ∧
  (verbose self = false → stdout res.2.2 = stdout st).
Proof.
  intros Hshape Hgp Hd res.
  destruct (attribute_of_gradient_pass _ _ _ _ _ _ _ _ Hshape Hgp Hd)
    as (Hattr & Hthr & Hv & Hw & Hs).
  unfold res. rewrite Hattr. simpl.
  destruct (attribute_finally_frame c1.1 (report c1.1 deltas c1.2)) as (_ & _ & Fw & Fs).
  rewrite Fw, Fs. unfold report. rewrite Hthr, Hv.
  split; [done|]. split; [|split; [|split]].
  - intros Hex. apply existsb_Qltb in Hex. rewrite Hex.
    destruct (verbose self); simpl; by rewrite Hw.
  - intros Hall.
    assert (Hno : existsb (λ d, Qltb (warning_threshold self) d) deltas = false).
    { apply not_true_is_false. intros Hex. apply existsb_Qltb in Hex.
      apply Exists_exists in Hex as (d & Hin & Hd').
      apply Forall_forall with (x := d) in Hall; [|done].
      by apply (Qlt_not_le _ _ Hd'). }
    rewrite Hno. destruct (verbose self); simpl; by rewrite Hw.
  - intros ->. destruct (existsb _ deltas); simpl; by rewrite Hs.
  - intros ->. destruct (existsb _ deltas); simpl; by rewrite Hs.
Qed.


Lemma convergence_warning_is_not_fatal_witness :
  let st := fresh_state [relu6_layer] in
  let x : Tensor3 := [[[3]]]%Q in
  let b : Tensor3 := [[[-3]]]%Q in
  let outputs : Mat := [[3]; [0]]%Q in
  let g : Tensor3 := [[[1]]]%Q in
  let deltas : Vec := [3]%Q in
  let c1 := (gradient_pass x b (default_engine, st)).2 in
  let res := attribute x b (default_engine, st) in
  shape3 x = shape3 b ∧
  gradient_pass x b (default_engine, st) = (Ok (outputs, g), c1) ∧
  convergence_deltas outputs x b g = Ok deltas ∧
  res.1 = Ok g ∧
  (Exists (λ d, (warning_threshold default_engine < d)%Q) deltas →
     warnings res.2.2 = warnings st ++ [deltas]) ∧
  (Forall (λ d, (d <= warning_threshold default_engine)%Q) deltas →
     warnings res.2.2 = warnings st) ∧
  (verbose default_engine = true → stdout res.2.2 = stdout st ++ [deltas]) ∧
  (verbose default_engine = false → stdout res.2.2 = stdout st).
Proof.
  intros st x b outputs g deltas c1 res.
  assert (H1 : shape3 x = shape3 b) by reflexivity.
  assert (H2 : gradient_pass x b (default_engine, st) = (Ok (outputs, g), c1))
    by (by vm_compute).
  assert (H3 : convergence_deltas outputs x b g = Ok deltas) by (by vm_compute).
  split; [exact H1|]. split; [exact H2|]. split; [exact H3|].
  exact (convergence_warning_is_not_fatal x b default_engine st outputs g c1 deltas
           H1 H2 H3).
Defined.


(** *** Shapes along the backward pass *)

Lemma same_shape2_iff (a b : Mat) :
  same_shape2 a b = true ↔ map length a = map length b.
Proof. unfold same_shape2. apply bool_decide_eq_true. Qed.

Lemma mapM_result_length {X Y} (f : X → result Y) (l : list X) (l' : list Y) :
  mapM_result f l = Ok l' → length l' = length l.
Proof.
  revert l'. induction l as [|x l IH]; intros l' H; simpl in H.
  - by injection H as <-.
  - destruct (f x); [|done]. simpl in H.
    destruct (mapM_result f l); [|done]. simpl in H.
    injection H as <-. simpl. f_equal. by apply IH.
Qed.

Lemma mapM_result_lookup {X Y} (f : X → result Y) (l : list X) (l' : list Y) :
  mapM_result f l = Ok l' →
  ∀ i x, l !! i = Some x → ∃ y, l' !! i = Some y ∧ f x = Ok y.
Proof.
  revert l'. induction l as [|x0 l IH]; intros l' H i x Hi; [done|].
  simpl in H. destruct (f x0) as [y0|] eqn:Hf; [|done]. simpl in H.
  destruct (mapM_result f l) as [ys|] eqn:Hm; [|done]. simpl in H.
  injection H as <-. destruct i as [|i]; simpl in *.
  - injection Hi as <-. by exists y0.
  - by apply (IH ys).
Qed.

Lemma foldl_zip_with_length (rows : Mat) : ∀ (acc : Vec) (n : nat),
  length acc = n → Forall (λ r : Vec, length r = n) rows →
  length (foldl (zip_with Qplus) acc rows) = n.
Proof.
  induction rows as [|r rows IH]; intros acc n Hacc Hrows; simpl; [done|].
  inversion Hrows; subst. apply IH; [|done].
  rewrite length_zip_with. lia.
Qed.

Lemma op_backward_length (o : layer_op) (x y g : Vec) :
  op_forward o x = Ok y → length g = length y →
  length (op_backward o x g) = length x.
Proof.
  destruct o as [W b|f f']; simpl.
  - case_decide as Hdec; [|done]. intros H Hg. injection H as <-.
    destruct Hdec as [HW Hb].
    apply foldl_zip_with_length; [by rewrite length_map|].
    apply Forall_lookup_2. intros i r Hi.
    apply lookup_zip_with_Some in Hi as (gc & w & -> & _ & Hw).
    rewrite length_map. by eapply Forall_lookup_1 in HW.
  - intros H Hg. injection H as <-. rewrite length_map in Hg.
    rewrite length_zip_with. lia.
Qed.

Lemma native_gradient_shape (o : layer_op) (x y g : Mat) :
  mapM_result (op_forward o) x = Ok y → map length g = map length y →
  map length (zip_with (op_backward o) x g) = map length x.
Proof.
  intros Hf Hg. apply list_eq. intros i. rewrite !list_lookup_fmap.
  pose proof (mapM_result_length _ _ _ Hf) as Hlen.
  assert (Hlg : length g = length y).
  { apply (f_equal length) in Hg. by rewrite !length_map in Hg. }
  rewrite lookup_zip_with.
  destruct (x !! i) as [xi|] eqn:Hx; simpl; [|done].
  destruct (mapM_result_lookup _ _ _ Hf i xi Hx) as (yi & Hy & Hop).
  destruct (g !! i) as [gi|] eqn:Hgi; simpl.
  - f_equal. apply (op_backward_length o xi yi gi Hop).
    assert (H : map length g !! i = map length y !! i) by (by rewrite Hg).
    rewrite !list_lookup_fmap, Hgi, Hy in H. simpl in H. congruence.
  - apply lookup_ge_None in Hgi. apply lookup_lt_Some in Hy. lia.
Qed.

Lemma run_backward_hooks_shape (m : nn_module) (gi go r : Mat) :
  run_backward_hooks m gi go = Ok r → map length r = map length gi.
Proof.
  unfold run_backward_hooks.
  generalize (hooks_of (_backward_hooks m)) as l. intros l.
  assert (Hgen : ∀ (acc : result Mat),
    (∀ a, acc = Ok a → map length a = map length gi) →
    foldl (λ (acc : result Mat) (h : hook),
             res ← acc;
             match h with
             | EngineBackwardHook eps =>
                 r ← _backward_hook eps m res go;
                 if same_shape2 r res then Ok r else Raise RuntimeError
             | _ => Ok res
             end) acc l = Ok r → map length r = map length gi).
  { induction l as [|h l IH]; intros acc Hacc H; simpl in H; [by apply Hacc|].
    apply IH in H; [done|]. intros a Ha.
    destruct acc as [res|e]; [|done]. simpl in Ha.
    destruct h as [| |e0|t]; try (injection Ha as <-; by apply Hacc).
    destruct (_backward_hook e0 m res go) as [r'|]; [|done]. simpl in Ha.
    destruct (same_shape2 r' res) eqn:Hs; [|done]. injection Ha as <-.
    apply same_shape2_iff in Hs. rewrite Hs. by apply Hacc. }
  apply Hgen. intros a Ha. by injection Ha as <-.
Qed.

Lemma backward_shape (ms : list nn_module) : ∀ (x : Mat) ms' tape y g gin,
  forward ms x = (ms', tape, Ok y) → map length g = map length y →
  backward ms' tape g = Ok gin → map length gin = map length x.
Proof.
  induction ms as [|m ms IH]; intros x ms' tape y g gin Hf Hg Hb; simpl in Hf.
  - injection Hf as <- <- <-. simpl in Hb. injection Hb as <-. done.
  - rewrite call_module_spec in Hf.
    destruct (mapM_result (op_forward (op m)) x) as [y1|e] eqn:Hop; [|done].
    destruct (forward ms y1) as [[rest' tape'] r] eqn:Hrec.
    injection Hf as <- <- ->. simpl in Hb.
    destruct (backward rest' tape' g) as [g'|] eqn:Hb'; [|done]. simpl in Hb.
    pose proof (IH _ _ _ _ _ _ Hrec Hg Hb') as Hg'.
    unfold module_backward in Hb. apply run_backward_hooks_shape in Hb.
    rewrite Hb.
    destruct (capture_input_static x m) as (_ & H2 & _).
    destruct (capture_output_static y1 (capture_input x m)) as (_ & G2 & _).
    rewrite G2, H2. by apply (native_gradient_shape (op m) x y1 g').
Qed.

Lemma grad_of_first_chunk_sum_shape (outputs : Mat) :
  map length (grad_of_first_chunk_sum outputs) = map length outputs.
Proof.
  unfold grad_of_first_chunk_sum. apply list_eq. intros i.
  rewrite !list_lookup_fmap, list_lookup_imap.
  destruct (outputs !! i); simpl; [|done]. by rewrite length_map.
Qed.

Lemma chain_rows_lookup (ops : list layer_op) : ∀ (X Y : Mat),
  chain_rows ops X = Ok Y →
  length Y = length X ∧
  ∀ k xk, X !! k = Some xk → ∃ yk, Y !! k = Some yk ∧ chain ops xk = Ok yk.
Proof.
  induction ops as [|o ops IH]; intros X Y H; simpl in H.
  - injection H as <-. split; [done|]. intros k xk Hk. by exists xk.
  - destruct (mapM_result (op_forward o) X) as [Y1|] eqn:Hm; [|done]. simpl in H.
    destruct (IH _ _ H) as [Hlen Hall].
    split; [rewrite Hlen; by apply mapM_result_length in Hm|].
    intros k xk Hk.
    destruct (mapM_result_lookup _ _ _ Hm k xk Hk) as (y1 & Hy1 & Hop).
    destruct (Hall k y1 Hy1) as (yk & Hyk & Hch).
    exists yk. split; [done|]. simpl. by rewrite Hop.
Qed.

Lemma unflatten_rect (A L : nat) (e : Mat) : ∀ (v : Vec),
  rect A L e → length v = length (concat e) →
  rect A L (unflatten e v) ∧ concat (unflatten e v) = v.
Proof.
  revert A. induction e as [|r e IH]; intros A v [Hl Hrows] Hv; simpl in *.
  - split; [by split|]. by destruct v.
  - inversion Hrows as [|? ? Hr Hrows']; subst.
    rewrite length_app in Hv.
    destruct (IH (length e) (drop (length r) v)) as [[Hl' Hr'] Hc'].
    { by split. }
    { rewrite length_drop. lia. }
    split.
    + split; [simpl; by rewrite Hl'|].
      constructor; [rewrite length_take; lia|done].
    + rewrite Hc'. apply take_drop.
Qed.


(** *** The convergence deltas, example by example *)

Lemma regular3_rect (n A L : nat) (t : Tensor3) (i : nat) (e : Mat) :
  regular3 n A L t → t !! i = Some e → rect A L e.
Proof. intros [_ H] Hi. by eapply Forall_lookup_1 in H. Qed.

Lemma ew3_regular (f : Q → Q → Q) (n A L : nat) (a b : Tensor3) :
  regular3 n A L a → regular3 n A L b →
  bzip (ew2 f) a b = Ok (zip_with (zip_with (zip_with f)) a b) ∧
  regular3 n A L (zip_with (zip_with (zip_with f)) a b).
Proof.
  intros Ha Hb. split.
  - apply bzip_same_length; [destruct Ha, Hb; lia|].
    intros x y Hxy. apply list_elem_of_lookup in Hxy as [i Hi].
    apply lookup_zip_with_Some in Hi as (x' & y' & Heq & Hx & Hy).
    injection Heq as <- <-.
    apply (ew2_rect f A L); [by apply (regular3_rect n A L a i)|
                              by apply (regular3_rect n A L b i)].
  - split; [rewrite length_zip_with; destruct Ha, Hb; lia|].
    apply Forall_lookup_2. intros i e Hi.
    apply lookup_zip_with_Some in Hi as (x & y & -> & Hx & Hy).
    apply (rect_zip_with f A L); [by apply (regular3_rect n A L a i)|
                                   by apply (regular3_rect n A L b i)].
Qed.

Lemma column0_value (outputs : Mat) :
  Forall (λ row : Vec, row ≠ []) outputs →
  mapM_result (λ row : Vec, or_raise IndexError (row !! 0)) outputs =
    Ok (map (λ row : Vec, row !!! 0) outputs).
Proof.
  intros Hrows. apply mapM_result_Ok. intros row Hin.
  apply Forall_forall with (x := row) in Hrows; [|done].
  destruct row as [|v row]; [done|]. done.
Qed.

Lemma convergence_deltas_value (n A L : nat) (outputs : Mat)
    (inputs baselines g : Tensor3) :
  regular3 n A L inputs → regular3 n A L baselines → regular3 n A L g →
  length outputs = n + n → Forall (λ row : Vec, row ≠ []) outputs →
  convergence_deltas outputs inputs baselines g =
    Ok (expected_deltas n outputs inputs baselines g).
Proof.
  intros Hi Hb Hg Hlen Hrows. unfold convergence_deltas.
  rewrite (column0_value outputs Hrows). simpl.
  rewrite (chunk_even n); [|by rewrite length_map]. simpl.
  rewrite ew1_same_length; [|rewrite length_take, length_drop, length_map; lia].
  simpl.
  destruct (ew3_regular Qminus n A L inputs baselines Hi Hb) as [-> Hd]. simpl.
  destruct (ew3_regular Qmult n A L _ g Hd Hg) as [-> Hp]. simpl.
  rewrite ew1_same_length.
  2:{ rewrite length_zip_with, length_take, length_drop, !length_map.
      destruct Hp as [-> _]. lia. }
  simpl. f_equal. unfold expected_deltas.
  apply list_eq. intros i. rewrite !list_lookup_fmap, lookup_zip_with.
  rewrite lookup_zip_with, lookup_take, lookup_drop, !list_lookup_fmap.
  rewrite !lookup_zip_with.
  destruct (decide (i < n)) as [Hin|Hin].
  - rewrite lookup_seq_lt; [|done]. simpl.
    destruct (lookup_lt_is_Some_2 outputs i) as [r1 Hr1]; [lia|].
    destruct (lookup_lt_is_Some_2 outputs (n + i)) as [r2 Hr2]; [lia|].
    destruct (lookup_lt_is_Some_2 inputs i) as [x Hx]; [destruct Hi; lia|].
    destruct (lookup_lt_is_Some_2 baselines i) as [b Hbi]; [destruct Hb; lia|].
    destruct (lookup_lt_is_Some_2 g i) as [gi Hgi]; [destruct Hg; lia|].
    rewrite Hr1, Hr2, Hx, Hbi, Hgi. simpl.
    unfold el2, attribution_sum.
    rewrite (list_lookup_total_correct _ _ _ Hr1), (list_lookup_total_correct _ _ _ Hr2).
    rewrite (list_lookup_total_correct _ _ _ Hx), (list_lookup_total_correct _ _ _ Hbi).
    rewrite (list_lookup_total_correct _ _ _ Hgi). done.
  - rewrite lookup_seq_ge; [|lia]. done.
Qed.


(** *** Conservation *)

Lemma gradients_regular (n A L : nat) (inputs : Tensor3) (gflat : Mat) :
  regular3 n A L inputs →
  map length (take n gflat) = map length (map flatten_example inputs) →
  regular3 n A L (zip_with unflatten inputs (take n gflat)) ∧
  ∀ i x gi, inputs !! i = Some x →
    zip_with unflatten inputs (take n gflat) !! i = Some gi →
    ∃ v, gflat !! i = Some v ∧ gi = unflatten x v ∧ concat gi = v ∧ rect A L gi.
Proof.
  intros Hi Hshape.
  assert (Hlen : length (take n gflat) = n).
  { apply (f_equal length) in Hshape. rewrite !length_map in Hshape.
    destruct Hi as [Hn _]. congruence. }
  assert (Hrow : ∀ i x v, inputs !! i = Some x → take n gflat !! i = Some v →
                          length v = length (concat x)).
  { intros i x v Hx Hv.
    assert (H : map length (take n gflat) !! i
                = map length (map flatten_example inputs) !! i) by (by rewrite Hshape).
    rewrite !list_lookup_fmap, Hx, Hv in H. simpl in H. by injection H. }
  split.
  - split; [rewrite length_zip_with; destruct Hi; lia|].
    apply Forall_lookup_2. intros i gi Hgi.
    apply lookup_zip_with_Some in Hgi as (x & v & -> & Hx & Hv).
    apply (unflatten_rect A L x v); [by apply (regular3_rect n A L inputs i)|].
    by apply (Hrow i).
  - intros i x gi Hx Hgi.
    apply lookup_zip_with_Some in Hgi as (x' & v & -> & Hx' & Hv).
    assert (x' = x) as -> by congruence.
    destruct (unflatten_rect A L x v) as [Hr Hc];
      [by apply (regular3_rect n A L inputs i)|by apply (Hrow i)|].
    exists v. split; [apply lookup_take_Some in Hv; by destruct Hv|].
    split; [done|]. split; [done|]. exact Hr.
Qed.

Lemma convergence_deltas_rows (outputs : Mat) (inputs baselines g : Tensor3)
    (deltas : Vec) :
  convergence_deltas outputs inputs baselines g = Ok deltas →
  Forall (λ row : Vec, row ≠ []) outputs.
Proof.
  unfold convergence_deltas. intros H.
  destruct (mapM_result _ outputs) as [col|] eqn:Hcol; [|done].
  apply Forall_lookup_2. intros i row Hrow.
  destruct (mapM_result_lookup _ _ _ Hcol i row Hrow) as (y & _ & Hy).
  by destruct row.
Qed.

(** What a call that returned has computed. *)
Lemma attribute_gap (n A L : nat) (inputs baselines : Tensor3)
    (self : DeepLiftShap) (st : state) (g : Tensor3) (c' : ctx) :
  regular3 n A L inputs → regular3 n A L baselines →
  attribute inputs baselines (self, st) = (Ok g, c') →
  ∃ (outputs : Mat) (deltas : Vec),
    regular3 n A L g ∧
    deltas = expected_deltas n outputs inputs baselines g ∧
    warnings c'.2 =
      warnings st ++
        (if existsb (λ d, Qltb (warning_threshold self) d) deltas
         then [deltas] else []) ∧
    ∀ i x b gi, inputs !! i = Some x → baselines !! i = Some b →
                g !! i = Some gi →
      deltas !! i = Some (Qabs ((el2 outputs i 0 - el2 outputs (n + i) 0) -
                                attribution_sum x b gi)%Q) ∧
      conservation_gap (model st) x b gi =
        Ok (Qabs ((el2 outputs i 0 - el2 outputs (n + i) 0) -
                  attribution_sum x b gi)%Q).
Proof.
  intros Hi Hb Hattr.
  destruct (attribute_success_inv _ _ _ _ _ _ Hattr)
    as (ms1 & fh & bh & id1 & ms2 & tape & outputs & gflat & deltas &
        Hshape & Hreg & Hfwd & Hbwd & Hg & Hgp & Hd & ->).
  exists outputs, deltas.
  pose proof (forward_result ms1 (map flatten_example (inputs ++ baselines))) as Hres.
  rewrite Hfwd in Hres. simpl in Hres.
  destruct (register_from_static _ _ _ _ _ _ _ _ Hreg) as [Hops _].
  rewrite Hops in Hres. symmetry in Hres.
  destruct (chain_rows_lookup _ _ _ Hres) as [Hlen Hrow].
  rewrite length_map, length_app in Hlen.
  assert (Hn : length inputs = n) by apply Hi.
  assert (Hnb : length baselines = n) by apply Hb.
  pose proof (backward_shape _ _ _ _ _ _ _ Hfwd
                (grad_of_first_chunk_sum_shape outputs) Hbwd) as Hgs.
  assert (Hgs' : map length (take n gflat)
                 = map length (map flatten_example inputs)).
  { change (length <$> gflat
            = length <$> (flatten_example <$> (inputs ++ baselines))) in Hgs.
    change (length <$> take n gflat = length <$> (flatten_example <$> inputs)).
    rewrite fmap_take, Hgs. rewrite !fmap_app.
    rewrite take_app_length'; [done|by rewrite !length_fmap]. }
  destruct (gradients_regular n A L inputs gflat Hi Hgs') as [Hgreg Hgrow].
  rewrite Hn in Hg. rewrite <- Hg in Hgreg, Hgrow.
  pose proof (convergence_deltas_rows _ _ _ _ _ Hd) as Hne.
  rewrite (convergence_deltas_value n A L) in Hd; [|done..|lia|done].
  injection Hd as Hd. symmetry in Hd.
  split; [done|]. split; [done|]. split.
  { simpl.
    destruct (attribute_finally_frame (add_handles self fh bh)
                (report (add_handles self fh bh) deltas
                        (mk_state ms2 id1 (warnings st) (stdout st))))
      as (_ & _ & Fw & _).
    rewrite Fw. unfold report. simpl.
    destruct (existsb _ deltas), (verbose self); simpl; by rewrite ?app_nil_r. }
  intros i x b gi Hx Hbi Hgi.
  assert (Hin : i < n) by (apply lookup_lt_Some in Hx; lia).
  split.
  - rewrite Hd. unfold expected_deltas. rewrite list_lookup_fmap.
    rewrite lookup_seq_lt; [|done]. simpl.
    rewrite (list_lookup_total_correct _ _ _ Hx), (list_lookup_total_correct _ _ _ Hbi),
      (list_lookup_total_correct _ _ _ Hgi). done.
  - assert (Hout : ∀ k e, (inputs ++ baselines) !! k = Some e →
                          output0 (model st) e = Ok (el2 outputs k 0)).
    { intros k e Hk. unfold output0, model_output.
      destruct (Hrow k (flatten_example e)) as (yk & Hyk & Hch).
      { by rewrite list_lookup_fmap, Hk. }
      rewrite Hch. simpl.
      apply Forall_lookup_1 with (i := k) (x := yk) in Hne; [|done].
      destruct yk as [|v yk]; [done|]. simpl.
      unfold el2. by rewrite (list_lookup_total_correct _ _ _ Hyk). }
    unfold conservation_gap.
    rewrite (Hout i x); [|by apply lookup_app_l_Some].
    rewrite (Hout (n + i) b); [|rewrite lookup_app_r; [|lia];
                                 by replace (n + i - length inputs) with i by lia].
    done.
Qed.


(** *** A single linear layer *)











(** *** The driver: what a round needs to succeed *)

Ltac bind_ok H :=
  unfold mbind, result_bind, Py.bind in H;
  repeat match type of H with
         | match ?m with Ok _ => _ | Raise _ => _ end = Ok _ =>
             let Hb := fresh "Hbind" in destruct m eqn:Hb; [|discriminate H]
         end.

Section driver_facts.

Variable X : Tensor3.
Variable references : references_arg.
Variable n_shuffles : nat.
Variable batch_size : Z.
Variable return_references : bool.
Variable hypothetical : bool.
Variable warning_threshold : Q.
Variable print_convergence_deltas : bool.
Variable random_state : option Z.

Abbreviation run_batch' := (run_batch X references n_shuffles return_references
                          hypothetical warning_threshold print_convergence_deltas
                          random_state).
Abbreviation body' := (body X references n_shuffles batch_size return_references
                     hypothetical warning_threshold print_convergence_deltas
                     random_state).
Abbreviation for_loop' := (for_loop X references n_shuffles batch_size return_references
                         hypothetical warning_threshold print_convergence_deltas
                         random_state).

Lemma run_batch_Ok_inv (l l' : loop) :
  run_batch' l = Ok l' →
  ∃ _X rd self g,
    gather X (Xi l) = Ok _X ∧
    batch_references references random_state _X (Xi l) (rj l) (draws l) = Ok rd ∧
    __init__ (model (world l)) default_ignore_layers default_eps
             warning_threshold print_convergence_deltas = Ok self ∧
    (attribute _X rd.1 (self, world l)).1 = Ok g ∧
    Xi l' = [] ∧ rj l' = [].
Proof.
  unfold run_batch. intros H. bind_ok H.
  injection H as <-. simpl. eauto 10.
Qed.

Lemma for_loop_reaches_last_batch (n : nat) (idx : list nat) :
  ∀ l l', n_shuffles ≠ 0 → for_loop' n idx l = Ok l' → (n - 1) ∈ idx →
          length (Xi l) = length (rj l) →
  ∃ l0 l1, run_batch' l0 = Ok l1 ∧ (n - 1) / n_shuffles ∈ Xi l0 ∧
           length (Xi l0) = length (rj l0).
Proof.
  induction idx as [|i idx IH]; intros l l' Hns Hloop Hin Hlen.
  - by apply elem_of_nil in Hin.
  - cbn [for_loop] in Hloop. unfold body in Hloop.
    rewrite decide_False in Hloop; [|done].
    cbn [Xi] in Hloop.
    destruct (decide (Z.of_nat (length (Xi l ++ [i / n_shuffles])) = batch_size
                      ∨ i = n - 1)) as [Htrig|Hno].
    + destruct (run_batch' _) as [a|e] eqn:Hrb; [|discriminate Hloop].
      cbn in Hloop.
      destruct (decide (i = n - 1)) as [->|Hne].
      * eexists _, _. split; [exact Hrb|]. simpl. split.
        -- apply elem_of_app. right. by left.
        -- rewrite !length_app. simpl. lia.
      * destruct (run_batch_Ok_inv _ _ Hrb) as (? & ? & ? & ? & _ & _ & _ & _ & HX & Hr).
        apply (IH a l'); try done.
        -- apply elem_of_cons in Hin as [?|?]; [congruence|done].
        -- by rewrite HX, Hr.
    + cbn in Hloop. eapply IH; [done|exact Hloop| |].
      * apply elem_of_cons in Hin as [?|?]; [|done]. exfalso. apply Hno. by right.
      * simpl. rewrite !length_app. simpl. lia.
Qed.

End driver_facts.


(** *** Precomputed references *)

Lemma gather2_Ok (t : Tensor4) (Xi rj : list nat) (r : Tensor3) :
  gather2 t Xi rj = Ok r →
  length r = length (zip Xi rj) ∧
  ∀ k i j, Xi !! k = Some i → rj !! k = Some j →
    ∃ row e, t !! i = Some row ∧ row !! j = Some e ∧ r !! k = Some e.
Proof.
  unfold gather2. intros H. split; [by apply mapM_result_length in H|].
  intros k i j Hi Hj.
  destruct (mapM_result_lookup _ _ _ H k (i, j)) as (e & He & Hf).
  { rewrite lookup_zip_with, Hi, Hj. done. }
  simpl in Hf. destruct (t !! i) as [row|]; [|done]. simpl in Hf.
  destruct (row !! j) as [e'|] eqn:Hrow; [|done]. injection Hf as ->.
  by exists row, e.
Qed.

Lemma gather_Ok {X} (t : list X) (idx : list nat) (r : list X) :
  gather t idx = Ok r →
  length r = length idx ∧
  ∀ k i, idx !! k = Some i → ∃ e, t !! i = Some e ∧ r !! k = Some e.
Proof.
  unfold gather. intros H. split; [by apply mapM_result_length in H|].
  intros k i Hi.
  destruct (mapM_result_lookup _ _ _ H k i Hi) as (e & He & Hf).
  destruct (t !! i) as [e'|]; [|done]. injection Hf as ->. by exists e.
Qed.

Lemma shape3_head (t : Tensor3) (e : Mat) (A L : nat) :
  t !! 0 = Some e → rect A L e → 0 < A → shape3 t = (length t, A, L).
Proof.
  intros Ht [Hl Hrows] HA. destruct t as [|e' t]; [done|].
  injection Ht as ->. unfold shape3. simpl. rewrite Hl.
  destruct e as [|row e]; [simpl in Hl; lia|]. simpl.
  inversion Hrows; subst. done.
Qed.

Lemma last_pair_example (N ns : nat) : 0 < N → 0 < ns → (N * ns - 1) / ns = N - 1.
Proof.
  intros HN Hns. symmetry.
  apply (Nat.div_unique (N * ns - 1) ns (N - 1) (ns - 1)); [lia|]. nia.
Qed.

(** C9 (amended). With a precomputed tensor of references that has fewer
    rows than [X] has examples, or whose references have another shape
    than the examples of [X], [deep_lift_shap] raises an exception and
    returns no result. *)
Theorem mismatched_references_fail (N A L M ns A' L' : nat) (X : Tensor3)
    (R : Tensor4) (n_shuffles : nat) (batch_size : Z)
    (return_references hypothetical : bool) (warning_threshold : Q)
    (print_convergence_deltas : bool) (random_state : option Z) (st : state) :
  regular3 N A L X → regular4 M ns A' L' R →
  M < N ∨ (0 < A ∧ 0 < A' ∧ (A, L) ≠ (A', L')) →
  ∃ e, deep_lift_shap X (RefTensor R) n_shuffles batch_size return_references
                      hypothetical warning_threshold print_convergence_deltas
                      random_state st = Raise e.
Proof.
  intros HX HR Hbad.
  destruct (deep_lift_shap _ _ _ _ _ _ _ _ _ _) as [v|e] eqn:Hrun; [|by exists e].
  exfalso. unfold deep_lift_shap, deep_lift_shap_loop in Hrun.
  set (k := length (default [] (head R))) in *.
  destruct (for_loop _ _ _ _ _ _ _ _ _ _ _ _) as [l|] eqn:Hloop; [|done].
  cbn in Hrun.
  destruct (decide (length X * k = 0)) as [Hz|Hnz].
  { rewrite Hz in Hloop. cbn in Hloop. injection Hloop as <-. done. }
  assert (Hk : k ≠ 0) by lia.
  assert (HN : 0 < N) by (destruct HX; lia).
  assert (HlenX : length X = N) by apply HX.
  destruct (for_loop_reaches_last_batch _ _ _ _ _ _ _ _ _ _ _ _ _ Hk Hloop)
    as (l0 & l1 & Hrb & Hin & Hlen).
  { apply elem_of_seq. lia. }
  { done. }
  rewrite HlenX, last_pair_example in Hin; [|done|lia].
  destruct (run_batch_Ok_inv _ _ _ _ _ _ _ _ _ _ Hrb)
    as (_X & rd & self & g & HgX & Hrefs & _ & Hattr & _ & _).
  simpl in Hrefs.
  destruct (gather2 R (Xi l0) (rj l0)) as [r|] eqn:Hg2; [|done].
  cbn in Hrefs. injection Hrefs as <-. simpl in Hattr.
  destruct (gather2_Ok _ _ _ _ Hg2) as [Hlr Hrows].
  destruct (gather_Ok _ _ _ HgX) as [HlX Hxs].
  apply list_elem_of_lookup in Hin as [p Hp].
  destruct (lookup_lt_is_Some_2 (rj l0) p) as [j Hj].
  { rewrite <- Hlen. by apply lookup_lt_Some in Hp. }
  destruct (Hrows p _ _ Hp Hj) as (row & e & Hrow & He & Hre).
  destruct Hbad as [Hrows_few|(HA & HA' & Hne)].
  - apply lookup_lt_Some in Hrow. destruct HR as [HM _]. lia.
  - unfold attribute in Hattr. case_bool_decide as Hshape; [|done].
    (* both batches are non-empty; compare the shapes of their heads *)
    destruct (Xi l0) as [|i0 Xi0] eqn:HXi; [done|].
    destruct (rj l0) as [|j0 rj0] eqn:Hrj; [done|].
    destruct (Hxs 0 i0 eq_refl) as (x0 & Hx0 & HX0).
    destruct (Hrows 0 i0 j0 eq_refl eq_refl) as (row0 & e0 & Hrow0 & He0 & Hr0).
    rewrite (shape3_head _X x0 A L) in Hshape; [|done| |done].
    2:{ by apply (regular3_rect N A L X i0). }
    rewrite (shape3_head r e0 A' L') in Hshape; [|done| |done].
    2:{ destruct HR as [_ HR]. eapply Forall_lookup_1 in HR; [|exact Hrow0].
        by apply (regular3_rect ns A' L' row0 j0). }
    apply Hne. congruence.
Qed.

Lemma mismatched_references_fail_witness :
  let st := fresh_state [linear_layer [[2; -1; 0; 0]]%Q [0]%Q; relu_layer] in
  let X : Tensor3 := [[[1]; [0]; [0]; [0]]; [[0]; [0]; [1]; [0]]]%Q in
  let R : Tensor4 := [[[[0]; [1]; [0]; [0]]; [[0]; [0]; [0]; [1]]]]%Q in
  regular3 2 4 1 X ∧ regular4 1 2 4 1 R ∧
  (1 < 2 ∨ (0 < 4 ∧ 0 < 4 ∧ (4, 1) ≠ (4, 1))) ∧
  ∃ e, deep_lift_shap X (RefTensor R) 20 32 false false default_warning_threshold
                      false None st = Raise e.
Proof.
  intros st X R.
  assert (HX : regular3 2 4 1 X) by (split; [reflexivity|repeat constructor]).
  assert (HR : regular4 1 2 4 1 R).
  { split; [reflexivity|]. constructor; [|constructor].
    split; [reflexivity|repeat constructor]. }
  assert (Hbad : 1 < 2 ∨ (0 < 4 ∧ 0 < 4 ∧ (4, 1) ≠ (4, 1))) by (left; lia).
  split; [exact HX|]. split; [exact HR|]. split; [exact Hbad|].
  exact (mismatched_references_fail 2 4 1 1 2 4 1 X R 20 32 false false
           default_warning_threshold false None st HX HR Hbad).
Defined.

(** C9 as stated fails: a tensor of references with three rows for two
    examples does not have the shape [(len(X), n_shuffles, 4, 1)], yet the
    call returns; the third row is never read. *)
Lemma surplus_reference_rows_are_accepted :
  let st := fresh_state [linear_layer [[2; -1; 0; 0]]%Q [0]%Q; relu_layer] in
  let X : Tensor3 := [[[1]; [0]; [0]; [0]]; [[0]; [0]; [1]; [0]]]%Q in
  let R : Tensor4 :=
    [[[[0]; [1]; [0]; [0]]; [[0]; [0]; [0]; [1]]];
     [[[1]; [0]; [0]; [0]]; [[0]; [1]; [0]; [0]]];
     [[[1]; [0]; [0]; [0]]; [[0]; [1]; [0]; [0]]]]%Q in
  regular3 2 4 1 X ∧ regular4 3 2 4 1 R ∧ length R ≠ length X ∧
  ∃ attributions,
    deep_lift_shap X (RefTensor R) 2 2 true true default_warning_threshold
                   false None st = Ok (attributions, Some (take 2 R)).
Proof.
  intros st X R.
  split; [split; [reflexivity|repeat constructor]|].
  split.
  { split; [reflexivity|]. repeat constructor. }
  split; [by vm_compute|].
  eexists. vm_compute. reflexivity.
Qed.

(** ** Batches row by row *)

Lemma mapM_result_app {X Y} (f : X → result Y) (l1 l2 : list X) :
  mapM_result f (l1 ++ l2) =
    (a ← mapM_result f l1; b ← mapM_result f l2; Ok (a ++ b)).
Proof.
  induction l1 as [|x l1 IH]; simpl.
  - by destruct (mapM_result f l2).
  - destruct (f x); simpl; [|done]. rewrite IH.
    destruct (mapM_result f l1); simpl; [|done].
    by destruct (mapM_result f l2).
Qed.

Lemma mapM_result_fmap {X Y Z} (g : X → Y) (f : Y → result Z) (l : list X) :
  mapM_result f (g <$> l) = mapM_result (λ x, f (g x)) l.
Proof. induction l as [|x l IH]; csimpl; [done|]. by rewrite IH. Qed.

Lemma mapM_result_ext {X Y} (f g : X → result Y) (l : list X) :
  (∀ x, f x = g x) → mapM_result f l = mapM_result g l.
Proof. intros H. induction l as [|x l IH]; simpl; [done|]. by rewrite H, IH. Qed.

Lemma mapM_guard {X Y} (c : X → bool) (g : X → Y) (e : exn) (l : list X) :
  mapM_result (λ x, if c x then Ok (g x) else Raise e) l =
    if forallb c l then Ok (g <$> l) else Raise e.
Proof.
  induction l as [|x l IH]; csimpl; [done|].
  destruct (c x); csimpl; [|done]. rewrite IH. by destruct (forallb c l).
Qed.

Lemma mapM_result_pure {X Y} (g : X → Y) (l : list X) :
  mapM_result (λ x, Ok (g x)) l = Ok (g <$> l).
Proof. induction l as [|x l IH]; csimpl; [done|]. by rewrite IH. Qed.

Lemma zip_fmap {T X Y} (α : T → X) (β : T → Y) (ts : list T) :
  zip (α <$> ts) (β <$> ts) = (λ t, (α t, β t)) <$> ts.
Proof. induction ts as [|t ts IH]; csimpl; [done|]. by rewrite IH. Qed.

Lemma zip_with_fmap2 {T X Y Z} (f : X → Y → Z) (α : T → X) (β : T → Y)
    (ts : list T) :
  zip_with f (α <$> ts) (β <$> ts) = (λ t, f (α t) (β t)) <$> ts.
Proof. induction ts as [|t ts IH]; csimpl; [done|]. by rewrite IH. Qed.

Lemma ew1_guard {X Y Z} (f : X → Y → Z) (a : list X) (b : list Y) :
  ew1 f a b = if bok a b then Ok (bval f a b) else Raise RuntimeError.
Proof.
  unfold ew1, bzip, bok, bval.
  destruct (decide (length a = length b)) as [Hl|Hl].
  - rewrite bool_decide_true by done. simpl.
    rewrite (mapM_result_pure (λ p, f p.1 p.2)).
    f_equal. clear Hl. revert b. induction a as [|x a IH]; intros [|y b]; simpl; [done..|].
    by rewrite IH.
  - rewrite (bool_decide_false (length a = length b)) by done. simpl.
    destruct a as [|x [|x' a]]; simpl.
    + destruct b as [|y [|y' b]]; simpl; try done.
    + by rewrite mapM_result_pure.
    + destruct b as [|y [|y' b]]; simpl; try done.
      rewrite (mapM_result_pure (λ x0, f x0 y)). done.
Qed.

Lemma ew2_fmap {T X Y Z} (f : X → Y → Z) (α : T → list X) (β : T → list Y)
    (ts : list T) :
  ew2 f (α <$> ts) (β <$> ts) =
    if forallb (λ t, bok (α t) (β t)) ts
    then Ok ((λ t, bval f (α t) (β t)) <$> ts) else Raise RuntimeError.
Proof.
  unfold ew2, bzip. rewrite decide_True by (by rewrite !length_fmap).
  rewrite zip_fmap, mapM_result_fmap. simpl.
  rewrite (mapM_result_ext _ (λ t, if bok (α t) (β t) then Ok (bval f (α t) (β t))
                                   else Raise RuntimeError))
    by (intros t; apply ew1_guard).
  apply mapM_guard.
Qed.

Lemma sides_fmap {T X} (α α' : T → X) (ts : list T) :
  (α <$> ts) ++ (α' <$> ts) = (λ u : T * bool, if u.2 then α' u.1 else α u.1) <$> sides ts.
Proof.
  unfold sides. rewrite fmap_app. f_equal.
  - rewrite <- list_fmap_compose. done.
  - rewrite <- list_fmap_compose. done.
Qed.

Lemma forallb_sides {T} (c : T * bool → bool) (ts : list T) :
  forallb c (sides ts) =
    forallb (λ t, c (t, false)) ts && forallb (λ t, c (t, true)) ts.
Proof.
  unfold sides. rewrite forallb_app. f_equal.
  - induction ts as [|t ts IH]; csimpl; [done|]. by rewrite IH.
  - induction ts as [|t ts IH]; csimpl; [done|]. by rewrite IH.
Qed.

Lemma forallb_andb {T} (c d : T → bool) (ts : list T) :
  forallb c ts && forallb d ts = forallb (λ t, c t && d t) ts.
Proof.
  induction ts as [|t ts IH]; simpl; [done|]. rewrite <- IH.
  destruct (c t), (d t), (forallb c ts), (forallb d ts); done.
Qed.

Lemma length_sides {T} (ts : list T) : length (sides ts) = length ts + length ts.
Proof. unfold sides. by rewrite length_app, !length_fmap. Qed.

Lemma sides_fmap_same {T X} (α : T → X) (ts : list T) :
  (α <$> ts) ++ (α <$> ts) = (λ u : T * bool, α u.1) <$> sides ts.
Proof. unfold sides. by rewrite fmap_app, <- !list_fmap_compose. Qed.

Lemma unpair_sides {T X} (π : T → X * X) (ts : list T) :
  unpair (π <$> ts) = (λ u : T * bool, side u.2 (π u.1)) <$> sides ts.
Proof. unfold unpair, sides. by rewrite fmap_app, <- !list_fmap_compose. Qed.

Lemma forallb_ext' {T} (c d : T → bool) (ts : list T) :
  (∀ t, c t = d t) → forallb c ts = forallb d ts.
Proof. intros H. induction ts as [|t ts IH]; simpl; [done|]. by rewrite H, IH. Qed.

Lemma same_shape2_fmap {T} (R N : T → Vec) (ts : list T) :
  same_shape2 (R <$> ts) (N <$> ts) =
    forallb (λ t, bool_decide (length (R t) = length (N t))) ts.
Proof.
  unfold same_shape2. induction ts as [|t ts IH]; csimpl; [done|].
  rewrite <- IH. rewrite <- bool_decide_and. apply bool_decide_ext. split.
  - intros [= H1 H2]. by rewrite H1, H2.
  - intros [H1 H2]. by rewrite H1, H2.
Qed.

Lemma run_backward_hooks_foreign (m : nn_module) (gi go : Mat) :
  existsb is_engine_backward_hook (hooks_of (_backward_hooks m)) = false →
  run_backward_hooks m gi go = Ok gi.
Proof.
  unfold run_backward_hooks. generalize (hooks_of (_backward_hooks m)).
  intros hs. induction hs as [|h hs IH]; simpl; [done|].
  intros [Hh Hhs]%orb_false_elim. destruct h; try done; by apply IH.
Qed.


Lemma zip_with_sides {T} (f : Vec → Vec → Vec) (π ρ : T → Vec * Vec) (ts : list T) :
  zip_with f (unpair (π <$> ts)) (unpair (ρ <$> ts)) =
    (λ u : T * bool, f (side u.2 (π u.1)) (side u.2 (ρ u.1))) <$> sides ts.
Proof. rewrite !unpair_sides. apply zip_with_fmap2. Qed.

Lemma chunk_halves {X} (a b : list X) :
  length a = length b → chunk (a ++ b) = [a; b].
Proof.
  intros H. rewrite (chunk_even (length a)) by (rewrite length_app; lia).
  by rewrite take_app_length, drop_app_length.
Qed.

Lemma bind_if {X Y} (c : bool) (r : result X) (e : exn) (k : X → result Y) :
  ((if c then r else Raise e) ≫= k) = if c then r ≫= k else Raise e.
Proof. by destruct c. Qed.

Lemma bind_Ok {X Y} (v : X) (k : X → result Y) : (Ok v ≫= k) = k v.
Proof. done. Qed.

Lemma if_ext {X} (c d : bool) (a a' e : X) :
  c = d → (c = true → a = a') →
  (if c then a else e) = (if d then a' else e).
Proof. intros <- H. destruct c; [by rewrite H|done]. Qed.

Lemma if_if {X} (c d : bool) (a b : X) :
  (if c then (if d then a else b) else b) = if c && d then a else b.
Proof. by destruct c, d. Qed.

Lemma hooked_step (eps : Q) (m : nn_module) (ts : list rowT) :
  hooks_of (_backward_hooks m) = [EngineBackwardHook eps] →
  input m = Some (unpair (ts.*1.*1)) → output m = Some (unpair (ts.*1.*2)) →
  module_backward m (unpair (ts.*1.*1)) (unpair (ts.*2)) =
    (rs ← mapM_result (λ t : rowT, pair_step eps (op m) true t.1.1 t.1.2 t.2) ts;
     Ok (unpair rs)).
Proof.
  intros Hh Hin Hout. unfold module_backward, run_backward_hooks.
  rewrite Hh. cbn [foldl]. unfold _backward_hook. rewrite Hin, Hout.
  pose (x := λ t : rowT, t.1.1.1). pose (b := λ t : rowT, t.1.1.2).
  pose (yx := λ t : rowT, t.1.2.1). pose (yb := λ t : rowT, t.1.2.2).
  pose (gx := λ t : rowT, t.2.1). pose (gb := λ t : rowT, t.2.2).
  assert (HX : unpair ts.*1.*1 = (x <$> ts) ++ (b <$> ts))
    by (unfold unpair; by rewrite <- !list_fmap_compose).
  assert (HY : unpair ts.*1.*2 = (yx <$> ts) ++ (yb <$> ts))
    by (unfold unpair; by rewrite <- !list_fmap_compose).
  assert (HG : unpair ts.*2 = (gx <$> ts) ++ (gb <$> ts))
    by (unfold unpair; by rewrite <- !list_fmap_compose).
  rewrite HX, HY, HG. clear HX HY HG Hin Hout Hh.
  cbn [or_raise mbind result_bind Py.bind].
  rewrite !chunk_halves by (by rewrite !length_fmap).
  cbn [sub_chunks2].
  rewrite (sides_fmap x b), (sides_fmap gx gb), zip_with_fmap2.
  rewrite !ew2_fmap.
  repeat (rewrite ?bind_if, ?bind_Ok, ?sides_fmap_same, ?ew2_fmap).
  unfold where_.
  rewrite <- !list_fmap_compose.
  repeat (rewrite ?bind_if, ?bind_Ok, ?sides_fmap_same, ?ew2_fmap).
  rewrite same_shape2_fmap, !if_if, !forallb_sides, !forallb_andb.
  rewrite (mapM_result_ext _
    (λ t : rowT, if rescale_guard eps (x t) (b t) (yx t) (yb t)
                      (op_backward (op m) (x t) (gx t)) (gx t)
                    && rescale_guard eps (x t) (b t) (yx t) (yb t)
                      (op_backward (op m) (b t) (gb t)) (gb t)
                 then Ok (rescale_value eps (x t) (b t) (yx t) (yb t)
                            (op_backward (op m) (x t) (gx t)) (gx t),
                          rescale_value eps (x t) (b t) (yx t) (yb t)
                            (op_backward (op m) (b t) (gb t)) (gb t))
                 else Raise RuntimeError)) by done.
  rewrite mapM_guard, bind_if, bind_Ok.
  rewrite (unpair_sides (λ t : rowT, (rescale_value eps (x t) (b t) (yx t) (yb t)
                            (op_backward (op m) (x t) (gx t)) (gx t),
                          rescale_value eps (x t) (b t) (yx t) (yb t)
                            (op_backward (op m) (b t) (gb t)) (gb t)))).
  apply if_ext.
  - apply forallb_ext'. intros t. unfold rescale_guard, rescale_value.
    cbn [fst snd compose]. btauto.
  - intros _. f_equal. apply list_fmap_ext. intros i [t []] _; done.
Qed.

Lemma unhooked_step (eps : Q) (m : nn_module) (ts : list rowT) :
  existsb is_engine_backward_hook (hooks_of (_backward_hooks m)) = false →
  module_backward m (unpair (ts.*1.*1)) (unpair (ts.*2)) =
    (rs ← mapM_result (λ t : rowT, pair_step eps (op m) false t.1.1 t.1.2 t.2) ts;
     Ok (unpair rs)).
Proof.
  intros Hh. unfold module_backward. rewrite run_backward_hooks_foreign by done.
  unfold pair_step.
  rewrite (mapM_result_pure (λ t : rowT, (op_backward (op m) t.1.1.1 t.2.1,
                                          op_backward (op m) t.1.1.2 t.2.2))).
  rewrite bind_Ok. f_equal.
  rewrite <- !list_fmap_compose.
  rewrite (zip_with_sides (op_backward (op m)) (λ t : rowT, t.1.1) (λ t : rowT, t.2)).
  rewrite (unpair_sides (λ t : rowT, (op_backward (op m) t.1.1.1 t.2.1,
                                      op_backward (op m) t.1.1.2 t.2.2))).
  apply list_fmap_ext. intros i [t []] _; done.
Qed.

Lemma raises_only_bind {X Y} (e : exn) (r : result X) (k : X → result Y) :
  raises_only e r → (∀ x, raises_only e (k x)) → raises_only e (r ≫= k).
Proof.
  intros Hr Hk e' H. destruct r as [x|e1]; simpl in H.
  - by apply (Hk x).
  - apply Hr. by injection H as ->.
Qed.

Lemma raises_only_Ok {X} (e : exn) (x : X) : raises_only e (Ok x).
Proof. by intros e' H. Qed.

Lemma raises_only_Raise {X} (e : exn) : raises_only e (@Raise X e).
Proof. intros e' H. by injection H. Qed.

Lemma mapM_raises_only {X Y} (e : exn) (f : X → result Y) (l : list X) :
  (∀ x, raises_only e (f x)) → raises_only e (mapM_result f l).
Proof.
  intros Hf. induction l as [|x l IH]; simpl.
  - apply raises_only_Ok.
  - apply raises_only_bind; [apply Hf|]. intros y.
    apply raises_only_bind; [apply IH|]. intros ys. apply raises_only_Ok.
Qed.

Lemma op_forward_raises (o : layer_op) (x : Vec) :
  raises_only RuntimeError (op_forward o x).
Proof.
  destruct o; simpl; [|apply raises_only_Ok].
  case_decide; [apply raises_only_Ok|apply raises_only_Raise].
Qed.

Lemma both_raises {X Y} (e : exn) (f : X → result Y) (p : X * X) :
  (∀ x, raises_only e (f x)) → raises_only e (both f p).
Proof.
  intros Hf. unfold both. apply raises_only_bind; [apply Hf|]. intros y1.
  apply raises_only_bind; [apply Hf|]. intros y2. apply raises_only_Ok.
Qed.

Lemma pair_step_raises (eps : Q) (o : layer_op) (h : bool) (p q g : Vec * Vec) :
  raises_only RuntimeError (pair_step eps o h p q g).
Proof.
  unfold pair_step. destruct h; [|apply raises_only_Ok].
  case_match; [apply raises_only_Ok|apply raises_only_Raise].
Qed.

Lemma pair_gradient_raises (eps : Q) (layers : list (layer_op * bool)) :
  ∀ p, raises_only RuntimeError (pair_gradient eps layers p).
Proof.
  induction layers as [|[o h] rest IH]; intros p; simpl.
  - apply raises_only_Ok.
  - apply raises_only_bind; [apply both_raises, op_forward_raises|]. intros q.
    apply raises_only_bind; [apply IH|]. intros g. apply pair_step_raises.
Qed.

Lemma mapM_both {X Y} (e : exn) (f : X → result Y) (ps : list (X * X)) :
  (∀ x, raises_only e (f x)) →
  mapM_result (both f) ps =
    (a ← mapM_result f ps.*1; b ← mapM_result f ps.*2; Ok (zip a b)).
Proof.
  intros Hf. induction ps as [|p ps IH]; csimpl; [done|].
  rewrite IH. unfold both.
  pose proof (Hf p.1) as H1. pose proof (Hf p.2) as H2.
  pose proof (mapM_raises_only e f ps.*1 Hf) as H3.
  pose proof (mapM_raises_only e f ps.*2 Hf) as H4.
  destruct (f p.1) as [y1|e1]; csimpl; [|done].
  destruct (f p.2) as [y2|e2]; csimpl.
  - destruct (mapM_result f ps.*1) as [a|e3]; csimpl; [|done].
    destruct (mapM_result f ps.*2) as [b|e4]; csimpl; done.
  - rewrite (H2 e2 eq_refl).
    destruct (mapM_result f ps.*1) as [a|e3]; csimpl; [done|].
    by rewrite (H3 e3 eq_refl).
Qed.

Lemma mapM_unpair {X Y} (e : exn) (f : X → result Y) (ps : list (X * X)) :
  (∀ x, raises_only e (f x)) →
  mapM_result f (unpair ps) = (qs ← mapM_result (both f) ps; Ok (unpair qs)).
Proof.
  intros Hf. rewrite (mapM_both e) by done. unfold unpair.
  rewrite mapM_result_app.
  destruct (mapM_result f ps.*1) as [a|e3] eqn:Ea; csimpl; [|done].
  destruct (mapM_result f ps.*2) as [b|e4] eqn:Eb; csimpl; [|done].
  apply mapM_result_length in Ea, Eb. rewrite length_fmap in Ea, Eb.
  rewrite fst_zip, snd_zip by lia. done.
Qed.

Lemma fuse3 {P R G S} (e : exn) (f : P → result R) (h : R → result G)
    (s : P * R * G → result S) (ps : list P) :
  (∀ p, raises_only e (f p)) → (∀ q, raises_only e (h q)) →
  (∀ t, raises_only e (s t)) →
  mapM_result (λ p, q ← f p; g ← h q; s (p, q, g)) ps =
    (qs ← mapM_result f ps; gs ← mapM_result h qs;
     mapM_result s (zip (zip ps qs) gs)).
Proof.
  intros Hf Hh Hs. induction ps as [|p ps IH]; csimpl; [done|].
  rewrite IH. clear IH.
  pose proof (mapM_raises_only e f ps Hf) as H3.
  destruct (f p) as [q|e1]; csimpl; [|done].
  pose proof (Hh q) as H2.
  destruct (mapM_result f ps) as [qs|e3]; csimpl.
  - pose proof (mapM_raises_only e h qs Hh) as H4.
    destruct (h q) as [g|e2]; csimpl; [|done].
    pose proof (Hs (p, q, g)) as H5.
    destruct (mapM_result h qs) as [gs|e4]; csimpl; [done|].
    rewrite (H4 e4 eq_refl).
    destruct (s (p, q, g)) as [r|e5]; csimpl; [done|].
    by rewrite (H5 e5 eq_refl).
  - rewrite (H3 e3 eq_refl).
    destruct (h q) as [g|e2]; csimpl; [|by rewrite (H2 e2 eq_refl)].
    pose proof (Hs (p, q, g)) as H5.
    destruct (s (p, q, g)) as [r|e5]; csimpl; [done|].
    by rewrite (H5 e5 eq_refl).
Qed.

Lemma seed_unpair (qs : list (Vec * Vec)) :
  grad_of_first_chunk_sum (unpair qs) = unpair (seed_pair <$> qs).
Proof.
  unfold grad_of_first_chunk_sum, unpair.
  rewrite chunk_halves by (by rewrite !length_fmap). cbn [head default].
  rewrite imap_app, <- !list_fmap_compose. f_equal.
  - apply list_eq. intros i. rewrite list_lookup_imap, !list_lookup_fmap.
    destruct (qs !! i) as [q|] eqn:E; simpl; [|done].
    apply lookup_lt_Some in E. rewrite length_fmap.
    f_equal. apply map_ext. intros _. by rewrite decide_True.
  - apply list_eq. intros i. rewrite list_lookup_imap, !list_lookup_fmap.
    destruct (qs !! i) as [q|] eqn:E; simpl; [|done].
    rewrite !length_fmap. f_equal. apply map_ext. intros _.
    by rewrite decide_False by lia.
Qed.

Lemma capture_hooked (X Y : Mat) (m : nn_module) :
  existsb is_forward_pre_hook (hooks_of (_forward_pre_hooks m)) = true →
  existsb is_forward_hook (hooks_of (_forward_hooks m)) = true →
  input (capture_output Y (capture_input X m)) = Some X ∧
  output (capture_output Y (capture_input X m)) = Some Y.
Proof.
  intros Hp Hf. unfold capture_input. rewrite Hp.
  unfold capture_output. destruct m; simpl in *. by rewrite Hf.
Qed.

Lemma batch_gradient_pairs (eps : Q) (ms : list nn_module)
    (layers : list (layer_op * bool)) :
  Forall2 (layer_of eps) ms layers →
  ∀ ps, batch_gradient ms (unpair ps) =
          (gs ← mapM_result (pair_gradient eps layers) ps; Ok (unpair gs)).
Proof.
  induction 1 as [|m [o h] ms layers [Hop Hm] _ IH]; intros ps.
  - cbn [batch_gradient pair_gradient].
    rewrite (mapM_result_pure seed_pair), bind_Ok. by rewrite seed_unpair.
  - cbn [batch_gradient pair_gradient]. cbn [fst snd] in Hop, Hm. subst o.
    rewrite (fuse3 RuntimeError (both (op_forward (op m))) (pair_gradient eps layers)
               (λ t, pair_step eps (op m) h t.1.1 t.1.2 t.2)).
    2: { intros p. apply both_raises, op_forward_raises. }
    2: { apply pair_gradient_raises. }
    2: { intros t. apply pair_step_raises. }
    rewrite (mapM_unpair RuntimeError) by apply op_forward_raises.
    destruct (mapM_result (both (op_forward (op m))) ps) as [qs|e] eqn:E1;
      [|done].
    rewrite !bind_Ok, IH.
    destruct (mapM_result (pair_gradient eps layers) qs) as [gs|e] eqn:E2;
      [|done].
    rewrite !bind_Ok.
    apply mapM_result_length in E1, E2.
    set (ts := zip (zip ps qs) gs).
    assert (Hps : ps = ts.*1.*1).
    { unfold ts. rewrite fst_zip by (rewrite length_zip; lia).
      rewrite fst_zip by lia. done. }
    assert (Hqs : qs = ts.*1.*2).
    { unfold ts. rewrite fst_zip by (rewrite length_zip; lia).
      rewrite snd_zip by lia. done. }
    assert (Hgs : gs = ts.*2).
    { unfold ts. rewrite snd_zip by (rewrite length_zip; lia). done. }
    rewrite Hps, Hqs, Hgs. clearbody ts. clear Hps Hqs Hgs E1 E2.
    pose proof (capture_input_static (unpair ts.*1.*1) m) as (_&Hop1&_&_&Hb1&_).
    pose proof (capture_output_static (unpair ts.*1.*2)
                  (capture_input (unpair ts.*1.*1) m)) as (_&Hop2&_&_&Hb2&_).
    destruct h.
    + destruct Hm as (Hb & Hpre & Hfwd).
      destruct (capture_hooked (unpair ts.*1.*1) (unpair ts.*1.*2) m Hpre Hfwd)
        as [Hin Hout].
      rewrite (hooked_step eps); [| by rewrite Hb2, Hb1 | done | done].
      by rewrite Hop2, Hop1.
    + rewrite (unhooked_step eps); [| by rewrite Hb2, Hb1].
      by rewrite Hop2, Hop1.
Qed.

(** ** The engine on a batch, pair by pair *)

Lemma forward_batch_gradient (ms : list nn_module) : ∀ (X : Mat) ms' tape r,
  forward ms X = (ms', tape, r) →
  match r with
  | Ok Y => backward ms' tape (grad_of_first_chunk_sum Y) = batch_gradient ms X
  | Raise e => batch_gradient ms X = Raise e
  end.
Proof.
  induction ms as [|m ms IH]; intros X ms' tape r Hf.
  - simpl in Hf. injection Hf as <- <- <-. done.
  - cbn [forward] in Hf. rewrite call_module_spec in Hf.
    cbn [batch_gradient].
    destruct (mapM_result (op_forward (op m)) X) as [Y|e] eqn:EY.
    + destruct (forward ms Y) as [[rest' tape'] r'] eqn:Ef.
      injection Hf as <- <- <-. specialize (IH _ _ _ _ Ef).
      rewrite bind_Ok. destruct r' as [Yf|e].
      * cbn [backward]. by rewrite IH.
      * by rewrite IH.
    + injection Hf as <- <- <-. done.
Qed.

Lemma hooks_of_singleton (id : nat) (h : hook) (tbl : gmap nat hook) :
  size tbl = 0 → hooks_of (<[id := h]> tbl) = [h].
Proof.
  intros ->%map_size_empty_inv. unfold hooks_of.
  rewrite insert_empty, map_to_list_singleton. done.
Qed.

Lemma registered_layers (self : DeepLiftShap) (ms : list nn_module) :
  ∀ i id ms1 fh bh id1, register_from self i id ms = (ms1, fh, bh, id1) →
  clean_backward ms →
  Forall2 (layer_of (eps self)) ms1 (hooked_layers self ms).
Proof.
  induction ms as [|m ms IH]; intros i id ms1 fh bh id1 Hr Hc.
  - simpl in Hr. injection Hr as <- <- <- <-. constructor.
  - apply Forall_cons in Hc as [Hm Hc]. cbn [register_from] in Hr.
    cbn [hooked_layers map].
    destruct (_can_register_hook self m) eqn:Hcan.
    + destruct (register_from self (S i) (S (S (S id))) ms)
        as [[[rest' fh'] bh'] id'] eqn:Er.
      injection Hr as <- <- <- <-. constructor; [|by eapply IH].
      apply can_register_hook_iff in Hcan as [Hsz _].
      split; [done|]. cbn [snd]. split_and!.
      * by apply hooks_of_singleton.
      * by apply existsb_hooks_of_insert.
      * by apply existsb_hooks_of_insert.
    + destruct (register_from self (S i) id ms) as [[[rest' fh'] bh'] id'] eqn:Er.
      injection Hr as <- <- <- <-. constructor; [|by eapply IH].
      split; done.
Qed.

Lemma mapM_result_Ok_lookup {X Y} (f : X → result Y) (l : list X) :
  ∀ l' : list Y, length l' = length l →
  (∀ i x, l !! i = Some x → ∃ y, l' !! i = Some y ∧ f x = Ok y) →
  mapM_result f l = Ok l'.
Proof.
  induction l as [|x l IH]; intros [|y l'] Hl H; simpl in *; try done.
  destruct (H 0 x eq_refl) as (y' & [= <-] & ->). simpl.
  rewrite (IH l'); [done|lia|]. intros i x' Hi. apply (H (S i) x' Hi).
Qed.

Lemma mapM_result_raise_at {X Y} (f : X → result Y) (l : list X) (i : nat) (x : X) :
  l !! i = Some x → is_ok (f x) = false → is_ok (mapM_result f l) = false.
Proof.
  revert i. induction l as [|x' l IH]; intros [|i] Hi Hx; simpl in *; try done.
  - injection Hi as ->. by destruct (f x).
  - destruct (f x'); [|done]. simpl. specialize (IH i Hi Hx).
    by destruct (mapM_result f l).
Qed.

Lemma mapM_result_not_ok {X Y} (f : X → result Y) (l : list X) :
  is_ok (mapM_result f l) = false → ∃ i x, l !! i = Some x ∧ is_ok (f x) = false.
Proof.
  induction l as [|x l IH]; simpl; [done|].
  destruct (f x) as [y|e] eqn:E.
  - simpl. destruct (mapM_result f l); [done|]. intros _.
    destruct (IH eq_refl) as (i & x' & Hi & Hx). by exists (S i), x'.
  - intros _. exists 0, x. by rewrite E.
Qed.

Lemma follows_intro {X} (r r' : result X) :
  (∀ v, r = Ok v → r' = Ok v) → (is_ok r = false → is_ok r' = false) →
  follows id r r'.
Proof.
  intros H1 H2. unfold follows. destruct r as [v|e].
  - by rewrite (H1 v eq_refl).
  - specialize (H2 eq_refl). by destruct r'.
Qed.

Lemma column0_raise (outputs : Mat) :
  ¬ Forall (λ row : Vec, row ≠ []) outputs →
  mapM_result (λ row : Vec, or_raise IndexError (row !! 0)) outputs = Raise IndexError.
Proof.
  induction outputs as [|row outputs IH]; intros H.
  - destruct H. constructor.
  - simpl. destruct row as [|v row]; [done|]. simpl.
    rewrite IH; [done|]. intros H'. apply H. by constructor.
Qed.

Lemma flatten_unpair (n : nat) (xs bs : Tensor3) :
  length xs = n → length bs = n →
  map flatten_example (xs ++ bs) =
    unpair (zip (flatten_example <$> xs) (flatten_example <$> bs)).
Proof.
  intros Hx Hb. unfold unpair.
  rewrite fst_zip, snd_zip by (rewrite !length_fmap; lia).
  by rewrite map_app.
Qed.

Lemma attribute_result (n A L : nat) (self : DeepLiftShap) (st : state)
    (xs bs : Tensor3) :
  regular3 n A L xs → regular3 n A L bs → clean_backward (model st) →
  (attribute xs bs (self, st)).1 =
    (gs ← mapM_result (pair_gradient (eps self) (hooked_layers self (model st)))
                      (zip (flatten_example <$> xs) (flatten_example <$> bs));
     Y ← chain_rows (map op (model st))
           (unpair (zip (flatten_example <$> xs) (flatten_example <$> bs)));
     if bool_decide (Forall (λ row : Vec, row ≠ []) Y)
     then Ok (zip_with unflatten xs gs.*1) else Raise IndexError) ∧
  (is_ok (mapM_result (pair_gradient (eps self) (hooked_layers self (model st)))
                      (zip (flatten_example <$> xs) (flatten_example <$> bs))) = true →
   is_ok (chain_rows (map op (model st))
           (unpair (zip (flatten_example <$> xs) (flatten_example <$> bs)))) = true).
Proof.
  intros Hx Hb Hc. set (ps := zip (flatten_example <$> xs) (flatten_example <$> bs)).
  unfold attribute.
  rewrite bool_decide_true
    by (by rewrite (regular3_shape3 n A L xs), (regular3_shape3 n A L bs)).
  unfold attribute_try. rewrite gradient_pass_unfold.
  destruct (register_from self 0 (next_id st) (model st))
    as [[[ms1 fh] bh] id1] eqn:Er.
  pose proof (registered_layers self _ _ _ _ _ _ _ Er Hc) as Hl.
  pose proof (batch_gradient_pairs _ _ _ Hl ps) as Hbg.
  destruct (register_from_static self _ _ _ _ _ _ _ Er) as [Hops _].
  rewrite (flatten_unpair n) by apply Hx || apply Hb. fold ps.
  pose proof (forward_result ms1 (unpair ps)) as Hfr. rewrite Hops in Hfr.
  destruct (forward ms1 (unpair ps)) as [[ms2 tape] outputs] eqn:Ef.
  pose proof (forward_batch_gradient _ _ _ _ _ Ef) as Hfb.
  cbn [snd] in Hfr. rewrite <- Hfr.
  destruct outputs as [Y|e].
  - split; [|done]. rewrite Hfb, Hbg.
    destruct (mapM_result (pair_gradient (eps self) (hooked_layers self (model st))) ps)
      as [gs|e] eqn:Eg; [|done].
    rewrite !bind_Ok.
    assert (Hlen : length gs = n).
    { apply mapM_result_length in Eg. rewrite Eg. unfold ps.
      rewrite length_zip, !length_fmap. destruct Hx as [-> _], Hb as [-> _]. lia. }
    assert (Htake : take (length xs) (unpair gs) = gs.*1).
    { unfold unpair. rewrite take_app_length'; [done|].
      rewrite length_fmap. destruct Hx as [-> _]. done. }
    rewrite Htake.
    assert (Hshape : map length (unpair gs) = map length (unpair ps)).
    { eapply (backward_shape ms1); [exact Ef|apply grad_of_first_chunk_sum_shape|].
      by rewrite Hfb, Hbg. }
    assert (HY : length Y = n + n).
    { symmetry in Hfr. apply chain_rows_lookup in Hfr as [-> _].
      unfold unpair, ps. rewrite length_app, !length_fmap, length_zip, !length_fmap.
      destruct Hx as [-> _], Hb as [-> _]. lia. }
    assert (Hreg : regular3 n A L (zip_with unflatten xs gs.*1)).
    { rewrite <- Htake. destruct Hx as [Hxn Hx]. rewrite Hxn.
      apply (gradients_regular n A L xs (unpair gs)); [done|].
      apply (f_equal (take n)) in Hshape. rewrite <- !fmap_take in Hshape.
      change (map length (take n (unpair gs)) = map length (take n (unpair ps)))
        in Hshape.
      rewrite Hshape. f_equal. unfold unpair, ps.
      rewrite take_app_length'; [|rewrite length_fmap, length_zip, !length_fmap;
                                   destruct Hb as [-> _]; lia].
      rewrite fst_zip; [done|]. rewrite !length_fmap. destruct Hb as [-> _]. lia. }
    cbv zeta. cbn [fst snd].
    case_bool_decide as HF.
    + by rewrite (convergence_deltas_value n A L).
    + unfold convergence_deltas. by rewrite column0_raise.
  - rewrite Hbg in Hfb.
    destruct (mapM_result (pair_gradient (eps self) (hooked_layers self (model st))) ps)
      as [gs|e'] eqn:Eg; [done|]. simpl in Hfb. injection Hfb as ->. done.
Qed.

Lemma map_fst_hooked_layers (self : DeepLiftShap) (ms : list nn_module) :
  map fst (hooked_layers self ms) = map op ms.
Proof. unfold hooked_layers. rewrite map_map. done. Qed.

Lemma zip_fmap_both {X Y X' Y'} (f : X → X') (g : Y → Y') (xs : list X) :
  ∀ ys : list Y,
  zip (f <$> xs) (g <$> ys) = (λ p : X * Y, (f p.1, g p.2)) <$> zip xs ys.
Proof.
  induction xs as [|x xs IH]; intros [|y ys]; csimpl; try done. by rewrite IH.
Qed.

Lemma attribute_pairs (n A L : nat) (self : DeepLiftShap) (st : state)
    (xs bs : Tensor3) :
  regular3 n A L xs → regular3 n A L bs → clean_backward (model st) →
  follows id (attribute xs bs (self, st)).1
    (mapM_result (λ p : Mat * Mat,
                    pair_engine (eps self) (hooked_layers self (model st)) p.1 p.2)
                 (zip xs bs)).
Proof.
  intros Hx Hb Hc.
  destruct (attribute_result n A L self st xs bs Hx Hb Hc) as [Hr Hok].
  set (layers := hooked_layers self (model st)) in *.
  set (F := λ p : Mat * Mat, pair_engine (eps self) layers p.1 p.2).
  set (ps := zip (flatten_example <$> xs) (flatten_example <$> bs)) in *.
  assert (Hps : ps = (λ p : Mat * Mat, (flatten_example p.1, flatten_example p.2))
                       <$> zip xs bs).
  { unfold ps. apply zip_fmap_both. }
  assert (Hxn : length xs = n) by apply Hx.
  assert (Hbn : length bs = n) by apply Hb.
  destruct (mapM_result (pair_gradient (eps self) layers) ps) as [gs|e] eqn:Eg.
  2: { apply follows_intro; [by rewrite Hr|]. intros _.
       destruct (mapM_result_not_ok (pair_gradient (eps self) layers) ps)
         as (i & p & Hi & Hp); [by rewrite Eg|].
       rewrite Hps, list_lookup_fmap in Hi.
       destruct (zip xs bs !! i) as [[x b]|] eqn:Ez; [|done].
       injection Hi as <-. apply (mapM_result_raise_at F _ i (x, b) Ez).
       unfold F, pair_engine. cbn [fst snd] in *.
       by destruct (pair_gradient (eps self) layers _). }
  specialize (Hok eq_refl).
  destruct (chain_rows (map op (model st)) (unpair ps)) as [Y|e] eqn:EY; [|done].
  rewrite !bind_Ok in Hr.
  destruct (chain_rows_lookup _ _ _ EY) as [HYl HY].
  assert (Hpl : length ps = n).
  { unfold ps. rewrite length_zip, !length_fmap. lia. }
  assert (Hgl : length gs = n) by (apply mapM_result_length in Eg; lia).
  assert (Hpair : ∀ i x b, zip xs bs !! i = Some (x, b) →
            ∃ g y1 y2, gs !! i = Some g ∧ Y !! i = Some y1 ∧ Y !! (n + i) = Some y2 ∧
              F (x, b) = if bool_decide (y1 ≠ []) && bool_decide (y2 ≠ [])
                         then Ok (unflatten x g.1) else Raise IndexError).
  { intros i x b Hi.
    assert (Hpi : ps !! i = Some (flatten_example x, flatten_example b)).
    { by rewrite Hps, list_lookup_fmap, Hi. }
    destruct (mapM_result_lookup _ _ _ Eg i _ Hpi) as (g & Hg & Hpg).
    assert (Hi' : i < n) by (apply lookup_lt_Some in Hpi; lia).
    destruct (HY i (flatten_example x)) as (y1 & Hy1 & Hc1).
    { unfold unpair. rewrite lookup_app_l by (rewrite length_fmap; lia).
      by rewrite list_lookup_fmap, Hpi. }
    destruct (HY (n + i) (flatten_example b)) as (y2 & Hy2 & Hc2).
    { unfold unpair. rewrite lookup_app_r by (rewrite length_fmap; lia).
      rewrite length_fmap, Hpl.
      replace (n + i - n) with i by lia. by rewrite list_lookup_fmap, Hpi. }
    exists g, y1, y2. split_and!; try done.
    unfold F, pair_engine, both. cbn [fst snd].
    rewrite Hpg. unfold layers. rewrite map_fst_hooked_layers, Hc1, Hc2. done. }
  case_bool_decide as HF.
  - rewrite Hr. unfold follows.
    rewrite (mapM_result_Ok_lookup F (zip xs bs) (zip_with unflatten xs gs.*1)); [done| |].
    { rewrite length_zip_with, length_zip, length_fmap. lia. }
    intros i [x b] Hi. destruct (Hpair i x b Hi) as (g & y1 & y2 & Hg & Hy1 & Hy2 & HFv).
    exists (unflatten x g.1). split.
    + apply lookup_zip_with_Some. exists x, g.1. split; [done|].
      apply lookup_zip_with_Some in Hi as (x' & b' & [= <- <-] & Hx' & Hb').
      split; [done|]. by rewrite list_lookup_fmap, Hg.
    + rewrite HFv.
      rewrite Forall_lookup in HF.
      rewrite !bool_decide_true; [done| by eapply HF | by eapply HF].
  - apply follows_intro; [by rewrite Hr|]. intros _.
    apply not_Forall_Exists in HF; [|apply _].
    apply Exists_exists in HF as (row & Hin & Hrow).
    apply list_elem_of_lookup in Hin as [j Hj].
    assert (row = []) as ->.
    { destruct row; [done|]. by destruct Hrow. }
    pose proof (lookup_lt_Some _ _ _ Hj) as Hjl. rewrite HYl in Hjl.
    unfold unpair in Hjl. rewrite length_app, !length_fmap, Hpl in Hjl.
    destruct (decide (j < n)) as [Hjn|Hjn].
    + destruct (lookup_lt_is_Some_2 (zip xs bs) j) as [[x b] Hi].
      { rewrite length_zip. lia. }
      destruct (Hpair j x b Hi) as (g & y1 & y2 & Hg & Hy1 & Hy2 & HFv).
      apply (mapM_result_raise_at F _ j (x, b) Hi). rewrite HFv.
      rewrite Hj in Hy1. injection Hy1 as <-. done.
    + destruct (lookup_lt_is_Some_2 (zip xs bs) (j - n)) as [[x b] Hi].
      { rewrite length_zip. lia. }
      destruct (Hpair (j - n) x b Hi) as (g & y1 & y2 & Hg & Hy1 & Hy2 & HFv).
      apply (mapM_result_raise_at F _ (j - n) (x, b) Hi). rewrite HFv.
      replace (n + (j - n)) with j in Hy2 by lia.
      rewrite Hj in Hy2. injection Hy2 as <-.
      by rewrite andb_false_r.
Qed.

(** ** What [attribute] leaves of the hook tables *)

Lemma remove_other (h : handle) (st : state) (j : nat) :
  h_module h ≠ j → model (remove h st) !! j = model st !! j.
Proof. intros Hne. unfold remove. simpl. by rewrite list_lookup_alter_ne. Qed.

Lemma foldl_remove_other (hs : list handle) (j : nat) : ∀ st : state,
  Forall (λ h, h_module h ≠ j) hs →
  model (foldl (λ st h, remove h st) st hs) !! j = model st !! j.
Proof.
  induction hs as [|h hs IH]; intros st Hall; simpl; [done|].
  apply Forall_cons in Hall as [Hh Hall]. rewrite IH by done. by apply remove_other.
Qed.

Lemma hook_at_remove_mono (h h' : handle) (st : state) :
  hook_at (remove h' st) h = None ∨ hook_at (remove h' st) h = hook_at st h.
Proof.
  unfold hook_at, remove. simpl.
  destruct (decide (h_module h' = h_module h)) as [Heq|Hne].
  - rewrite Heq, list_lookup_alter_eq.
    destruct (model st !! h_module h) as [m|]; simpl in *; [|by left].
    destruct (decide (h_table h = h_table h')) as [Ht|Ht].
    + rewrite Ht, get_set_table_eq.
      rewrite lookup_delete. case_decide; [by left|by right].
    + right. by rewrite get_set_table_ne.
  - right. by rewrite list_lookup_alter_ne.
Qed.

Lemma hook_at_foldl_remove_mono (hs : list handle) : ∀ (st : state) (h : handle),
  hook_at (foldl (λ st h, remove h st) st hs) h = None ∨
  hook_at (foldl (λ st h, remove h st) st hs) h = hook_at st h.
Proof.
  induction hs as [|h0 hs IH]; intros st h; simpl; [by right|].
  destruct (IH (remove h0 st) h) as [H|H]; [by left|].
  rewrite H. apply hook_at_remove_mono.
Qed.

Lemma attribute_finally_foldl (self : DeepLiftShap) (st : state) :
  attribute_finally self st =
    foldl (λ st h, remove h st) st (forward_handles self ++ backward_handles self).
Proof. unfold attribute_finally. by rewrite foldl_app. Qed.

Lemma lookup_map_eq {X Y} (f : X → Y) (l l' : list X) (i : nat) (x : X) :
  map f l' = map f l → l !! i = Some x → ∃ x', l' !! i = Some x' ∧ f x' = f x.
Proof.
  intros Hf Hi.
  assert (H : map f l' !! i = Some (f x)) by (by rewrite Hf, list_lookup_fmap, Hi).
  rewrite list_lookup_fmap in H.
  destruct (l' !! i) as [x'|]; [|done]. exists x'. split; [done|].
  by injection H.
Qed.

Lemma finally_sig (self : DeepLiftShap) (ms ms1 : list nn_module)
    (fh bh : list handle) (id id1 : nat) (self1 : DeepLiftShap) (st1 : state) :
  register_from self 0 id ms = (ms1, fh, bh, id1) →
  map _backward_hooks (model st1) = map _backward_hooks ms1 →
  map mro (model st1) = map mro ms1 → map op (model st1) = map op ms1 →
  forward_handles self1 = fh → backward_handles self1 = bh →
  map sig (model (attribute_finally self1 st1)) = map sig ms.
Proof.
  intros Hr Hbw Hmro Hop Hfh Hbh.
  destruct (attribute_finally_frame self1 st1) as [Hfr _].
  destruct (register_from_static self _ _ _ _ _ _ _ Hr) as [Hop1 Hmro1].
  assert (Hlen : length (model (attribute_finally self1 st1)) = length ms).
  { apply (f_equal length) in Hfr, Hmro, Hmro1. rewrite !length_map in *. lia. }
  apply list_eq. intros j. rewrite !list_lookup_fmap.
  destruct (ms !! j) as [m|] eqn:Hm.
  2: { apply lookup_ge_None in Hm. rewrite (proj2 (lookup_ge_None _ _)); [done|lia]. }
  pose proof (register_from_lookup self ms _ _ _ _ _ _ Hr j m Hm) as Hreg.
  destruct (lookup_lt_is_Some_2 (model st1) j) as [m2 Hm2].
  { apply (f_equal length) in Hmro, Hmro1. rewrite !length_map in *.
    apply lookup_lt_Some in Hm. lia. }
  destruct (lookup_map_eq frame _ _ j m2 Hfr Hm2) as (m' & Hm' & Hfm).
  rewrite Hm'. simpl. f_equal. unfold sig.
  assert (Hmro' : mro m' = mro m).
  { injection Hfm as -> _ _ _.
    destruct (lookup_map_eq mro _ _ j m Hmro1 Hm) as (m1 & Hm1 & <-).
    destruct (lookup_map_eq mro _ _ j m1 Hmro Hm1) as (m2' & Hm2' & <-).
    rewrite Hm2 in Hm2'. by injection Hm2' as <-. }
  assert (Hop' : op m' = op m).
  { injection Hfm as _ -> _ _.
    destruct (lookup_map_eq op _ _ j m Hop1 Hm) as (m1 & Hm1 & <-).
    destruct (lookup_map_eq op _ _ j m1 Hop Hm1) as (m2' & Hm2' & <-).
    rewrite Hm2 in Hm2'. by injection Hm2' as <-. }
  rewrite Hmro', Hop'. f_equal.
  rewrite attribute_finally_foldl, Hfh, Hbh in Hm'.
  destruct (_can_register_hook self m) eqn:Hcan.
  - destruct Hreg as (k & _ & _ & Hm1 & _ & _ & Hin).
    destruct (lookup_map_eq _backward_hooks _ _ j _ Hbw Hm1) as (m2' & Hm2' & Hb2).
    rewrite Hm2 in Hm2'. injection Hm2' as <-. simpl in Hb2.
    apply can_register_hook_iff in Hcan as [Hsz _].
    apply map_size_empty_inv in Hsz. rewrite Hsz in *.
    apply map_eq. intros i. rewrite lookup_empty.
    pose proof (hook_at_foldl_remove_mono (fh ++ bh) st1 (mk_handle j BackwardTable i))
      as Hmono.
    unfold hook_at in Hmono. cbn [h_module h_table h_id get_table] in Hmono.
    rewrite Hm', Hm2 in Hmono. simpl in Hmono.
    destruct (decide (i = S (S k))) as [->|Hne].
    + pose proof (hook_at_foldl_remove (fh ++ bh) st1 (mk_handle j BackwardTable (S (S k))))
        as Hrem.
      unfold hook_at in Hrem. cbn [h_module h_table h_id get_table] in Hrem.
      rewrite Hm' in Hrem. simpl in Hrem. apply Hrem.
      apply elem_of_app. right. exact Hin.
    + rewrite Hb2, insert_empty, lookup_singleton_ne in Hmono by done.
      by destruct Hmono.
  - destruct (lookup_map_eq _backward_hooks _ _ j _ Hbw Hreg) as (m2' & Hm2' & Hb2).
    rewrite Hm2 in Hm2'. injection Hm2' as <-.
    rewrite foldl_remove_other in Hm'.
    + rewrite Hm2 in Hm'. by injection Hm' as <-.
    + apply Forall_forall. intros h Hh Heq.
      destruct (register_from_handles self ms _ _ _ _ _ _ Hr h Hh)
        as (j' & m0 & Hj' & Hm0 & Hcan0 & _).
      simpl in Hj'. rewrite Heq in Hj'. subst j'. rewrite Hm in Hm0.
      injection Hm0 as <-. by rewrite Hcan in Hcan0.
Qed.

Lemma Forall2_map_eq {X Y} (f : X → Y) (l l' : list X) :
  Forall2 (λ a b, f b = f a) l l' → map f l' = map f l.
Proof. induction 1; simpl; [done|]. by f_equal. Qed.

Lemma attribute_sig (self : DeepLiftShap) (st : state) (xs bs : Tensor3) :
  forward_handles self = [] → backward_handles self = [] →
  map sig (model (attribute xs bs (self, st)).2.2) = map sig (model st).
Proof.
  intros Hf0 Hb0. unfold attribute. case_bool_decide; [|done].
  unfold attribute_try. rewrite gradient_pass_unfold.
  destruct (register_from self 0 (next_id st) (model st))
    as [[[ms1 fh] bh] id1] eqn:Er.
  pose proof (forward_static ms1 (map flatten_example (xs ++ bs))) as Hst.
  destruct (forward ms1 (map flatten_example (xs ++ bs))) as [[ms2 tape] outputs].
  cbn [fst] in Hst.
  assert (Hbw : map _backward_hooks ms2 = map _backward_hooks ms1).
  { apply Forall2_map_eq. eapply Forall2_impl; [exact Hst|]. by intros a b' (?&?&?&?&?). }
  assert (Hmro : map mro ms2 = map mro ms1).
  { apply Forall2_map_eq. eapply Forall2_impl; [exact Hst|]. by intros a b' (?&?&?&?&?). }
  assert (Hop : map op ms2 = map op ms1).
  { apply Forall2_map_eq. eapply Forall2_impl; [exact Hst|]. by intros a b' (?&?&?&?&?). }
  assert (Hfin : ∀ st1, model st1 = ms2 →
            map sig (model (attribute_finally (add_handles self fh bh) st1))
            = map sig (model st)).
  { intros st1 Hm. eapply finally_sig; [exact Er|by rewrite Hm..| |].
    - simpl. by rewrite Hf0.
    - simpl. by rewrite Hb0. }
  cbv zeta.
  destruct outputs as [Y|e]; [|by apply Hfin].
  destruct (backward ms2 tape (grad_of_first_chunk_sum Y)) as [g|e];
    [|by apply Hfin].
  destruct (convergence_deltas _ _ _ _) as [d|e]; [|by apply Hfin].
  cbn [fst snd]. apply Hfin. apply report_model.
Qed.

Lemma clean_backward_sig (ms ms' : list nn_module) :
  map sig ms' = map sig ms → clean_backward ms → clean_backward ms'.
Proof.
  unfold clean_backward. rewrite !Forall_lookup. intros Hs Hc i m' Hm'.
  destruct (lookup_map_eq sig ms' ms i m' (eq_sym Hs) Hm') as (m & Hm & Hsig).
  injection Hsig as _ _ Hb. rewrite <- Hb. by eapply Hc.
Qed.

Lemma hooked_layers_sig (self : DeepLiftShap) (ms ms' : list nn_module) :
  map sig ms' = map sig ms → hooked_layers self ms' = hooked_layers self ms.
Proof.
  revert ms'. induction ms as [|m ms IH]; intros [|m' ms'] Hs; simpl in *; try done.
  injection Hs as Hmro Hop Hbw Hs. rewrite (IH ms' Hs). f_equal.
  unfold _can_register_hook, isinstance.
  by rewrite Hmro, Hop, Hbw.
Qed.

Lemma check_modules_sig (ms ms' : list nn_module) :
  map sig ms' = map sig ms → check_modules ms' = check_modules ms.
Proof.
  revert ms'. induction ms as [|m ms IH]; intros [|m' ms'] Hs; simpl in *; try done.
  injection Hs as Hmro _ _ Hs. unfold isinstance.
  rewrite Hmro, (IH ms' Hs). done.
Qed.

(** ** The projector and the averages, example by example *)

Lemma project_rows (k A L : nat) (g x r : Tensor3) :
  0 < k → regular3 k A L g → regular3 k A L x → regular3 k A L r →
  project Float g x r =
    map (λ t : Mat * Mat * Mat, project_example A t.1.1 t.1.2 t.2) (zip (zip g x) r).
Proof.
  intros Hk Hg Hx Hr.
  destruct (project_spec Float k A L g x r Hg Hx Hr) as [[Hlen _] _].
  assert (Hgl : length g = k) by apply Hg.
  assert (Hxl : length x = k) by apply Hx.
  assert (Hrl : length r = k) by apply Hr.
  apply list_eq. intros j. destruct (decide (j < k)) as [Hj|Hj].
  - destruct (lookup_lt_is_Some_2 g j) as [gj Hgj]; [lia|].
    destruct (lookup_lt_is_Some_2 x j) as [xj Hxj]; [lia|].
    destruct (lookup_lt_is_Some_2 r j) as [rj Hrj]; [lia|].
    unfold project. rewrite (regular3_shape3 k A L x Hx).
    rewrite decide_False by lia. cbn [fst snd].
    rewrite (project_fold_lookup Float g x r j gj xj rj _ Hgj Hxj Hrj _
               (map (map (λ _ : Q, 0%Q)) rj)).
    2: { unfold zeros_like. by rewrite list_lookup_fmap, Hrj. }
    rewrite list_lookup_fmap.
    assert (Hz : zip (zip g x) r !! j = Some (gj, xj, rj)).
    { apply lookup_zip_with_Some. exists (gj, xj), rj. split_and!; try done.
      apply lookup_zip_with_Some. by exists gj, xj. }
    by rewrite Hz.
  - rewrite !(proj2 (lookup_ge_None _ _)); [done| |lia].
    rewrite length_map, !length_zip. lia.
Qed.

Lemma hypothetical_attributions_regular (k A L : nat) (g x r : Tensor3)
    (dg dx dr : dtype) :
  regular3 k A L g → regular3 k A L x → regular3 k A L r →
  hypothetical_attributions (PyTuple [PyTensor dg g]) (PyTuple [PyTensor dx x])
                            (PyTuple [PyTensor dr r])
  = Ok (PyTuple [PyTensor dx (project dx g x r)]).
Proof.
  intros Hg Hx Hr. unfold hypothetical_attributions, check_shape. cbn [one_tensor].
  rewrite bind_Ok. cbn [fst snd].
  destruct (decide (shape3 g = shape3 g)); [|done]. rewrite !bind_Ok. cbn [fst snd].
  destruct (decide (shape3 x = shape3 g)) as [?|Hn].
  2: { destruct Hn. by rewrite (regular3_shape3 k A L x), (regular3_shape3 k A L g). }
  rewrite !bind_Ok. cbn [fst snd].
  destruct (decide (shape3 r = shape3 g)) as [?|Hn]; [done|].
  destruct Hn. by rewrite (regular3_shape3 k A L r), (regular3_shape3 k A L g).
Qed.

Lemma project_example_rect (A L : nat) (g x b : Mat) :
  rect A L g → rect A L x → rect A L b → rect A L (project_example A g x b).
Proof.
  intros Hg Hx Hb.
  assert (H1 : ∀ e : Mat, rect A L e → regular3 1 A L [e]).
  { intros e He. split; [done|]. constructor; [exact He|constructor]. }
  pose proof (project_rows 1 A L [g] [x] [b] (Nat.lt_0_1) (H1 _ Hg) (H1 _ Hx) (H1 _ Hb))
    as Hp.
  destruct (project_spec Float 1 A L [g] [x] [b] (H1 _ Hg) (H1 _ Hx) (H1 _ Hb)) as [[_ Hreg] _].
  rewrite Hp in Hreg. simpl in Hreg. by apply Forall_cons in Hreg as [Hreg _].
Qed.

Lemma rect_same_shape2 (A L : nat) (e e' : Mat) :
  rect A L e → rect A L e' → same_shape2 e e' = true.
Proof.
  intros [He1 He2] [He1' He2']. apply same_shape2_iff.
  apply list_eq. intros i. rewrite !list_lookup_fmap.
  destruct (decide (i < A)) as [Hi|Hi].
  - destruct (lookup_lt_is_Some_2 e i) as [r Hr]; [lia|].
    destruct (lookup_lt_is_Some_2 e' i) as [r' Hr']; [lia|].
    rewrite Hr, Hr'. simpl. f_equal.
    rewrite Forall_lookup in He2, He2'.
    by rewrite (He2 _ _ Hr), (He2' _ _ Hr').
  - by rewrite !(proj2 (lookup_ge_None _ _)) by lia.
Qed.

Lemma foldl_plus_rect (A L : nat) (rest : list Mat) : ∀ e : Mat,
  rect A L e → Forall (rect A L) rest →
  rect A L (foldl (zip_with (zip_with Qplus)) e rest).
Proof.
  induction rest as [|e' rest IH]; intros e He Hr; simpl; [done|].
  apply Forall_cons in Hr as [He' Hr]. apply IH; [|done]. by apply rect_zip_with.
Qed.

Lemma average_ok (X : Tensor3) (hypothetical : bool) (N A L k : nat)
    (group : list Mat) :
  regular3 N A L X → k < N → group ≠ [] → Forall (rect A L) group →
  ∃ v, average X hypothetical k group = Ok v ∧ rect A L v.
Proof.
  intros HX Hk Hne Hg. destruct group as [|e rest]; [done|].
  apply Forall_cons in Hg as [He Hrest].
  unfold average, stack_mean, stack.
  assert (Hall : forallb (same_shape2 e) rest = true).
  { apply forallb_forall. intros e' Hin. apply list_elem_of_In in Hin.
    rewrite Forall_forall in Hrest. by apply (rect_same_shape2 A L), Hrest. }
  rewrite Hall, !bind_Ok.
  set (avg := map (map _) _).
  assert (Havg : rect A L avg).
  { unfold avg. apply rect_map. by apply foldl_plus_rect. }
  destruct hypothetical; [by exists avg|].
  destruct (regular3_lookup N A L X k HX Hk) as (Xz & HXz & HXr).
  rewrite HXz. cbn [or_raise]. rewrite bind_Ok.
  rewrite (ew2_rect Qmult A L) by done.
  eexists. split; [done|]. by apply rect_zip_with.
Qed.

(** ** The driver, batch by batch *)

Lemma averaged_app (X : Tensor3) (hyp : bool) (ns : nat) (D D' : list Mat)
    (k : nat) (v : Mat) :
  (k + 1) * ns ≤ length D → averaged X hyp ns D k v → averaged X hyp ns (D ++ D') k v.
Proof.
  unfold averaged. intros Hk H.
  rewrite drop_app_le by lia.
  rewrite take_app_le by (rewrite length_drop; lia). done.
Qed.

Lemma averaged_extend (X : Tensor3) (hyp : bool) (ns : nat) (D D' : list Mat)
    (z : nat) (vs : list Mat) :
  z * ns ≤ length D → Forall2 (averaged X hyp ns D) (seq 0 z) vs →
  Forall2 (averaged X hyp ns (D ++ D')) (seq 0 z) vs.
Proof.
  intros Hz H. apply Forall2_same_length_lookup in H as [Hl H].
  apply Forall2_same_length_lookup. split; [done|].
  intros i k v Hk Hv. apply averaged_app; [|by eapply H].
  apply lookup_seq in Hk as [-> Hi]. nia.
Qed.

Lemma averaged_det (X : Tensor3) (hyp : bool) (ns : nat) (D : list Mat)
    (ks : list nat) : ∀ vs vs' : list Mat,
  Forall2 (averaged X hyp ns D) ks vs → Forall2 (averaged X hyp ns D) ks vs' →
  vs = vs'.
Proof.
  induction ks as [|k ks IH]; intros vs vs' H H'.
  - apply Forall2_nil_inv_l in H, H'. by subst.
  - apply Forall2_cons_inv_l in H as (v & vs0 & Hv & H & ->).
    apply Forall2_cons_inv_l in H' as (v' & vs0' & Hv' & H' & ->).
    unfold averaged in Hv, Hv'. rewrite Hv in Hv'. injection Hv' as <-.
    f_equal. by apply IH.
Qed.

Lemma drain_spec (X : Tensor3) (hyp : bool) (ns N A L : nat) (D : list Mat) :
  ns ≠ 0 → regular3 N A L X → Forall (rect A L) D → length D ≤ N * ns →
  ∀ (fuel : nat) (l : loop),
    length (attr_ l) ≤ fuel → z l * ns ≤ length D →
    attr_ l = drop (z l * ns) D →
    Forall2 (averaged X hyp ns D) (seq 0 (z l)) (attributions l) →
    ∃ l', drain X ns hyp fuel l = Ok l' ∧
          z l' = length D / ns ∧ attr_ l' = drop (z l' * ns) D ∧
          Forall2 (averaged X hyp ns D) (seq 0 (z l')) (attributions l') ∧
          Xi l' = Xi l ∧ rj l' = rj l ∧ references_ l' = references_ l ∧
          world l' = world l ∧ draws l' = draws l.
Proof.
  intros Hns HX HD HDl. induction fuel as [|fuel IH]; intros l Hfuel Hz Hattr Hav.
  - exists l. simpl. split_and!; try done.
    assert (Hlen : length (attr_ l) = 0) by lia.
    rewrite Hattr, length_drop in Hlen.
    apply (Nat.div_unique _ _ _ 0); lia.
  - cbn [drain]. destruct (decide (ns ≤ length (attr_ l))) as [Hge|Hlt].
    + assert (Hlen : length (attr_ l) = length D - z l * ns)
        by (by rewrite Hattr, length_drop).
      destruct (average_ok X hyp N A L (z l) (take ns (attr_ l))) as (v & Hv & Hvr).
      * done.
      * nia.
      * intros Hnil. apply (f_equal length) in Hnil.
        rewrite length_take in Hnil. simpl in Hnil. lia.
      * apply Forall_take. rewrite Hattr. by apply Forall_drop.
      * rewrite Hv, bind_Ok.
        destruct (IH (mk_loop (Xi l) (rj l) (drop ns (attr_ l))
                              (attributions l ++ [v]) (S (z l))
                              (references_ l) (world l) (draws l)))
          as (l' & Hl' & Hrest).
        -- cbn [attr_]. rewrite length_drop. lia.
        -- cbn [z]. lia.
        -- cbn [attr_ z]. rewrite Hattr, drop_drop. f_equal. lia.
        -- cbn [attributions z]. rewrite seq_S. apply Forall2_app; [done|].
           constructor; [|constructor]. unfold averaged. simpl.
           by rewrite <- Hattr.
        -- exists l'. split; [done|]. exact Hrest.
    + exists l. split_and!; try done.
      assert (Hlen : length (attr_ l) = length D - z l * ns)
        by (by rewrite Hattr, length_drop).
      apply (Nat.div_unique _ _ _ (length D - z l * ns)); lia.
Qed.

Lemma gather_seq (X : Tensor3) (N ns : nat) (pend : list nat) :
  length X = N → ns ≠ 0 → Forall (λ j, j < N * ns) pend →
  gather X (map (λ j, j / ns) pend) = Ok (map (λ j, X !!! (j / ns)) pend).
Proof.
  intros HN Hns Hp. unfold gather. rewrite (mapM_result_fmap (λ j, j / ns)).
  apply mapM_result_Ok. intros j Hj. rewrite Forall_forall in Hp.
  specialize (Hp j Hj).
  assert (Hlt : j / ns < length X).
  { rewrite HN. apply Nat.Div0.div_lt_upper_bound. lia. }
  destruct (lookup_lt_is_Some_2 X _ Hlt) as [e He].
  rewrite He. simpl. f_equal. symmetry. by apply list_lookup_total_correct.
Qed.

Lemma mapM_bind_pure {P G S} (f : P → result G) (h : P → G → S) (l : list P) :
  mapM_result (λ j, g ← f j; Ok (h j g)) l =
    (gs ← mapM_result f l; Ok (zip_with h l gs)).
Proof.
  induction l as [|j l IH]; csimpl; [done|]. rewrite IH.
  destruct (f j); csimpl; [|done]. by destruct (mapM_result f l).
Qed.

Lemma groups_seq {Y} (F : nat → Y) (k : nat) : ∀ N a,
  groups N k (map F (seq a (N * k))) =
    map (λ zi, map F (seq (a + zi * k) k)) (seq 0 N).
Proof.
  induction N as [|N IH]; intros a; [done|].
  cbn [groups]. replace (S N * k) with (k + N * k) by lia.
  rewrite seq_app, map_app.
  rewrite take_app_length', drop_app_length' by (by rewrite length_map, length_seq).
  rewrite IH. cbn [seq map]. f_equal.
  - f_equal. f_equal. lia.
  - rewrite <- seq_shift, map_map. apply map_ext. intros zi.
    f_equal. f_equal. lia.
Qed.

Lemma rect_shape2 (A L : nat) (e e' : Mat) :
  rect A L e → rect A L e' → shape2 e = shape2 e'.
Proof.
  intros [H1 H2] [H1' H2']. unfold shape2. rewrite H1, H1'. f_equal.
  destruct e as [|r e], e' as [|r' e']; simpl in *; try done; try lia.
  apply Forall_cons in H2 as [-> _]. apply Forall_cons in H2' as [-> _]. done.
Qed.

Lemma cat_singletons (A L : nat) (rs : list Mat) :
  rs ≠ [] → Forall (rect A L) rs → cat (map (λ r, [r]) rs) = Ok rs.
Proof.
  intros Hne Hr. unfold cat.
  assert (Hc : concat (map (λ r : Mat, [r]) rs) = rs).
  { clear. induction rs as [|r rs IH]; simpl; [done|]. by rewrite IH. }
  rewrite Hc. destruct rs as [|e rest]; [done|]. simpl.
  apply Forall_cons in Hr as [He Hrest].
  assert (Hall : forallb (λ e' : Mat, bool_decide (shape2 e' = shape2 e)) rest = true).
  { apply forallb_forall. intros e' Hin. apply list_elem_of_In in Hin.
    rewrite Forall_forall in Hrest. apply bool_decide_eq_true.
    by apply (rect_shape2 A L); [apply Hrest|]. }
  by rewrite Hall.
Qed.

Lemma is_ok_bind_false {P R} (r : result P) (k : P → result R) :
  is_ok r = false → is_ok (r ≫= k) = false.
Proof. by destruct r. Qed.

Lemma bind_Raise {P R} (e : exn) (k : P → result R) : (Raise e ≫= k) = Raise e.
Proof. done. Qed.

Lemma averaged_rect (X : Tensor3) (hyp : bool) (N A L ns : nat)
    (all atts : list Mat) :
  regular3 N A L X → ns ≠ 0 → length all = N * ns → Forall (rect A L) all →
  Forall2 (averaged X hyp ns all) (seq 0 N) atts → regular3 N A L atts.
Proof.
  intros HX Hns Hlen Hall Hav.
  apply Forall2_same_length_lookup in Hav as [Hl Hav].
  rewrite length_seq in Hl. split; [done|].
  apply Forall_lookup. intros k v Hv.
  assert (Hk : k < N) by (apply lookup_lt_Some in Hv; lia).
  specialize (Hav k k v (lookup_seq_lt _ _ _ Hk) Hv). unfold averaged in Hav.
  destruct (average_ok X hyp N A L k (take ns (drop (k * ns) all)) HX Hk)
    as (v' & Hv' & Hr).
  - intros Hnil. apply (f_equal length) in Hnil.
    rewrite length_take, length_drop in Hnil. simpl in Hnil. nia.
  - by apply Forall_take, Forall_drop.
  - rewrite Hv' in Hav. injection Hav as <-. exact Hr.
Qed.

Lemma stack_regular (N A L : nat) (l : Tensor3) :
  regular3 N A L l → N ≠ 0 → stack l = Ok l.
Proof.
  intros [Hl Hall] HN. destruct l as [|e rest]; [simpl in Hl; lia|].
  apply Forall_cons in Hall as [He Hrest]. unfold stack.
  assert (H : forallb (same_shape2 e) rest = true).
  { apply forallb_forall. intros e' Hin. apply list_elem_of_In in Hin.
    rewrite Forall_forall in Hrest. by apply (rect_same_shape2 A L), Hrest. }
  by rewrite H.
Qed.

Section batch_invariance.

Variables (N A L : nat) (X : Tensor3) (f : generator) (ns : nat).
Variables (rr hyp : bool) (thr : Q) (pcd : bool) (rs : Z) (ms0 : list nn_module).
Hypothesis HX : regular3 N A L X.
Hypothesis Hgen : ∀ (x : Mat) (s : Z), rect A L x →
                    ∃ r, f [x] 1 (Seeded s) = [[r]] ∧ rect A L r.
Hypothesis Hclean : clean_backward ms0.

Abbreviation PA := (pair_attribution X f ns rs A thr pcd ms0).
Abbreviation PR := (pair_reference X f ns rs).
Abbreviation inv := (loop_inv X f ns rr hyp thr pcd rs A L ms0).

Lemma seeded_reference_ok (x : Mat) (j : nat) :
  rect A L x →
  f [x] 1 (Seeded (rs + Z.of_nat j)) = [[seeded_reference f rs x j]] ∧
  rect A L (seeded_reference f rs x j).
Proof.
  intros Hx. destruct (Hgen x (rs + Z.of_nat j)%Z Hx) as (r & Hr & Hrect).
  unfold seeded_reference. rewrite Hr. done.
Qed.

Lemma X_row (j : nat) : ns ≠ 0 → j < N * ns → rect A L (X !!! (j / ns)).
Proof.
  intros Hns Hj.
  assert (Hlt : j / ns < N) by (apply Nat.Div0.div_lt_upper_bound; lia).
  destruct (regular3_lookup N A L X _ HX Hlt) as (e & He & Hr).
  by rewrite (list_lookup_total_correct _ _ _ He).
Qed.

Lemma batch_references_seq (pend : list nat) (draws : nat) :
  ns ≠ 0 → pend ≠ [] → Forall (λ j, j < N * ns) pend →
  batch_references (RefFunc f) (Some rs) (map (λ j, X !!! (j / ns)) pend)
                   (map (λ j, j / ns) pend) (map (λ j, j mod ns) pend) draws
  = Ok (map PR pend, draws) ∧
  regular3 (length pend) A L (map (λ j, X !!! (j / ns)) pend) ∧
  regular3 (length pend) A L (map PR pend).
Proof.
  intros Hns Hne Hp. rewrite Forall_forall in Hp.
  assert (HR : Forall (rect A L) (map PR pend)).
  { apply Forall_forall. intros r Hr. apply list_elem_of_fmap in Hr as (j & -> & Hj).
    apply seeded_reference_ok, X_row; [done|]. by apply Hp. }
  split_and!.
  - unfold batch_references.
    change (zip (map (λ j, X !!! (j / ns)) pend) (map (λ j, j mod ns) pend))
      with (zip ((λ j, X !!! (j / ns)) <$> pend) ((λ j, j mod ns) <$> pend)).
    rewrite zip_fmap, mapM_result_fmap.
    rewrite (mapM_result_Ok _ (λ j, [PR j])).
    + rewrite bind_Ok.
      change (map (λ j, [PR j]) pend) with ((λ j, [PR j]) <$> pend).
      rewrite (list_fmap_compose PR (λ r, [r])).
      rewrite (cat_singletons A L); [done| |done].
      intros Hnil. apply fmap_nil_inv in Hnil. done.
    + intros j Hj. cbn [fst snd].
      destruct (seeded_reference_ok (X !!! (j / ns)) (j mod ns)) as [Hr _].
      { apply X_row; [done|]. by apply Hp. }
      rewrite Hr. done.
  - split; [by rewrite length_map|].
    apply Forall_forall. intros x Hx. apply list_elem_of_fmap in Hx as (j & -> & Hj).
    apply X_row; [done|]. by apply Hp.
  - split; [by rewrite length_map|]. exact HR.
Qed.

Lemma run_batch_spec (l : loop) (s i : nat) (D : list Mat) :
  inv s i D l → s < i → i ≤ N * ns →
  match mapM_result PA (seq s (i - s)) with
  | Ok attrs =>
      ∃ l', run_batch X (RefFunc f) ns rr hyp thr pcd (Some rs) l = Ok l' ∧
            inv i i (D ++ attrs) l'
  | Raise _ => is_ok (run_batch X (RefFunc f) ns rr hyp thr pcd (Some rs) l) = false
  end.
Proof.
  intros (Hsi & HXi & Hrj & HD & HDr & Hz & Hattr & Hav & Hrefs & Hsig) Hlt Hn.
  assert (Hns : ns ≠ 0) by (intros ->; lia).
  set (pend := seq s (i - s)) in *.
  assert (Hpend : Forall (λ j, j < N * ns) pend).
  { apply Forall_forall. intros j Hj. apply elem_of_seq in Hj. lia. }
  assert (Hpne : pend ≠ []).
  { intros Hnil. apply (f_equal length) in Hnil. unfold pend in Hnil.
    rewrite length_seq in Hnil. simpl in Hnil. lia. }
  assert (Hpl : length pend = i - s) by apply length_seq.
  assert (Hseq : seq 0 i = seq 0 s ++ pend).
  { unfold pend. replace (seq 0 i) with (seq 0 (s + (i - s))) by (f_equal; lia).
    by rewrite seq_app. }
  destruct (batch_references_seq pend (draws l) Hns Hpne Hpend)
    as (Hbr & HXreg & HRreg).
  unfold run_batch. rewrite HXi, Hrj.
  rewrite (gather_seq X N ns) by (done || apply HX).
  rewrite bind_Ok, Hbr, bind_Ok. cbn [fst snd].
  unfold __init__. rewrite (check_modules_sig ms0 (model (world l)) Hsig).
  destruct (check_modules ms0) as [[]|e] eqn:Hchk.
  2: { destruct pend as [|j0 pend']; [done|]. cbn [mapM_result].
       assert (PA j0 = Raise e) as ->
         by (unfold pair_attribution, __init__; by rewrite Hchk).
       done. }
  rewrite !bind_Ok.
  set (self := mk_engine default_ignore_layers default_eps thr pcd [] []).
  set (x := λ j, X !!! (j / ns)).
  assert (HPA : ∀ j, PA j =
            (g ← pair_engine default_eps (hooked_layers self ms0) (x j) (PR j);
             Ok (project_example A g (x j) (PR j)))).
  { intros j. unfold pair_attribution, __init__. rewrite Hchk. done. }
  rewrite (mapM_result_ext _ _ _ HPA), mapM_bind_pure.
  pose proof (attribute_pairs (length pend) A L self (world l) _ _ HXreg HRreg
                (clean_backward_sig _ _ Hsig Hclean)) as Hfol.
  rewrite (hooked_layers_sig self _ _ Hsig) in Hfol.
  change (zip (map (λ j, X !!! (j / ns)) pend) (map PR pend))
    with (zip (x <$> pend) (PR <$> pend)) in Hfol.
  rewrite zip_fmap, mapM_result_fmap in Hfol. cbn [fst snd] in Hfol.
  change (eps self) with default_eps in Hfol.
  fold x.
  destruct (mapM_result (λ j, pair_engine default_eps (hooked_layers self ms0)
                                (x j) (PR j)) pend) as [gs|e] eqn:Eg.
  2: { unfold follows in Hfol. fold x in Hfol.
       destruct (attribute (map x pend) (map PR pend) (self, world l)) as [r c'].
       simpl in Hfol |- *. by destruct r. }
  unfold follows, id in Hfol. fold x in Hfol. rewrite bind_Ok.
  pose proof (attribute_sig self (world l) (map x pend) (map PR pend) eq_refl eq_refl)
    as Hsig'.
  destruct (attribute (map x pend) (map PR pend) (self, world l)) as [r c'] eqn:Eattr.
  cbn [fst snd] in Hfol, Hsig' |- *. subst r.
  destruct (attribute_gap _ A L _ _ self (world l) gs c' HXreg HRreg Eattr)
    as (_ & _ & Hgreg & _).
  rewrite bind_Ok, (hypothetical_attributions_regular (length pend) A L) by done.
  rewrite bind_Ok. cbn [first_tensor]. rewrite bind_Ok.
  destruct (project_spec Float _ A L gs (map x pend) (map PR pend) Hgreg HXreg HRreg)
    as [Hpreg _].
  rewrite (project_rows (length pend) A L) by (done || lia).
  assert (Hattrs : map (λ t : Mat * Mat * Mat, project_example A t.1.1 t.1.2 t.2)
                       (zip (zip gs (map x pend)) (map PR pend))
                   = zip_with (λ j g, project_example A g (x j) (PR j)) pend gs).
  { clear. revert gs. induction pend as [|j pend IH]; intros [|g gs]; simpl; try done.
    by rewrite IH. }
  rewrite (project_rows (length pend) A L) in Hpreg by (done || lia).
  rewrite Hattrs in Hpreg |- *.
  set (attrs := zip_with _ pend gs) in *.
  assert (Hal : length attrs = i - s) by (destruct Hpreg as [-> _]; done).
  assert (HDl : length D = s).
  { apply mapM_result_length in HD. by rewrite HD, length_seq. }
  assert (Hzs : z l * ns ≤ s).
  { rewrite Hz. rewrite Nat.mul_comm. apply Nat.Div0.mul_div_le. }
  destruct (drain_spec X hyp ns N A L (D ++ attrs) Hns HX) with
    (fuel := length (attr_ l ++ attrs))
    (l := mk_loop (map (λ j, j / ns) pend) (map (λ j, j mod ns) pend)
                  (attr_ l ++ attrs) (attributions l) (z l) (references_ l)
                  c'.2 (draws l))
    as (l1 & Hl1 & Hz1 & Hattr1 & Hav1 & _ & _ & Href1 & Hw1 & _).
  - apply Forall_app. split; [done|]. apply Hpreg.
  - rewrite length_app. lia.
  - done.
  - cbn [z]. rewrite length_app. lia.
  - cbn [attr_ z]. rewrite Hattr. rewrite drop_app_le by lia. done.
  - cbn [attributions z]. apply averaged_extend; [lia|done].
  - rewrite Hl1, bind_Ok. eexists. split; [done|].
    rewrite length_app, HDl, Hal in Hz1.
    replace (s + (i - s)) with i in Hz1 by lia.
    split_and!; cbn [Xi rj attr_ attributions z references_ world].
    + done.
    + by rewrite Nat.sub_diag.
    + by rewrite Nat.sub_diag.
    + rewrite Hseq, mapM_result_app, HD, bind_Ok.
      rewrite (mapM_result_ext _ _ _ HPA), mapM_bind_pure, Eg. done.
    + apply Forall_app. split; [done|]. apply Hpreg.
    + done.
    + done.
    + done.
    + rewrite Href1. cbn [references_]. rewrite Hrefs. destruct rr; [|done].
      by rewrite Hseq, map_app.
    + rewrite Hw1. cbn [world]. by rewrite Hsig'.
Qed.

Lemma for_loop_spec (bs : Z) : ∀ (m i s : nat) (l : loop) (D : list Mat),
  i + m = N * ns → inv s i D l → (s < i → 0 < m) →
  match mapM_result PA (seq s (N * ns - s)) with
  | Ok rest =>
      ∃ l', for_loop X (RefFunc f) ns bs rr hyp thr pcd (Some rs) (N * ns)
                     (seq i m) l = Ok l' ∧
            inv (N * ns) (N * ns) (D ++ rest) l'
  | Raise _ =>
      is_ok (for_loop X (RefFunc f) ns bs rr hyp thr pcd (Some rs) (N * ns)
                      (seq i m) l) = false
  end.
Proof.
  induction m as [|m IH]; intros i s l D Him Hinv Hpend.
  - assert (Hs : s ≤ i) by apply Hinv.
    assert (s = i) as -> by (destruct (decide (s < i)) as [H|H]; [specialize (Hpend H)|]; lia).
    replace (N * ns - i) with 0 by lia. cbn [seq mapM_result for_loop].
    exists l. split; [done|]. rewrite app_nil_r.
    replace (N * ns) with i by lia. done.
  - cbn [seq for_loop]. unfold body.
    assert (Hns : ns ≠ 0) by (intros ->; lia).
    rewrite decide_False by done.
    destruct Hinv as (Hsi & HXi & Hrj & HD & HDr & Hz & Hattr & Hav & Hrefs & Hsig).
    set (l1 := mk_loop (Xi l ++ [i / ns]) (rj l ++ [i mod ns]) (attr_ l)
                       (attributions l) (z l) (references_ l) (world l) (draws l)).
    assert (Hseq : seq s (S i - s) = seq s (i - s) ++ [i]).
    { replace (S i - s) with (S (i - s)) by lia. rewrite seq_S.
      do 2 f_equal. lia. }
    assert (Hinv1 : inv s (S i) D l1).
    { split_and!; cbn [Xi rj attr_ attributions z references_ world l1]; try done.
      - lia.
      - by rewrite Hseq, map_app, HXi.
      - by rewrite Hseq, map_app, Hrj. }
    cbv zeta. fold l1.
    destruct (decide (Z.of_nat (length (Xi l1)) = bs ∨ i = N * ns - 1)) as [Htr|Hno].
    + pose proof (run_batch_spec l1 s (S i) D Hinv1) as Hrb.
      assert (Hsplit : seq s (N * ns - s) = seq s (S i - s) ++ seq (S i) (N * ns - S i)).
      { replace (N * ns - s) with ((S i - s) + (N * ns - S i)) by lia.
        rewrite seq_app. do 2 f_equal. lia. }
      rewrite Hsplit, mapM_result_app.
      destruct (mapM_result PA (seq s (S i - s))) as [attrs|e].
      * destruct Hrb as (l2 & Hl2 & Hinv2); [lia..|].
        rewrite Hl2, !bind_Ok.
        specialize (IH (S i) (S i) l2 (D ++ attrs)).
        destruct (mapM_result PA (seq (S i) (N * ns - S i))) as [rest|e].
        -- rewrite bind_Ok. rewrite app_assoc. apply IH; [lia|done|lia].
        -- rewrite bind_Raise. apply IH; [lia|done|lia].
      * rewrite bind_Raise. apply is_ok_bind_false. apply Hrb; lia.
    + rewrite bind_Ok. apply IH; [lia|done|]. intros _.
      destruct m; [|lia]. destruct Hno. right. lia.
Qed.

Lemma driver_spec (bs : Z) (st : state) :
  map sig (model st) = map sig ms0 →
  match mapM_result PA (seq 0 (N * ns)) with
  | Ok all =>
      Forall (rect A L) all ∧
      ∃ atts, Forall2 (averaged X hyp ns all) (seq 0 (N * ns / ns)) atts ∧
        deep_lift_shap X (RefFunc f) ns bs rr hyp thr pcd (Some rs) st =
          (t ← stack atts;
           if rr then
             match N * ns with
             | 0 => Raise RuntimeError
             | S _ => Ok (t, Some (groups N ns (map PR (seq 0 (N * ns)))))
             end
           else Ok (t, None))
  | Raise _ =>
      is_ok (deep_lift_shap X (RefFunc f) ns bs rr hyp thr pcd (Some rs) st) = false
  end.
Proof.
  intros Hst. unfold deep_lift_shap, deep_lift_shap_loop.
  assert (HN : length X = N) by apply HX. rewrite HN.
  pose proof (for_loop_spec bs (N * ns) 0 0 (mk_loop [] [] [] [] 0 [] st 0) []) as Hfl.
  rewrite Nat.sub_0_r in Hfl.
  destruct (mapM_result PA (seq 0 (N * ns))) as [all|e].
  - destruct Hfl as (l' & Hl' & Hinv); [lia| |lia|].
    { split_and!; cbn [Xi rj attr_ attributions z references_ world]; try done.
      - by destruct ns.
      - by destruct rr. }
    destruct Hinv as (_ & _ & _ & HD & HDr & Hz & _ & Hav & Hrefs & _).
    split; [exact HDr|].
    exists (attributions l'). rewrite Hz in Hav. split; [done|].
    rewrite Hl', bind_Ok. destruct (stack (attributions l')) as [t|e]; [|done].
    rewrite !bind_Ok. destruct rr; [|done]. rewrite Hrefs.
    destruct (N * ns) as [|n'] eqn:En; [done|].
    rewrite <- En. rewrite decide_True by (by rewrite length_map, length_seq).
    rewrite En at 1. done.
  - apply is_ok_bind_false. apply Hfl; [lia| |lia].
    split_and!; cbn [Xi rj attr_ attributions z references_ world]; try done.
    + by destruct ns.
    + by destruct rr.
Qed.

Lemma seeded_groups :
  ns ≠ 0 →
  groups N ns (map PR (seq 0 (N * ns))) =
    map (λ x, map (seeded_reference f rs x) (seq 0 ns)) X.
Proof.
  intros Hns. rewrite groups_seq.
  assert (HN : length X = N) by apply HX.
  apply list_eq. intros zi. rewrite !list_lookup_fmap.
  destruct (decide (zi < N)) as [Hz|Hz].
  - rewrite lookup_seq_lt by done.
    destruct (lookup_lt_is_Some_2 X zi) as [x Hx]; [lia|].
    rewrite Hx. simpl. f_equal.
    replace (zi * ns) with (zi * ns + 0) at 1 by lia.
    rewrite <- (fmap_add_seq (zi * ns) 0 ns).
    change (map PR (Nat.add (zi * ns) <$> seq 0 ns))
      with (PR <$> (Nat.add (zi * ns) <$> seq 0 ns)).
    rewrite <- list_fmap_compose. apply list_fmap_ext. intros i j Hj.
    apply lookup_seq in Hj as [-> Hj]. simpl. unfold pair_reference.
    rewrite Nat.div_add_l, Nat.div_small, Nat.add_0_r by done.
    rewrite (Nat.add_comm (zi * ns) i), Nat.Div0.mod_add, Nat.mod_small by done.
    by rewrite (list_lookup_total_correct _ _ _ Hx).
  - rewrite lookup_seq_ge by lia.
    by rewrite (proj2 (lookup_ge_None _ _)) by lia.
Qed.

End batch_invariance.

(** C5. Batching does not change what [deep_lift_shap] computes.  For a
    batch of examples of one shape, a reference generator that returns one
    reference of that shape per example, a fixed [random_state] and a model
    that carries no backward hook of an engine, and with any [batch_size]:
    when every (example, reference index) pair has an attribution, computed
    on its own with the reference the generator draws for the example with
    the seed [random_state + reference index], and there is at least one
    example and one shuffle, the call returns; the attributions it returns
    are the averages over the reference indices of those attributions, and
    the references, when asked for, are those references.  When some pair
    has no attribution, or there is no example or no shuffle, the call
    raises.  So with any two values of [batch_size], and on the same
    modules whatever the handle counter, the tensors captured earlier and
    the logs are, the call returns the same attributions and references, or
    raises with both. *)
Theorem batch_size_does_not_change_the_result (N A L : nat) (X : Tensor3)
    (f : generator) (ns : nat) (rr hyp : bool) (thr : Q) (pcd : bool) (rs : Z)
    (st : state) :
  regular3 N A L X →
  (∀ (x : Mat) (s : Z), rect A L x → ∃ r, f [x] 1 (Seeded s) = [[r]] ∧ rect A L r) →
  clean_backward (model st) →
  ∀ (bs bs' : Z) (st' : state),
    map sig (model st') = map sig (model st) →
    result_agree
      (deep_lift_shap X (RefFunc f) ns bs rr hyp thr pcd (Some rs) st)
      (deep_lift_shap X (RefFunc f) ns bs' rr hyp thr pcd (Some rs) st') ∧
    (∀ all,
       mapM_result (pair_attribution X f ns rs A thr pcd (model st))
                   (seq 0 (N * ns)) = Ok all →
       0 < N → 0 < ns →
       ∃ atts,
         Forall2 (averaged X hyp ns all) (seq 0 N) atts ∧
         deep_lift_shap X (RefFunc f) ns bs rr hyp thr pcd (Some rs) st =
           Ok (atts,
               if rr
               then Some (map (λ x, map (seeded_reference f rs x) (seq 0 ns)) X)
               else None)) ∧
    ((∃ e, mapM_result (pair_attribution X f ns rs A thr pcd (model st))
                       (seq 0 (N * ns)) = Raise e) ∨ N = 0 ∨ ns = 0 →
     is_ok (deep_lift_shap X (RefFunc f) ns bs rr hyp thr pcd (Some rs) st)
       = false) ∧
    ∀ atts refs,
      deep_lift_shap X (RefFunc f) ns bs rr hyp thr pcd (Some rs) st
        = Ok (atts, refs) →
      (∃ all,
         mapM_result (pair_attribution X f ns rs A thr pcd (model st))
                     (seq 0 (N * ns)) = Ok all ∧
         Forall2 (averaged X hyp ns all) (seq 0 N) atts) ∧
      refs = (if rr
              then Some (map (λ x, map (seeded_reference f rs x) (seq 0 ns)) X)
              else None).
Proof.
  intros HX Hgen Hc bs bs' st' Hsig.
  pose proof (driver_spec N A L X f ns rr hyp thr pcd rs (model st) HX Hgen Hc
                bs st eq_refl) as H1.
  pose proof (driver_spec N A L X f ns rr hyp thr pcd rs (model st) HX Hgen Hc
                bs' st' Hsig) as H2.
  assert (Hm : ∀ (T : Type) (u v : T), N ≠ 0 → ns ≠ 0 →
            match N * ns with 0 => u | S _ => v end = v).
  { intros T u v HN Hns. destruct (N * ns) eqn:En; [nia|done]. }
  destruct (mapM_result (pair_attribution X f ns rs A thr pcd (model st))
                        (seq 0 (N * ns))) as [all|e] eqn:Eall.
  - destruct H1 as (Hrect & atts1 & Hav1 & Hd1), H2 as (_ & atts2 & Hav2 & Hd2).
    assert (atts2 = atts1) as -> by (by eapply averaged_det).
    assert (Hlen : length all = N * ns).
    { apply mapM_result_length in Eall. by rewrite Eall, length_seq. }
    assert (Hzero : N = 0 ∨ ns = 0 → atts1 = []).
    { intros Hz. assert (N * ns / ns = 0) as Hq.
      { destruct Hz as [-> | ->]; [by rewrite Nat.mul_0_l, Nat.Div0.div_0_l|done]. }
      rewrite Hq in Hav1. by apply Forall2_nil_inv_l in Hav1. }
    split; [|split; [|split]].
    + rewrite Hd1, Hd2. unfold result_agree. by destruct (_ ≫= _).
    + intros all' [= <-] HN Hns.
      rewrite Nat.div_mul in Hav1 by lia.
      exists atts1. split; [done|]. rewrite Hd1.
      rewrite (stack_regular N A L) by
        (try lia; by apply (averaged_rect X hyp N A L ns all); try lia).
      rewrite bind_Ok. destruct rr; [|done].
      rewrite Hm by lia. do 3 f_equal.
      apply (seeded_groups N A L X f ns rs HX); lia.
    + intros [[e He]|Hz]; [done|].
      rewrite Hd1, (Hzero Hz). done.
    + intros atts refs Hok. rewrite Hd1 in Hok.
      destruct atts1 as [|a rest] eqn:Ea; [done|].
      assert (Hns : ns ≠ 0) by (intros ->; by specialize (Hzero (or_intror eq_refl))).
      assert (HN : N ≠ 0) by (intros ->; by specialize (Hzero (or_introl eq_refl))).
      rewrite Nat.div_mul in Hav1 by done.
      unfold stack in Hok. destruct (forallb (same_shape2 a) rest); [|done].
      rewrite bind_Ok in Hok.
      destruct rr.
      * rewrite Hm in Hok by done.
        injection Hok as <- <-. split; [by exists all|].
        f_equal. by eapply seeded_groups.
      * injection Hok as <- <-. split; [by exists all|done].
  - split; [|split; [|split]].
    + unfold result_agree.
      destruct (deep_lift_shap _ _ _ bs _ _ _ _ _ _); [done|].
      by destruct (deep_lift_shap _ _ _ bs' _ _ _ _ _ _).
    + intros all' [=].
    + intros _. exact H1.
    + intros atts refs Hok. by rewrite Hok in H1.
Qed.

Lemma rotate_rect (A L k : nat) (e : Mat) : rect A L e → rect A L (rotate k e).
Proof.
  intros [Hl Hr]. unfold rotate. split.
  - rewrite length_app, length_drop, length_take. lia.
  - apply Forall_app. split; [by apply Forall_drop|by apply Forall_take].
Qed.

Lemma rotations_one (A L : nat) (x : Mat) (s : Z) :
  rect A L x → ∃ r, rotations [x] 1 (Seeded s) = [[r]] ∧ rect A L r.
Proof.
  intros Hx. eexists. split; [reflexivity|]. by apply rotate_rect.
Qed.

Lemma batch_size_does_not_change_the_result_witness :
  let ms := [linear_layer [[2; -1; 0; 0]]%Q [0]%Q; relu_layer] in
  let st := fresh_state ms in
  let st' := mk_state ms 7 [[1 # 2]%Q] [] in
  let X : Tensor3 := [[[1]; [0]; [0]; [0]]; [[0]; [0]; [1]; [0]]]%Q in
  let call := λ (bs : Z) (s : state),
    deep_lift_shap X (RefFunc rotations) 3 bs true false default_warning_threshold
                   false (Some 1%Z) s in
  regular3 2 4 1 X ∧
  (∀ (x : Mat) (s : Z), rect 4 1 x →
     ∃ r, rotations [x] 1 (Seeded s) = [[r]] ∧ rect 4 1 r) ∧
  clean_backward (model st) ∧
  map sig (model st') = map sig (model st) ∧
  0 < 2 ∧ 0 < 3 ∧
  ∃ all,
    mapM_result (pair_attribution X rotations 3 1 4 default_warning_threshold
                                  false (model st)) (seq 0 (2 * 3)) = Ok all ∧
    result_agree (call 1%Z st) (call 32%Z st') ∧
    ∃ atts,
      Forall2 (averaged X false 3 all) (seq 0 2) atts ∧
      call 1%Z st =
        Ok (atts, Some (map (λ x, map (seeded_reference rotations 1 x) (seq 0 3)) X)).
Proof.
  intros ms st st' X call.
  assert (HX : regular3 2 4 1 X) by (split; [reflexivity|repeat constructor]).
  assert (Hgen : ∀ (x : Mat) (s : Z), rect 4 1 x →
            ∃ r, rotations [x] 1 (Seeded s) = [[r]] ∧ rect 4 1 r)
    by (intros x s; apply rotations_one).
  assert (Hc : clean_backward (model st)).
  { unfold clean_backward. repeat constructor. }
  assert (Hs : map sig (model st') = map sig (model st)) by reflexivity.
  split; [exact HX|]. split; [exact Hgen|]. split; [exact Hc|]. split; [exact Hs|].
  split; [lia|]. split; [lia|].
  destruct (mapM_result (pair_attribution X rotations 3 1 4 default_warning_threshold
                                          false (model st)) (seq 0 (2 * 3)))
    as [all|e] eqn:Eall; [|by vm_compute in Eall].
  exists all. split; [reflexivity|].
  destruct (batch_size_does_not_change_the_result 2 4 1 X rotations 3 true false
              default_warning_threshold false 1 st HX Hgen Hc 1 32 st' Hs)
    as (Hagree & Hret & _).
  split; [exact Hagree|].
  apply (Hret all Eall); lia.
Defined.

(** On the example above the call returns, with one pair per batch and
    with all six pairs in one batch alike. *)
Example rotations_batches_return :
  let st := fresh_state [linear_layer [[2; -1; 0; 0]]%Q [0]%Q; relu_layer] in
  let X : Tensor3 := [[[1]; [0]; [0]; [0]]; [[0]; [0]; [1]; [0]]]%Q in
  is_ok (deep_lift_shap X (RefFunc rotations) 3 1 true false
                        default_warning_threshold false (Some 1%Z) st) = true ∧
  deep_lift_shap X (RefFunc rotations) 3 1 true false default_warning_threshold
                 false (Some 1%Z) st =
  deep_lift_shap X (RefFunc rotations) 3 32 true false default_warning_threshold
                 false (Some 1%Z) st.
Proof. vm_compute. split; reflexivity. Qed.

(** *** The rescale rule conserves the output difference *)






















(** * Further properties of the code *)

(** ** [hypothetical_attributions] *)

(** X1. [hypothetical_attributions] returns only for three one-element
    tuples of tensors of one shape, and then a one-element tuple; on any
    other arguments it raises a [ValueError]. *)
Theorem hypothetical_attributions_checks_its_arguments (m x r : pyobj) :
  (∃ (dm dx dr : dtype) (tm tx tr : Tensor3),
     m = PyTuple [PyTensor dm tm] ∧ x = PyTuple [PyTensor dx tx] ∧
     r = PyTuple [PyTensor dr tr] ∧
     shape3 tx = shape3 tm ∧ shape3 tr = shape3 tm ∧
     hypothetical_attributions m x r
       = Ok (PyTuple [PyTensor dx (project dx tm tx tr)])) ∨
  hypothetical_attributions m x r = Raise ValueError.
Proof.
  unfold hypothetical_attributions, check_shape.
  destruct m as [dm tm|[|[dm tm| |] [|]]|]; try (by right).
  cbn [one_tensor mbind result_bind Py.bind fst snd].
  destruct (decide (shape3 tm = shape3 tm)); [|done].
  destruct x as [dx tx|[|[dx tx| |] [|]]|]; try (by right).
  cbn [one_tensor mbind result_bind Py.bind fst snd].
  destruct (decide (shape3 tx = shape3 tm)) as [Hx|Hx]; [|by right].
  destruct r as [dr tr|[|[dr tr| |] [|]]|]; try (by right).
  cbn [one_tensor mbind result_bind Py.bind fst snd].
  destruct (decide (shape3 tr = shape3 tm)) as [Hr|Hr]; [|by right].
  left. by exists dm, dx, dr, tm, tx, tr.
Qed.

(** X2. The projector reads of [X] its shape and its dtype only: two
    tensors [X] of one shape and one dtype give the same result, whatever
    they hold. *)
Theorem hypothetical_attributions_reads_shape_and_dtype_of_X (n A L : nat)
    (dm dx dr : dtype) (m x x' r : Tensor3) :
  regular3 n A L x → regular3 n A L x' →
  hypothetical_attributions (PyTuple [PyTensor dm m]) (PyTuple [PyTensor dx x])
                            (PyTuple [PyTensor dr r]) =
  hypothetical_attributions (PyTuple [PyTensor dm m]) (PyTuple [PyTensor dx x'])
                            (PyTuple [PyTensor dr r]).
Proof.
  intros Hx Hx'.
  assert (Hs : shape3 x = shape3 x')
    by (by rewrite (regular3_shape3 n A L x), (regular3_shape3 n A L x')).
  assert (Hz : zeros_like x = zeros_like x').
  { unfold zeros_like. apply list_eq. intros k. rewrite !list_lookup_fmap.
    destruct Hx as [Hl Hx], Hx' as [Hl' Hx'].
    destruct (decide (k < n)) as [Hk|Hk].
    - destruct (lookup_lt_is_Some_2 x k) as [e He]; [lia|].
      destruct (lookup_lt_is_Some_2 x' k) as [e' He']; [lia|].
      rewrite He, He'. simpl. f_equal.
      rewrite Forall_lookup in Hx, Hx'.
      destruct (Hx _ _ He) as [Hel Her], (Hx' _ _ He') as [Hel' Her'].
      apply list_eq. intros a. rewrite !list_lookup_fmap.
      destruct (decide (a < A)) as [Ha|Ha].
      + destruct (lookup_lt_is_Some_2 e a) as [row Hrow]; [lia|].
        destruct (lookup_lt_is_Some_2 e' a) as [row' Hrow']; [lia|].
        rewrite Hrow, Hrow'. simpl. f_equal.
        rewrite Forall_lookup in Her, Her'.
        pose proof (Her _ _ Hrow) as H1. pose proof (Her' _ _ Hrow') as H2.
        clear -H1 H2. revert row' H2. revert L H1.
        induction row as [|v row IH]; intros L H1 [|v' row'] H2; simpl in *;
          try done; try lia.
        f_equal. destruct L; [lia|]. eapply (IH L); lia.
      + by rewrite !(proj2 (lookup_ge_None _ _)) by lia.
    - by rewrite !(proj2 (lookup_ge_None _ _)) by lia. }
  unfold hypothetical_attributions, check_shape, project, project_step.
  cbn [one_tensor]. rewrite !bind_Ok. cbn [fst snd]. rewrite Hs, Hz. done.
Qed.

Lemma hypothetical_attributions_reads_shape_and_dtype_of_X_witness :
  let m : Tensor3 := [[[2; 3]; [5; 7]]]%Q in
  let r : Tensor3 := [[[0; 1]; [1; 0]]]%Q in
  let x : Tensor3 := [[[1; 0]; [0; 1]]]%Q in
  let x' : Tensor3 := [[[0; 0]; [1; 1]]]%Q in
  regular3 1 2 2 x ∧ regular3 1 2 2 x' ∧
  hypothetical_attributions (PyTuple [PyTensor Float m]) (PyTuple [PyTensor Int x])
                            (PyTuple [PyTensor Int r]) =
  hypothetical_attributions (PyTuple [PyTensor Float m]) (PyTuple [PyTensor Int x'])
                            (PyTuple [PyTensor Int r]).
Proof.
  intros m r x x'.
  assert (Hx : regular3 1 2 2 x) by (split; [reflexivity|repeat constructor]).
  assert (Hx' : regular3 1 2 2 x') by (split; [reflexivity|repeat constructor]).
  split; [exact Hx|]. split; [exact Hx'|].
  exact (hypothetical_attributions_reads_shape_and_dtype_of_X 1 2 2 Float Int Int
           m x x' r Hx Hx').
Defined.

Lemma Qsum_minus {X} (f g : X → Q) (l : list X) :
  (Qsum (map (λ a, f a - g a) l) == Qsum (map f l) - Qsum (map g l))%Q.
Proof.
  induction l as [|a l IH]; simpl; [reflexivity|]. rewrite IH. ring.
Qed.

Lemma Qsum_indicator (f : nat → Q) (c : nat) : ∀ A s,
  (Qsum (map (λ a, (if decide (a = c) then 1 else 0) * f a) (seq s A)) ==
   if decide (s ≤ c < s + A) then f c else 0)%Q.
Proof.
  induction A as [|A IH]; intros s.
  - simpl. rewrite decide_False by lia. reflexivity.
  - cbn [seq map Qsum foldr]. fold (Qsum (map (λ a, (if decide (a = c) then 1 else 0) * f a)
                                        (seq (S s) A)))%Q.
    rewrite IH. destruct (decide (s = c)) as [->|Hne].
    + rewrite decide_False by lia. rewrite decide_True by lia. ring.
    + destruct (decide (S s ≤ c < S s + A)) as [H|H].
      * rewrite decide_True by lia. ring.
      * rewrite decide_False by lia. ring.
Qed.

Lemma hypothetical_sum_split (A : nat) (m r : Tensor3) (k c p : nat) :
  c < A →
  (hypothetical_sum A m r k c p ==
   at3 m k c p - Qsum (map (λ a, at3 r k a p * at3 m k a p) (seq 0 A)))%Q.
Proof.
  intros Hc. unfold hypothetical_sum.
  rewrite (Qsum_ext _ (λ a, (if decide (a = c) then 1 else 0) * at3 m k a p
                            - at3 r k a p * at3 m k a p)%Q).
  2: { intros a _. ring. }
  rewrite (Qsum_minus (λ a, (if decide (a = c) then 1 else 0) * at3 m k a p)%Q
                      (λ a, at3 r k a p * at3 m k a p)%Q).
  rewrite (Qsum_indicator (λ a, at3 m k a p) c A 0).
  rewrite decide_True by lia. reflexivity.
Qed.

(** X3. For a floating-point [X], at every position the projector leaves
    the differences between characters as the multipliers have them: the
    values it returns for two characters differ by the difference of their
    multipliers.  Where the reference is zero for all characters it returns
    the multipliers. *)
Theorem hypothetical_attributions_keep_differences (n A L : nat)
    (dm dr : dtype) (m x r : Tensor3) :
  regular3 n A L m → regular3 n A L x → regular3 n A L r →
  ∃ out : Tensor3,
    hypothetical_attributions (PyTuple [PyTensor dm m]) (PyTuple [PyTensor Float x])
                              (PyTuple [PyTensor dr r])
      = Ok (PyTuple [PyTensor Float out]) ∧
    ∀ k p, k < n → p < L →
      (∀ c c', c < A → c' < A →
         (at3 out k c p - at3 out k c' p == at3 m k c p - at3 m k c' p)%Q) ∧
      ((∀ a, a < A → (at3 r k a p == 0)%Q) →
       ∀ c, c < A → (at3 out k c p == at3 m k c p)%Q).
Proof.
  intros Hm Hx Hr.
  exists (project Float m x r). split.
  { by apply (hypothetical_attributions_regular n A L). }
  destruct (project_spec Float n A L m x r Hm Hx Hr) as [_ Hval]. simpl in Hval.
  intros k p Hk Hp. split.
  - intros c c' Hc Hc'.
    rewrite (Hval k c p), (Hval k c' p) by done.
    rewrite !hypothetical_sum_split by done. ring.
  - intros Hz c Hc. rewrite (Hval k c p) by done.
    rewrite hypothetical_sum_split by done.
    rewrite (Qsum_ext _ (λ _, 0%Q)).
    2: { intros a Ha. apply elem_of_seq in Ha. rewrite Hz by lia. ring. }
    assert (H0 : ∀ l : list nat, (Qsum (map (λ _, 0%Q) l) == 0)%Q).
    { induction l as [|a l IH]; simpl; [reflexivity|]. rewrite IH. ring. }
    rewrite H0. ring.
Qed.

Lemma hypothetical_attributions_keep_differences_witness :
  let m : Tensor3 := [[[1#2; 3]; [2; -1]]]%Q in
  let x : Tensor3 := [[[1; 0]; [0; 1]]]%Q in
  let r : Tensor3 := [[[0; 0]; [1; 0]]]%Q in
  regular3 1 2 2 m ∧ regular3 1 2 2 x ∧ regular3 1 2 2 r ∧
  ∃ out : Tensor3,
    hypothetical_attributions (PyTuple [PyTensor Float m]) (PyTuple [PyTensor Float x])
                              (PyTuple [PyTensor Int r])
      = Ok (PyTuple [PyTensor Float out]) ∧
    ∀ k p, k < 1 → p < 2 →
      (∀ c c', c < 2 → c' < 2 →
         (at3 out k c p - at3 out k c' p == at3 m k c p - at3 m k c' p)%Q) ∧
      ((∀ a, a < 2 → (at3 r k a p == 0)%Q) →
       ∀ c, c < 2 → (at3 out k c p == at3 m k c p)%Q).
Proof.
  intros m x r.
  assert (Hm : regular3 1 2 2 m) by (split; [reflexivity|repeat constructor]).
  assert (Hx : regular3 1 2 2 x) by (split; [reflexivity|repeat constructor]).
  assert (Hr : regular3 1 2 2 r) by (split; [reflexivity|repeat constructor]).
  split; [exact Hm|]. split; [exact Hx|]. split; [exact Hr|].
  exact (hypothetical_attributions_keep_differences 1 2 2 Float Int m x r Hm Hx Hr).
Defined.

(** ** [DeepLiftShap.attribute] *)

(** X4. The gradients [attribute] returns have the shape of [inputs]. *)
Theorem attribute_returns_the_shape_of_inputs (n A L : nat)
    (inputs baselines : Tensor3) (self : DeepLiftShap) (st : state) :
  regular3 n A L inputs → regular3 n A L baselines →
  match (attribute inputs baselines (self, st)).1 with
  | Ok g => regular3 n A L g
  | Raise _ => True
  end.
Proof.
  intros Hi Hb.
  destruct (attribute inputs baselines (self, st)) as [[g|e] c'] eqn:Hattr; [|done].
  destruct (attribute_gap n A L _ _ _ _ _ _ Hi Hb Hattr) as (_ & _ & Hg & _).
  exact Hg.
Qed.

Lemma attribute_returns_the_shape_of_inputs_witness :
  let st := fresh_state [linear_layer [[2; -1; 0; 0]]%Q [0]%Q; relu_layer] in
  let inputs : Tensor3 := [[[1]; [0]; [0]; [0]]; [[0]; [0]; [1]; [0]]]%Q in
  let baselines : Tensor3 := [[[0]; [1]; [0]; [0]]; [[0]; [0]; [0]; [1]]]%Q in
  regular3 2 4 1 inputs ∧ regular3 2 4 1 baselines ∧
  match (attribute inputs baselines (default_engine, st)).1 with
  | Ok g => regular3 2 4 1 g
  | Raise _ => True
  end.
Proof.
  intros st inputs baselines.
  assert (Hi : regular3 2 4 1 inputs) by (split; [reflexivity|repeat constructor]).
  assert (Hb : regular3 2 4 1 baselines) by (split; [reflexivity|repeat constructor]).
  split; [exact Hi|]. split; [exact Hb|].
  exact (attribute_returns_the_shape_of_inputs 2 4 1 inputs baselines
           default_engine st Hi Hb).
Defined.

Lemma map_op_sig (ms ms' : list nn_module) :
  map sig ms' = map sig ms → map op ms' = map op ms.
Proof.
  intros H. apply (f_equal (map (λ s : list string * layer_op * gmap nat hook, s.1.2))) in H.
  by rewrite !map_map in H.
Qed.

Lemma hooked_layers_config (self self' : DeepLiftShap) (ms : list nn_module) :
  ignore_layers self' = ignore_layers self →
  hooked_layers self' ms = hooked_layers self ms.
Proof.
  intros H. unfold hooked_layers, _can_register_hook. by rewrite H.
Qed.

Lemma attribute_result_sig (n A L : nat) (self self' : DeepLiftShap)
    (st st' : state) (xs bs : Tensor3) :
  regular3 n A L xs → regular3 n A L bs → clean_backward (model st) →
  map sig (model st') = map sig (model st) →
  eps self' = eps self → ignore_layers self' = ignore_layers self →
  (attribute xs bs (self', st')).1 = (attribute xs bs (self, st)).1.
Proof.
  intros Hx Hb Hc Hs He Hi.
  destruct (attribute_result n A L self st xs bs Hx Hb Hc) as [-> _].
  destruct (attribute_result n A L self' st' xs bs Hx Hb
              (clean_backward_sig _ _ Hs Hc)) as [-> _].
  by rewrite He, (hooked_layers_config self self') by done;
     rewrite (hooked_layers_sig self _ _ Hs), (map_op_sig _ _ Hs).
Qed.

Lemma attribute_engine_config (self : DeepLiftShap) (st : state) (xs bs : Tensor3) :
  eps (attribute xs bs (self, st)).2.1 = eps self ∧
  ignore_layers (attribute xs bs (self, st)).2.1 = ignore_layers self.
Proof.
  unfold attribute. case_bool_decide; [|done].
  unfold attribute_try. rewrite gradient_pass_unfold.
  destruct (register_from self 0 (next_id st) (model st)) as [[[ms1 fh] bh] id1].
  destruct (forward ms1 (map flatten_example (xs ++ bs))) as [[ms2 tape] outputs].
  cbv zeta.
  destruct outputs as [Y|e]; [|done].
  destruct (backward ms2 tape (grad_of_first_chunk_sum Y)) as [g|e]; [|done].
  by destruct (convergence_deltas _ _ _ _) as [d|e].
Qed.

(** X5. [attribute] can be repeated: on a model without a stale backward
    hook of an engine, a second call of the engine on the same tensors
    returns what its first call returned; the tensors the hooks stored on
    the modules and the handles of the first call play no part. *)
Theorem attribute_is_repeatable (n A L : nat) (inputs baselines : Tensor3)
    (self : DeepLiftShap) (st : state) :
  regular3 n A L inputs → regular3 n A L baselines →
  clean_backward (model st) →
  forward_handles self = [] → backward_handles self = [] →
  (attribute inputs baselines (attribute inputs baselines (self, st)).2).1 =
  (attribute inputs baselines (self, st)).1.
Proof.
  intros Hi Hb Hc Hf0 Hb0.
  pose proof (attribute_sig self st inputs baselines Hf0 Hb0) as Hs.
  destruct (attribute_engine_config self st inputs baselines) as [He Hig].
  rewrite (surjective_pairing (attribute inputs baselines (self, st)).2).
  by apply (attribute_result_sig n A L).
Qed.

Lemma attribute_is_repeatable_witness :
  let st := fresh_state [linear_layer [[2; -1; 0; 0]]%Q [0]%Q; relu_layer] in
  let inputs : Tensor3 := [[[1]; [0]; [0]; [0]]; [[0]; [0]; [1]; [0]]]%Q in
  let baselines : Tensor3 := [[[0]; [1]; [0]; [0]]; [[0]; [0]; [0]; [1]]]%Q in
  regular3 2 4 1 inputs ∧ regular3 2 4 1 baselines ∧
  clean_backward (model st) ∧
  forward_handles default_engine = [] ∧ backward_handles default_engine = [] ∧
  (attribute inputs baselines
     (attribute inputs baselines (default_engine, st)).2).1 =
  (attribute inputs baselines (default_engine, st)).1.
Proof.
  intros st inputs baselines.
  assert (Hi : regular3 2 4 1 inputs) by (split; [reflexivity|repeat constructor]).
  assert (Hb : regular3 2 4 1 baselines) by (split; [reflexivity|repeat constructor]).
  assert (Hc : clean_backward (model st)) by (unfold clean_backward; repeat constructor).
  split; [exact Hi|]. split; [exact Hb|]. split; [exact Hc|].
  split; [reflexivity|]. split; [reflexivity|].
  exact (attribute_is_repeatable 2 4 1 inputs baselines default_engine st
           Hi Hb Hc eq_refl eq_refl).
Defined.

Lemma attribute_single_pair (A L : nat) (self : DeepLiftShap) (st : state)
    (l : list (Mat * Mat)) :
  clean_backward (model st) →
  Forall (λ p : Mat * Mat, rect A L p.1 ∧ rect A L p.2) l →
  follows (map (λ g : Mat, [g]))
    (mapM_result (λ p : Mat * Mat, (attribute [p.1] [p.2] (self, st)).1) l)
    (mapM_result (λ p : Mat * Mat,
                    pair_engine (eps self) (hooked_layers self (model st)) p.1 p.2) l).
Proof.
  intros Hc. induction 1 as [|[x b] l [Hx Hb] Hl IH]; [done|].
  cbn [mapM_result fst snd].
  assert (H1 : ∀ e : Mat, rect A L e → regular3 1 A L [e]).
  { intros e He. split; [done|]. constructor; [exact He|constructor]. }
  pose proof (attribute_pairs 1 A L self st [x] [b] (H1 _ Hx) (H1 _ Hb) Hc) as Hp.
  cbn [zip zip_with mapM_result fst snd] in Hp.
  unfold follows in *.
  destruct (pair_engine (eps self) (hooked_layers self (model st)) x b) as [g|e].
  - rewrite bind_Ok in Hp. unfold id in Hp. rewrite Hp, !bind_Ok.
    destruct (mapM_result (λ p : Mat * Mat, pair_engine _ _ p.1 p.2) l) as [gs|e].
    + by rewrite IH.
    + rewrite bind_Raise. by apply is_ok_bind_false.
  - rewrite bind_Raise. by apply is_ok_bind_false.
Qed.

(** X6. [attribute] treats every (example, baseline) pair of a batch on its
    own: on a model without a stale backward hook of an engine, the call on
    a batch returns exactly when the calls on each pair alone return, and
    then their gradients, in order. *)
Theorem attribute_treats_each_pair_alone (n A L : nat)
    (inputs baselines : Tensor3) (self : DeepLiftShap) (st : state) :
  regular3 n A L inputs → regular3 n A L baselines →
  clean_backward (model st) →
  result_agree
    (attribute inputs baselines (self, st)).1
    (gs ← mapM_result (λ p : Mat * Mat, (attribute [p.1] [p.2] (self, st)).1)
                      (zip inputs baselines);
     Ok (concat gs)).
Proof.
  intros Hi Hb Hc.
  pose proof (attribute_pairs n A L self st inputs baselines Hi Hb Hc) as Hbatch.
  assert (Hall : Forall (λ p : Mat * Mat, rect A L p.1 ∧ rect A L p.2)
                        (zip inputs baselines)).
  { apply Forall_forall. intros [x b] Hin.
    apply list_elem_of_lookup in Hin as [i Hi'].
    apply lookup_zip_with_Some in Hi' as (x' & b' & [= <- <-] & Hx' & Hb').
    split; [by eapply (regular3_rect n A L inputs)|
            by eapply (regular3_rect n A L baselines)]. }
  pose proof (attribute_single_pair A L self st _ Hc Hall) as Hsingle.
  unfold follows, id in *.
  destruct (mapM_result (λ p : Mat * Mat, pair_engine _ _ p.1 p.2)
                        (zip inputs baselines)) as [gs|e].
  - rewrite Hbatch, Hsingle, bind_Ok. unfold result_agree.
    clear. induction gs as [|g gs IH]; simpl; [done|]. by rewrite <- IH.
  - destruct (attribute inputs baselines (self, st)).1; [done|].
    by destruct (mapM_result _ _).
Qed.

Lemma attribute_treats_each_pair_alone_witness :
  let st := fresh_state [linear_layer [[2; -1; 0; 0]]%Q [0]%Q; relu_layer] in
  let inputs : Tensor3 := [[[1]; [0]; [0]; [0]]; [[0]; [0]; [1]; [0]]]%Q in
  let baselines : Tensor3 := [[[0]; [1]; [0]; [0]]; [[0]; [0]; [0]; [1]]]%Q in
  regular3 2 4 1 inputs ∧ regular3 2 4 1 baselines ∧
  clean_backward (model st) ∧
  result_agree
    (attribute inputs baselines (default_engine, st)).1
    (gs ← mapM_result (λ p : Mat * Mat,
                         (attribute [p.1] [p.2] (default_engine, st)).1)
                      (zip inputs baselines);
     Ok (concat gs)).
Proof.
  intros st inputs baselines.
  assert (Hi : regular3 2 4 1 inputs) by (split; [reflexivity|repeat constructor]).
  assert (Hb : regular3 2 4 1 baselines) by (split; [reflexivity|repeat constructor]).
  assert (Hc : clean_backward (model st)) by (unfold clean_backward; repeat constructor).
  split; [exact Hi|]. split; [exact Hb|]. split; [exact Hc|].
  exact (attribute_treats_each_pair_alone 2 4 1 inputs baselines default_engine st
           Hi Hb Hc).
Defined.

(** *** The hook tables after a call *)

#[global] Instance handle_eq_dec : EqDecision handle.
Proof. solve_decision. Defined.

Lemma hook_at_remove_ne (h h' : handle) (st : state) :
  h ≠ h' → hook_at (remove h' st) h = hook_at st h.
Proof.
  intros Hne. unfold hook_at, remove. simpl.
  destruct (decide (h_module h' = h_module h)) as [Heq|Hm].
  - rewrite Heq, list_lookup_alter_eq.
    destruct (model st !! h_module h) as [m|]; simpl in *; [|done].
    destruct (decide (h_table h = h_table h')) as [Ht|Ht].
    + rewrite Ht, get_set_table_eq. rewrite lookup_delete_ne; [done|].
      intros Hid. apply Hne. destruct h, h'; simpl in *. congruence.
    + by rewrite get_set_table_ne.
  - by rewrite list_lookup_alter_ne.
Qed.

Lemma hook_at_foldl_remove_notin (hs : list handle) : ∀ (st : state) (h : handle),
  h ∉ hs → hook_at (foldl (λ st h, remove h st) st hs) h = hook_at st h.
Proof.
  induction hs as [|h0 hs IH]; intros st h Hnot; simpl; [done|].
  apply not_elem_of_cons in Hnot as [Hne Hnot].
  rewrite IH by done. by apply hook_at_remove_ne.
Qed.

Lemma get_table_registered (e : Q) (k : nat) (m : nn_module) (t : hook_table) :
  get_table t (registered_module e k m) =
    <[registered_id t k := registered_hook e t]> (get_table t m).
Proof. by destruct t. Qed.

Lemma hook_tables_get_table (m m' : nn_module) :
  (∀ t, get_table t m' = get_table t m) → hook_tables m' = hook_tables m.
Proof.
  intros H. unfold hook_tables.
  pose proof (H ForwardTable) as H1. pose proof (H ForwardPreTable) as H2.
  pose proof (H BackwardTable) as H3. simpl in H1, H2, H3.
  by rewrite H1, H2, H3.
Qed.

Lemma get_table_hook_tables (m m' : nn_module) (t : hook_table) :
  hook_tables m' = hook_tables m → get_table t m' = get_table t m.
Proof. intros [= H1 H2 H3]. by destruct t. Qed.

Lemma finally_tables (self : DeepLiftShap) (ms ms1 : list nn_module)
    (fh bh : list handle) (id id1 : nat) (self1 : DeepLiftShap) (st1 : state) :
  register_from self 0 id ms = (ms1, fh, bh, id1) →
  ids_below id ms →
  map hook_tables (model st1) = map hook_tables ms1 →
  forward_handles self1 = fh → backward_handles self1 = bh →
  map hook_tables (model (attribute_finally self1 st1)) = map hook_tables ms.
Proof.
  intros Hr Hids Htb Hfh Hbh.
  destruct (attribute_finally_frame self1 st1) as [Hfr _].
  destruct (register_from_static self _ _ _ _ _ _ _ Hr) as [Hop1 _].
  assert (Hlen1 : length ms1 = length ms).
  { apply (f_equal length) in Hop1. by rewrite !length_map in Hop1. }
  assert (Hlen2 : length (model st1) = length ms).
  { apply (f_equal length) in Htb. rewrite !length_map in Htb. lia. }
  assert (Hlen : length (model (attribute_finally self1 st1)) = length ms).
  { apply (f_equal length) in Hfr. rewrite !length_map in Hfr. lia. }
  apply list_eq. intros j. rewrite !list_lookup_fmap.
  destruct (ms !! j) as [m|] eqn:Hm.
  2: { apply lookup_ge_None in Hm. rewrite (proj2 (lookup_ge_None _ _)); [done|lia]. }
  pose proof (register_from_lookup self ms _ _ _ _ _ _ Hr j m Hm) as Hreg.
  destruct (lookup_lt_is_Some_2 (model st1) j) as [m2 Hm2].
  { apply lookup_lt_Some in Hm. lia. }
  destruct (lookup_lt_is_Some_2 (model (attribute_finally self1 st1)) j) as [m' Hm'].
  { apply lookup_lt_Some in Hm. lia. }
  rewrite Hm'. simpl. f_equal.
  rewrite attribute_finally_foldl, Hfh, Hbh in Hm'.
  destruct (_can_register_hook self m) eqn:Hcan.
  - destruct Hreg as (k & Hk & _ & Hm1 & Hin1 & Hin2 & Hin3). simpl in Hin1, Hin2, Hin3.
    destruct (lookup_map_eq hook_tables _ _ j _ Htb Hm1) as (m2' & Hm2' & Hb2).
    rewrite Hm2 in Hm2'. injection Hm2' as <-.
    apply hook_tables_get_table. intros t. apply map_eq. intros i.
    set (h := mk_handle j t i).
    assert (Hfin : hook_at (foldl (λ st h, remove h st) st1 (fh ++ bh)) h
                   = get_table t m' !! i).
    { unfold hook_at, h. cbn [h_module h_table h_id]. by rewrite Hm'. }
    assert (Hst1 : hook_at st1 h =
                   (<[registered_id t k := registered_hook (eps self) t]>
                      (get_table t m)) !! i).
    { unfold hook_at, h. cbn [h_module h_table h_id]. rewrite Hm2. simpl.
      by rewrite (get_table_hook_tables _ _ t Hb2), get_table_registered. }
    rewrite <- Hfin.
    destruct (decide (h ∈ fh ++ bh)) as [Hin|Hnot].
    + rewrite hook_at_foldl_remove by done.
      destruct (register_from_handles self ms _ _ _ _ _ _ Hr h Hin)
        as (_ & _ & _ & _ & _ & Hid). simpl in Hid.
      destruct (get_table t m !! i) as [hk|] eqn:Hlk; [|done].
      assert (i < id); [|lia].
      apply (Hids m t i); [by eapply list_elem_of_lookup_2|by rewrite Hlk].
    + rewrite hook_at_foldl_remove_notin, Hst1 by done.
      apply lookup_insert_ne. intros Heq. apply Hnot. unfold h. rewrite <- Heq.
      apply elem_of_app. destruct t; simpl; [by left|by left|by right].
  - destruct (lookup_map_eq hook_tables _ _ j _ Htb Hreg) as (m2' & Hm2' & Hb2).
    rewrite Hm2 in Hm2'. injection Hm2' as <-.
    rewrite foldl_remove_other in Hm'.
    + rewrite Hm2 in Hm'. by injection Hm' as <-.
    + apply Forall_forall. intros h Hh Heq.
      destruct (register_from_handles self ms _ _ _ _ _ _ Hr h Hh)
        as (j' & m0 & Hj' & Hm0 & Hcan0 & _).
      simpl in Hj'. rewrite Heq in Hj'. subst j'. rewrite Hm in Hm0.
      injection Hm0 as <-. by rewrite Hcan in Hcan0.
Qed.

Lemma finally_lookup (self : DeepLiftShap) (ms ms1 : list nn_module)
    (fh bh : list handle) (id id1 : nat) (self1 : DeepLiftShap) (st1 : state) :
  register_from self 0 id ms = (ms1, fh, bh, id1) →
  ids_below id ms →
  map hook_tables (model st1) = map hook_tables ms1 →
  forward_handles self1 = forward_handles self ++ fh →
  backward_handles self1 = backward_handles self ++ bh →
  ∀ (j : nat) (m m' : nn_module) (t : hook_table) (i : nat),
    ms !! j = Some m → model (attribute_finally self1 st1) !! j = Some m' →
    get_table t m' !! i =
      if decide (mk_handle j t i ∈ forward_handles self ++ backward_handles self)
      then None else get_table t m !! i.
Proof.
  intros Hr Hids Htb Hfh Hbh j m m' t i Hm Hm'.
  pose proof (register_from_lookup self ms _ _ _ _ _ _ Hr j m Hm) as Hreg.
  assert (Hlen2 : length (model st1) = length ms1).
  { apply (f_equal length) in Htb. by rewrite !length_map in Htb. }
  set (h := mk_handle j t i).
  set (all := forward_handles self1 ++ backward_handles self1).
  assert (Hall : h ∈ all ↔
            h ∈ forward_handles self ++ backward_handles self ∨ h ∈ fh ++ bh).
  { unfold all. rewrite Hfh, Hbh, !elem_of_app. tauto. }
  assert (Hfin : hook_at (attribute_finally self1 st1) h = get_table t m' !! i).
  { unfold hook_at, h. cbn [h_module h_table h_id]. by rewrite Hm'. }
  rewrite <- Hfin, attribute_finally_foldl. fold all.
  assert (Hnew : h ∈ fh ++ bh → get_table t m !! i = None).
  { intros Hin.
    destruct (register_from_handles self ms _ _ _ _ _ _ Hr h Hin)
      as (_ & _ & _ & _ & _ & Hid). simpl in Hid.
    destruct (get_table t m !! i) as [hk|] eqn:Hlk; [|done].
    assert (i < id); [|lia].
    apply (Hids m t i); [by eapply list_elem_of_lookup_2|by rewrite Hlk]. }
  destruct (decide (h ∈ all)) as [Hin|Hnot].
  - rewrite hook_at_foldl_remove by done.
    destruct (decide (h ∈ forward_handles self ++ backward_handles self));
      [done|].
    symmetry. apply Hnew. apply Hall in Hin. tauto.
  - rewrite hook_at_foldl_remove_notin by done.
    rewrite decide_False by (intros Hin; apply Hnot, Hall; by left).
    assert (Hnot' : h ∉ fh ++ bh) by (intros Hin; apply Hnot, Hall; by right).
    destruct (_can_register_hook self m) eqn:Hcan.
    + destruct Hreg as (k & Hk & _ & Hm1 & Hin1 & Hin2 & Hin3).
      simpl in Hin1, Hin2, Hin3.
      destruct (lookup_map_eq hook_tables _ _ j _ Htb Hm1) as (m2 & Hm2 & Hb2).
      unfold hook_at, h. cbn [h_module h_table h_id]. rewrite Hm2. simpl.
      rewrite (get_table_hook_tables _ _ t Hb2), get_table_registered.
      apply lookup_insert_ne. intros Heq. apply Hnot'. unfold h. rewrite <- Heq.
      apply elem_of_app. destruct t; simpl; [by left|by left|by right].
    + destruct (lookup_map_eq hook_tables _ _ j _ Htb Hreg) as (m2 & Hm2 & Hb2).
      unfold hook_at, h. cbn [h_module h_table h_id]. rewrite Hm2. simpl.
      by rewrite (get_table_hook_tables _ _ t Hb2).
Qed.

Lemma attribute_tables (inputs baselines : Tensor3) (self : DeepLiftShap)
    (st : state) :
  shape3 inputs = shape3 baselines →
  ids_below (next_id st) (model st) →
  let st' := (attribute inputs baselines (self, st)).2.2 in
  length (model st') = length (model st) ∧
  ∀ (j : nat) (m m' : nn_module) (t : hook_table) (i : nat),
    model st !! j = Some m → model st' !! j = Some m' →
    get_table t m' !! i =
      if decide (mk_handle j t i ∈ forward_handles self ++ backward_handles self)
      then None else get_table t m !! i.
Proof.
  intros Hshape Hids. unfold attribute. rewrite bool_decide_eq_true_2 by done.
  unfold attribute_try. rewrite gradient_pass_unfold.
  destruct (register_from self 0 (next_id st) (model st))
    as [[[ms1 fh] bh] id1] eqn:Er.
  pose proof (forward_static ms1 (map flatten_example (inputs ++ baselines))) as Hst.
  destruct (forward ms1 (map flatten_example (inputs ++ baselines)))
    as [[ms2 tape] outputs].
  cbn [fst] in Hst.
  assert (Htb : map hook_tables ms2 = map hook_tables ms1).
  { apply Forall2_map_eq. eapply Forall2_impl; [exact Hst|].
    intros a b' (?&?&H1&H2&H3). unfold hook_tables. by rewrite H1, H2, H3. }
  destruct (register_from_static self _ _ _ _ _ _ _ Er) as [Hop1 _].
  assert (Hlen1 : length ms1 = length (model st)).
  { apply (f_equal length) in Hop1. by rewrite !length_map in Hop1. }
  assert (Hlen2 : length ms2 = length ms1).
  { apply (f_equal length) in Htb. by rewrite !length_map in Htb. }
  assert (Hfin : ∀ st1, model st1 = ms2 →
    length (model (attribute_finally (add_handles self fh bh) st1))
      = length (model st) ∧
    ∀ (j : nat) (m m' : nn_module) (t : hook_table) (i : nat),
      model st !! j = Some m →
      model (attribute_finally (add_handles self fh bh) st1) !! j = Some m' →
      get_table t m' !! i =
        if decide (mk_handle j t i ∈ forward_handles self ++ backward_handles self)
        then None else get_table t m !! i).
  { intros st1 Hm. split.
    - destruct (attribute_finally_frame (add_handles self fh bh) st1) as [Hfr _].
      apply (f_equal length) in Hfr. rewrite !length_map in Hfr. rewrite Hfr, Hm. lia.
    - intros j m m' t i Hj Hj'.
      by eapply (finally_lookup self (model st) ms1 fh bh (next_id st) id1
                   (add_handles self fh bh) st1 Er Hids); [rewrite Hm| | | |]. }
  cbv zeta.
  destruct outputs as [Y|e]; [|by apply Hfin].
  destruct (backward ms2 tape (grad_of_first_chunk_sum Y)) as [g|e];
    [|by apply Hfin].
  destruct (convergence_deltas _ _ _ _) as [d|e]; [|by apply Hfin].
  cbn [fst snd]. apply Hfin. apply report_model.
Qed.

(** C3. On every exit of [attribute] (a returned result, an exception of
    the forward or backward pass or of the validation, a convergence
    warning, a failed shape assertion) the hook tables of the model hold
    no registration of this call.  The ids in the tables being those
    issued so far, every hook a module has after the call, in any of its
    three tables, it had before the call under the same id, an id issued
    before the call; every hook it had before the call is still there,
    unless one of the handles the engine held before the call designates
    it; and none of the handles the call was given designates a hook any
    more.  The registration calls themselves are PyTorch's and return. *)
Theorem attribute_removes_its_hooks (inputs baselines : Tensor3)
    (self : DeepLiftShap) (st : state) :
  ids_below (next_id st) (model st) →
  let c' := (attribute inputs baselines (self, st)).2 in
  length (model c'.2) = length (model st) ∧
  (∀ (j : nat) (m m' : nn_module),
     model st !! j = Some m → model c'.2 !! j = Some m' →
     ∀ (t : hook_table) (id : nat),
       (∀ h, get_table t m' !! id = Some h →
             get_table t m !! id = Some h ∧ id < next_id st) ∧
       (mk_handle j t id ∉ forward_handles self ++ backward_handles self →
        get_table t m' !! id = get_table t m !! id)) ∧
  Forall (λ h, hook_at c'.2 h = None) (new_handles self c'.1).
Proof.
  intros Hids c'.
  assert (Hold : Forall (λ h, hook_at c'.2 h = None) (new_handles self c'.1)).
  { unfold c', attribute. case_bool_decide as Hshape; simpl.
    - destruct (attribute_try inputs baselines (self, st)) as [r [self1 st1]] eqn:Htry.
      simpl. apply Forall_forall. intros h Hin.
      apply attribute_finally_removes. by apply new_handles_subseteq in Hin.
    - rewrite new_handles_refl. constructor. }
  destruct (decide (shape3 inputs = shape3 baselines)) as [Hshape|Hshape].
  - destruct (attribute_tables inputs baselines self st Hshape Hids) as [Hlen Htab].
    split; [exact Hlen|]. split; [|exact Hold].
    intros j m m' Hm Hm' t id.
    pose proof (Htab j m m' t id Hm Hm') as Heq. split.
    + intros h Hh. rewrite Heq in Hh.
      destruct (decide (mk_handle j t id ∈ _)); [done|]. split; [done|].
      apply (Hids m t id); [by eapply list_elem_of_lookup_2|by rewrite Hh].
    + intros Hnot. rewrite Heq. by rewrite decide_False.
  - assert (Hc : c' = (self, st)).
    { unfold c', attribute. by rewrite bool_decide_eq_false_2. }
    split; [by rewrite Hc|]. split; [|exact Hold].
    intros j m m' Hm Hm' t id. rewrite Hc in Hm'. simpl in Hm'.
    rewrite Hm in Hm'. injection Hm' as <-. split; [|done].
    intros h Hh. split; [done|].
    apply (Hids m t id); [by eapply list_elem_of_lookup_2|by rewrite Hh].
Qed.

Lemma ids_below_empty (next : nat) (ms : list nn_module) :
  Forall (λ m, hook_tables m = (∅, ∅, ∅)) ms → ids_below next ms.
Proof.
  intros Hall m t id Hin Hs. rewrite Forall_forall in Hall.
  specialize (Hall m Hin). injection Hall as H1 H2 H3.
  destruct t; simpl in Hs; rewrite ?H1, ?H2, ?H3, lookup_empty in Hs;
    by destruct Hs.
Qed.

Lemma attribute_removes_its_hooks_witness :
  let st := fresh_state [linear_layer [[2; -1; 0; 0]]%Q [0]%Q; relu_layer] in
  let inputs : Tensor3 := [[[1]; [0]; [0]; [0]]; [[0]; [0]; [1]; [0]]]%Q in
  let baselines : Tensor3 := [[[0]; [1]; [0]; [0]]; [[0]; [0]; [0]; [1]]]%Q in
  ids_below (next_id st) (model st) ∧
  let c' := (attribute inputs baselines (default_engine, st)).2 in
  length (model c'.2) = length (model st) ∧
  (∀ (j : nat) (m m' : nn_module),
     model st !! j = Some m → model c'.2 !! j = Some m' →
     ∀ (t : hook_table) (id : nat),
       (∀ h, get_table t m' !! id = Some h →
             get_table t m !! id = Some h ∧ id < next_id st) ∧
       (mk_handle j t id ∉ forward_handles default_engine
                            ++ backward_handles default_engine →
        get_table t m' !! id = get_table t m !! id)) ∧
  Forall (λ h, hook_at c'.2 h = None) (new_handles default_engine c'.1).
Proof.
  intros st inputs baselines.
  assert (Hids : ids_below (next_id st) (model st)).
  { apply ids_below_empty. repeat constructor. }
  split; [exact Hids|].
  exact (attribute_removes_its_hooks inputs baselines default_engine st Hids).
Defined.

(** X7. [attribute] gives the model back with the hook tables it found:
    when the engine holds no handle yet and the ids in the tables were all
    issued before, every module has, after the call, the forward,
    forward-pre and backward hooks it had before it, whether the call
    returned or raised. *)
Theorem attribute_restores_the_hook_tables (inputs baselines : Tensor3)
    (self : DeepLiftShap) (st : state) :
  forward_handles self = [] → backward_handles self = [] →
  ids_below (next_id st) (model st) →
  map hook_tables (model (attribute inputs baselines (self, st)).2.2) =
  map hook_tables (model st).
Proof.
  intros Hf0 Hb0 Hids. unfold attribute. case_bool_decide; [|done].
  unfold attribute_try. rewrite gradient_pass_unfold.
  destruct (register_from self 0 (next_id st) (model st))
    as [[[ms1 fh] bh] id1] eqn:Er.
  pose proof (forward_static ms1 (map flatten_example (inputs ++ baselines))) as Hst.
  destruct (forward ms1 (map flatten_example (inputs ++ baselines)))
    as [[ms2 tape] outputs].
  cbn [fst] in Hst.
  assert (Htb : map hook_tables ms2 = map hook_tables ms1).
  { apply Forall2_map_eq. eapply Forall2_impl; [exact Hst|].
    intros a b' (?&?&H1&H2&H3). unfold hook_tables. by rewrite H1, H2, H3. }
  assert (Hfin : ∀ st1, model st1 = ms2 →
            map hook_tables (model (attribute_finally (add_handles self fh bh) st1))
            = map hook_tables (model st)).
  { intros st1 Hm. eapply finally_tables; [exact Er|done|by rewrite Hm| |].
    - simpl. by rewrite Hf0.
    - simpl. by rewrite Hb0. }
  cbv zeta.
  destruct outputs as [Y|e]; [|by apply Hfin].
  destruct (backward ms2 tape (grad_of_first_chunk_sum Y)) as [g|e];
    [|by apply Hfin].
  destruct (convergence_deltas _ _ _ _) as [d|e]; [|by apply Hfin].
  cbn [fst snd]. apply Hfin. apply report_model.
Qed.

Lemma attribute_restores_the_hook_tables_witness :
  let st := fresh_state [linear_layer [[2; -1; 0; 0]]%Q [0]%Q; relu_layer] in
  let inputs : Tensor3 := [[[1]; [0]; [0]; [0]]; [[0]; [0]; [1]; [0]]]%Q in
  let baselines : Tensor3 := [[[0]; [1]; [0]; [0]]; [[0]; [0]; [0]; [1]]]%Q in
  forward_handles default_engine = [] ∧ backward_handles default_engine = [] ∧
  ids_below (next_id st) (model st) ∧
  map hook_tables (model (attribute inputs baselines (default_engine, st)).2.2) =
  map hook_tables (model st).
Proof.
  intros st inputs baselines.
  assert (Hids : ids_below (next_id st) (model st)).
  { apply ids_below_empty. repeat constructor. }
  split; [reflexivity|]. split; [reflexivity|]. split; [exact Hids|].
  exact (attribute_restores_the_hook_tables inputs baselines default_engine st
           eq_refl eq_refl Hids).
Defined.

(** *** The handles the engine keeps *)

Lemma register_from_lengths (self : DeepLiftShap) (ms : list nn_module) :
  ∀ i id ms' fh bh id', register_from self i id ms = (ms', fh, bh, id') →
  length bh = length (filter (λ m, _can_register_hook self m = true) ms) ∧
  length fh = 2 * length bh.
Proof.
  induction ms as [|m ms IH]; intros i id ms' fh bh id' Hr.
  - simpl in Hr. by injection Hr as <- <- <- <-.
  - cbn [register_from] in Hr. rewrite filter_cons.
    destruct (_can_register_hook self m) eqn:Hcan.
    + destruct (register_from self (S i) (S (S (S id))) ms)
        as [[[rest' fh'] bh'] id''] eqn:Er.
      injection Hr as <- <- <- <-. destruct (IH _ _ _ _ _ _ Er) as [H1 H2].
      rewrite decide_True by done. simpl. lia.
    + destruct (register_from self (S i) id ms) as [[[rest' fh'] bh'] id''] eqn:Er.
      injection Hr as <- <- <- <-. destruct (IH _ _ _ _ _ _ Er) as [H1 H2].
      rewrite decide_False by done. done.
Qed.

(** X8. The engine keeps every handle it was ever given: a call of
    [attribute] whose assertion passes appends to [forward_handles] two
    handles and to [backward_handles] one handle for every module it
    hooks, and takes none away, although it has removed their hooks. *)
Theorem attribute_keeps_its_handles (inputs baselines : Tensor3)
    (self : DeepLiftShap) (st : state) :
  shape3 inputs = shape3 baselines →
  let self' := (attribute inputs baselines (self, st)).2.1 in
  let hooked := length (filter (λ m, _can_register_hook self m = true) (model st)) in
  ∃ fh bh,
    forward_handles self' = forward_handles self ++ fh ∧
    backward_handles self' = backward_handles self ++ bh ∧
    length fh = 2 * hooked ∧ length bh = hooked.
Proof.
  intros Hs. unfold attribute. rewrite bool_decide_true by done.
  unfold attribute_try. rewrite gradient_pass_unfold.
  destruct (register_from self 0 (next_id st) (model st))
    as [[[ms1 fh] bh] id1] eqn:Er.
  destruct (register_from_lengths self _ _ _ _ _ _ _ Er) as [Hb Hf].
  destruct (forward ms1 (map flatten_example (inputs ++ baselines)))
    as [[ms2 tape] outputs].
  cbv zeta.
  assert (Hgoal : ∃ fh0 bh0,
            forward_handles (add_handles self fh bh) = forward_handles self ++ fh0 ∧
            backward_handles (add_handles self fh bh) = backward_handles self ++ bh0 ∧
            length fh0 =
              2 * length (filter (λ m, _can_register_hook self m = true) (model st)) ∧
            length bh0 =
              length (filter (λ m, _can_register_hook self m = true) (model st))).
  { exists fh, bh. simpl. split_and!; try done. lia. }
  destruct outputs as [Y|e]; [|exact Hgoal].
  destruct (backward ms2 tape (grad_of_first_chunk_sum Y)) as [g|e]; [|exact Hgoal].
  destruct (convergence_deltas _ _ _ _) as [d|e]; exact Hgoal.
Qed.

Lemma attribute_keeps_its_handles_witness :
  let st := fresh_state [linear_layer [[2; -1; 0; 0]]%Q [0]%Q; relu_layer] in
  let inputs : Tensor3 := [[[1]; [0]; [0]; [0]]; [[0]; [0]; [1]; [0]]]%Q in
  let baselines : Tensor3 := [[[0]; [1]; [0]; [0]]; [[0]; [0]; [0]; [1]]]%Q in
  shape3 inputs = shape3 baselines ∧
  let self' := (attribute inputs baselines (default_engine, st)).2.1 in
  let hooked :=
    length (filter (λ m, _can_register_hook default_engine m = true) (model st)) in
  ∃ fh bh,
    forward_handles self' = forward_handles default_engine ++ fh ∧
    backward_handles self' = backward_handles default_engine ++ bh ∧
    length fh = 2 * hooked ∧ length bh = hooked.
Proof.
  intros st inputs baselines.
  split; [reflexivity|].
  exact (attribute_keeps_its_handles inputs baselines default_engine st eq_refl).
Defined.

(** ** [deep_lift_shap] *)

(** X9. Without examples, or with a reference function and no shuffles,
    [deep_lift_shap] raises: the loop has no round and [torch.stack] is
    given an empty list. *)
Theorem deep_lift_shap_rejects_empty_work (X : Tensor3)
    (references : references_arg) (n_shuffles : nat) (batch_size : Z)
    (return_references hypothetical : bool) (warning_threshold : Q)
    (print_convergence_deltas : bool) (random_state : option Z) (st : state) :
  deep_lift_shap [] references n_shuffles batch_size return_references
                 hypothetical warning_threshold print_convergence_deltas
                 random_state st = Raise RuntimeError ∧
  ∀ f, deep_lift_shap X (RefFunc f) 0 batch_size return_references
                      hypothetical warning_threshold print_convergence_deltas
                      random_state st = Raise RuntimeError.
Proof.
  split.
  - unfold deep_lift_shap, deep_lift_shap_loop. done.
  - intros f. unfold deep_lift_shap, deep_lift_shap_loop.
    rewrite Nat.mul_0_r. done.
Qed.

Lemma averaged_hypothetical (X : Tensor3) (A L ns : nat) (all : list Mat)
    (k : nat) (vt xk : Mat) :
  averaged X true ns all k vt → rect A L vt → X !! k = Some xk → rect A L xk →
  averaged X false ns all k (zip_with (zip_with Qmult) vt xk).
Proof.
  unfold averaged, average. intros Ht Hvt Hxk Hr.
  destruct (stack_mean (take ns (drop (k * ns) all))) as [avg|e]; [|done].
  rewrite bind_Ok in Ht |- *. injection Ht as ->.
  rewrite Hxk. cbn [or_raise]. rewrite bind_Ok.
  by apply (ew2_rect Qmult A L).
Qed.

(** ** The driver with any source of references *)

Section driver_at.

Variables (N A L : nat) (X : Tensor3) (references : references_arg).
Variables (random_state : option Z) (ref : nat → Mat) (ns : nat).
Variables (rr hyp : bool) (thr : Q) (pcd : bool) (ms0 : list nn_module).
Hypothesis HX : regular3 N A L X.
Hypothesis Href : ∀ i, i < N * ns → rect A L (ref i).
Hypothesis Hbatch : ∀ (pend : list nat) (draws : nat),
  pend ≠ [] → Forall (λ j, j < N * ns) pend →
  ∃ d', batch_references references random_state
          (map (λ j, X !!! (j / ns)) pend)
          (map (λ j, j / ns) pend) (map (λ j, j mod ns) pend) draws
        = Ok (map ref pend, d').
Hypothesis Hclean : clean_backward ms0.

Abbreviation PAt := (pair_attribution_at X ref ns A thr pcd ms0).
Abbreviation invt := (loop_inv_at X ref ns rr hyp thr pcd A L ms0).

Lemma run_batch_at (l : loop) (s i : nat) (D : list Mat) :
  invt s i D l → s < i → i ≤ N * ns →
  match mapM_result PAt (seq s (i - s)) with
  | Ok attrs =>
      ∃ l', run_batch X references ns rr hyp thr pcd random_state l = Ok l' ∧
            invt i i (D ++ attrs) l'
  | Raise _ => is_ok (run_batch X references ns rr hyp thr pcd random_state l) = false
  end.
Proof.
  intros (Hsi & HXi & Hrj & HD & HDr & Hz & Hattr & Hav & Hrefs & Hsig) Hlt Hn.
  assert (Hns : ns ≠ 0) by (intros ->; lia).
  set (pend := seq s (i - s)) in *.
  assert (Hpend : Forall (λ j, j < N * ns) pend).
  { apply Forall_forall. intros j Hj. apply elem_of_seq in Hj. lia. }
  assert (Hpne : pend ≠ []).
  { intros Hnil. apply (f_equal length) in Hnil. unfold pend in Hnil.
    rewrite length_seq in Hnil. simpl in Hnil. lia. }
  assert (Hpl : length pend = i - s) by apply length_seq.
  assert (Hseq : seq 0 i = seq 0 s ++ pend).
  { unfold pend. replace (seq 0 i) with (seq 0 (s + (i - s))) by (f_equal; lia).
    by rewrite seq_app. }
  destruct (Hbatch pend (draws l) Hpne Hpend) as [d' Hbr].
  assert (HXreg : regular3 (length pend) A L (map (λ j, X !!! (j / ns)) pend)).
  { split; [by rewrite length_map|].
    apply Forall_forall. intros x Hx. apply list_elem_of_fmap in Hx as (j & -> & Hj).
    rewrite Forall_forall in Hpend. apply (X_row N A L X ns HX); [done|by apply Hpend]. }
  assert (HRreg : regular3 (length pend) A L (map ref pend)).
  { split; [by rewrite length_map|].
    apply Forall_forall. intros x Hx. apply list_elem_of_fmap in Hx as (j & -> & Hj).
    rewrite Forall_forall in Hpend. by apply Href, Hpend. }
  unfold run_batch. rewrite HXi, Hrj.
  rewrite (gather_seq X N ns) by (done || apply HX).
  rewrite bind_Ok, Hbr, bind_Ok. cbn [fst snd].
  unfold __init__. rewrite (check_modules_sig ms0 (model (world l)) Hsig).
  destruct (check_modules ms0) as [[]|e] eqn:Hchk.
  2: { destruct pend as [|j0 pend']; [done|]. cbn [mapM_result].
       assert (PAt j0 = Raise e) as ->
         by (unfold pair_attribution_at, __init__; by rewrite Hchk).
       done. }
  rewrite !bind_Ok.
  set (self := mk_engine default_ignore_layers default_eps thr pcd [] []).
  set (x := λ j, X !!! (j / ns)).
  assert (HPAt : ∀ j, PAt j =
            (g ← pair_engine default_eps (hooked_layers self ms0) (x j) (ref j);
             Ok (project_example A g (x j) (ref j)))).
  { intros j. unfold pair_attribution_at, __init__. rewrite Hchk. done. }
  rewrite (mapM_result_ext _ _ _ HPAt), mapM_bind_pure.
  pose proof (attribute_pairs (length pend) A L self (world l) _ _ HXreg HRreg
                (clean_backward_sig _ _ Hsig Hclean)) as Hfol.
  rewrite (hooked_layers_sig self _ _ Hsig) in Hfol.
  change (zip (map (λ j, X !!! (j / ns)) pend) (map ref pend))
    with (zip (x <$> pend) (ref <$> pend)) in Hfol.
  rewrite zip_fmap, mapM_result_fmap in Hfol. cbn [fst snd] in Hfol.
  change (eps self) with default_eps in Hfol.
  fold x.
  destruct (mapM_result (λ j, pair_engine default_eps (hooked_layers self ms0)
                                (x j) (ref j)) pend) as [gs|e] eqn:Eg.
  2: { unfold follows in Hfol. fold x in Hfol.
       destruct (attribute (map x pend) (map ref pend) (self, world l)) as [r c'].
       simpl in Hfol |- *. by destruct r. }
  unfold follows, id in Hfol. fold x in Hfol. rewrite bind_Ok.
  pose proof (attribute_sig self (world l) (map x pend) (map ref pend) eq_refl eq_refl)
    as Hsig'.
  destruct (attribute (map x pend) (map ref pend) (self, world l)) as [r c'] eqn:Eattr.
  cbn [fst snd] in Hfol, Hsig' |- *. subst r.
  destruct (attribute_gap _ A L _ _ self (world l) gs c' HXreg HRreg Eattr)
    as (_ & _ & Hgreg & _).
  rewrite bind_Ok, (hypothetical_attributions_regular (length pend) A L) by done.
  rewrite bind_Ok. cbn [first_tensor]. rewrite bind_Ok.
  destruct (project_spec Float _ A L gs (map x pend) (map ref pend) Hgreg HXreg HRreg)
    as [Hpreg _].
  rewrite (project_rows (length pend) A L) by (done || lia).
  assert (Hattrs : map (λ t : Mat * Mat * Mat, project_example A t.1.1 t.1.2 t.2)
                       (zip (zip gs (map x pend)) (map ref pend))
                   = zip_with (λ j g, project_example A g (x j) (ref j)) pend gs).
  { clear. revert gs. induction pend as [|j pend IH]; intros [|g gs]; simpl; try done.
    by rewrite IH. }
  rewrite (project_rows (length pend) A L) in Hpreg by (done || lia).
  rewrite Hattrs in Hpreg |- *.
  set (attrs := zip_with _ pend gs) in *.
  assert (Hal : length attrs = i - s) by (destruct Hpreg as [-> _]; done).
  assert (HDl : length D = s).
  { apply mapM_result_length in HD. by rewrite HD, length_seq. }
  assert (Hzs : z l * ns ≤ s).
  { rewrite Hz. rewrite Nat.mul_comm. apply Nat.Div0.mul_div_le. }
  destruct (drain_spec X hyp ns N A L (D ++ attrs) Hns HX) with
    (fuel := length (attr_ l ++ attrs))
    (l := mk_loop (map (λ j, j / ns) pend) (map (λ j, j mod ns) pend)
                  (attr_ l ++ attrs) (attributions l) (z l) (references_ l)
                  c'.2 d')
    as (l1 & Hl1 & Hz1 & Hattr1 & Hav1 & _ & _ & Href1 & Hw1 & _).
  - apply Forall_app. split; [done|]. apply Hpreg.
  - rewrite length_app. lia.
  - done.
  - cbn [z]. rewrite length_app. lia.
  - cbn [attr_ z]. rewrite Hattr. rewrite drop_app_le by lia. done.
  - cbn [attributions z]. apply averaged_extend; [lia|done].
  - rewrite Hl1, bind_Ok. eexists. split; [done|].
    rewrite length_app, HDl, Hal in Hz1.
    replace (s + (i - s)) with i in Hz1 by lia.
    split_and!; cbn [Xi rj attr_ attributions z references_ world].
    + done.
    + by rewrite Nat.sub_diag.
    + by rewrite Nat.sub_diag.
    + rewrite Hseq, mapM_result_app, HD, bind_Ok.
      rewrite (mapM_result_ext _ _ _ HPAt), mapM_bind_pure, Eg. done.
    + apply Forall_app. split; [done|]. apply Hpreg.
    + done.
    + done.
    + done.
    + rewrite Href1. cbn [references_]. rewrite Hrefs. destruct rr; [|done].
      by rewrite Hseq, map_app.
    + rewrite Hw1. cbn [world]. by rewrite Hsig'.
Qed.

Lemma for_loop_at (bs : Z) : ∀ (m i s : nat) (l : loop) (D : list Mat),
  i + m = N * ns → invt s i D l → (s < i → 0 < m) →
  match mapM_result PAt (seq s (N * ns - s)) with
  | Ok rest =>
      ∃ l', for_loop X references ns bs rr hyp thr pcd random_state (N * ns)
                     (seq i m) l = Ok l' ∧
            invt (N * ns) (N * ns) (D ++ rest) l'
  | Raise _ =>
      is_ok (for_loop X references ns bs rr hyp thr pcd random_state (N * ns)
                      (seq i m) l) = false
  end.
Proof.
  induction m as [|m IH]; intros i s l D Him Hinv Hpend.
  - assert (Hs : s ≤ i) by apply Hinv.
    assert (s = i) as -> by (destruct (decide (s < i)) as [H|H]; [specialize (Hpend H)|]; lia).
    replace (N * ns - i) with 0 by lia. cbn [seq mapM_result for_loop].
    exists l. split; [done|]. rewrite app_nil_r.
    replace (N * ns) with i by lia. done.
  - cbn [seq for_loop]. unfold body.
    assert (Hns : ns ≠ 0) by (intros ->; lia).
    rewrite decide_False by done.
    destruct Hinv as (Hsi & HXi & Hrj & HD & HDr & Hz & Hattr & Hav & Hrefs & Hsig).
    set (l1 := mk_loop (Xi l ++ [i / ns]) (rj l ++ [i mod ns]) (attr_ l)
                       (attributions l) (z l) (references_ l) (world l) (draws l)).
    assert (Hseq : seq s (S i - s) = seq s (i - s) ++ [i]).
    { replace (S i - s) with (S (i - s)) by lia. rewrite seq_S.
      do 2 f_equal. lia. }
    assert (Hinv1 : invt s (S i) D l1).
    { split_and!; cbn [Xi rj attr_ attributions z references_ world l1]; try done.
      - lia.
      - by rewrite Hseq, map_app, HXi.
      - by rewrite Hseq, map_app, Hrj. }
    cbv zeta. fold l1.
    destruct (decide (Z.of_nat (length (Xi l1)) = bs ∨ i = N * ns - 1)) as [Htr|Hno].
    + pose proof (run_batch_at l1 s (S i) D Hinv1) as Hrb.
      assert (Hsplit : seq s (N * ns - s) = seq s (S i - s) ++ seq (S i) (N * ns - S i)).
      { replace (N * ns - s) with ((S i - s) + (N * ns - S i)) by lia.
        rewrite seq_app. do 2 f_equal. lia. }
      rewrite Hsplit, mapM_result_app.
      destruct (mapM_result PAt (seq s (S i - s))) as [attrs|e].
      * destruct Hrb as (l2 & Hl2 & Hinv2); [lia..|].
        rewrite Hl2, !bind_Ok.
        specialize (IH (S i) (S i) l2 (D ++ attrs)).
        destruct (mapM_result PAt (seq (S i) (N * ns - S i))) as [rest|e].
        -- rewrite bind_Ok. rewrite app_assoc. apply IH; [lia|done|lia].
        -- rewrite bind_Raise. apply IH; [lia|done|lia].
      * rewrite bind_Raise. apply is_ok_bind_false. apply Hrb; lia.
    + rewrite bind_Ok. apply IH; [lia|done|]. intros _.
      destruct m; [|lia]. destruct Hno. right. lia.
Qed.

Lemma driver_loop_at (bs : Z) (st : state) :
  map sig (model st) = map sig ms0 →
  match mapM_result PAt (seq 0 (N * ns)) with
  | Ok all =>
      Forall (rect A L) all ∧
      ∃ atts, Forall2 (averaged X hyp ns all) (seq 0 (N * ns / ns)) atts ∧
        deep_lift_shap_loop X references ns bs rr hyp thr pcd random_state st =
          (t ← stack atts;
           if rr then
             match N * ns with
             | 0 => Raise RuntimeError
             | S _ => Ok (t, Some (groups N ns (map ref (seq 0 (N * ns)))))
             end
           else Ok (t, None))
  | Raise _ =>
      is_ok (deep_lift_shap_loop X references ns bs rr hyp thr pcd random_state st) = false
  end.
Proof.
  intros Hst. unfold deep_lift_shap_loop.
  assert (HN : length X = N) by apply HX. rewrite HN.
  pose proof (for_loop_at bs (N * ns) 0 0 (mk_loop [] [] [] [] 0 [] st 0) []) as Hfl.
  rewrite Nat.sub_0_r in Hfl.
  destruct (mapM_result PAt (seq 0 (N * ns))) as [all|e].
  - destruct Hfl as (l' & Hl' & Hinv); [lia| |lia|].
    { split_and!; cbn [Xi rj attr_ attributions z references_ world]; try done.
      - by destruct ns.
      - by destruct rr. }
    destruct Hinv as (_ & _ & _ & HD & Hrect & Hz & _ & Hav & Hrefs & _).
    split; [exact Hrect|].
    exists (attributions l'). rewrite Hz in Hav. split; [done|].
    rewrite Hl', bind_Ok. destruct (stack (attributions l')) as [t|e]; [|done].
    rewrite !bind_Ok. destruct rr; [|done]. rewrite Hrefs.
    destruct (N * ns) as [|n'] eqn:En; [done|].
    rewrite <- En. rewrite decide_True by (by rewrite length_map, length_seq).
    rewrite En at 1. done.
  - apply is_ok_bind_false. apply Hfl; [lia| |lia].
    split_and!; cbn [Xi rj attr_ attributions z references_ world]; try done.
    + by destruct ns.
    + by destruct rr.
Qed.

Lemma driver_loop_agree (bs bs' : Z) (st st' : state) :
  map sig (model st) = map sig ms0 → map sig (model st') = map sig ms0 →
  result_agree
    (deep_lift_shap_loop X references ns bs rr hyp thr pcd random_state st)
    (deep_lift_shap_loop X references ns bs' rr hyp thr pcd random_state st').
Proof.
  intros Hs Hs'.
  pose proof (driver_loop_at bs st Hs) as H1.
  pose proof (driver_loop_at bs' st' Hs') as H2.
  destruct (mapM_result PAt (seq 0 (N * ns))) as [all|e].
  - destruct H1 as (_ & atts1 & Hav1 & ->), H2 as (_ & atts2 & Hav2 & ->).
    assert (atts2 = atts1) as -> by (by eapply averaged_det).
    unfold result_agree. by destruct (_ ≫= _).
  - unfold result_agree.
    destruct (deep_lift_shap_loop _ _ _ bs _ _ _ _ _ _); [done|].
    by destruct (deep_lift_shap_loop _ _ _ bs' _ _ _ _ _ _).
Qed.

Lemma driver_loop_returns (bs : Z) (st : state) (atts : Tensor3)
    (refs : option Tensor4) :
  map sig (model st) = map sig ms0 →
  deep_lift_shap_loop X references ns bs rr hyp thr pcd random_state st
    = Ok (atts, refs) →
  ns ≠ 0 ∧ N ≠ 0 ∧
  (∃ all, mapM_result PAt (seq 0 (N * ns)) = Ok all ∧ Forall (rect A L) all ∧
          Forall2 (averaged X hyp ns all) (seq 0 N) atts) ∧
  regular3 N A L atts ∧
  refs = (if rr then Some (groups N ns (map ref (seq 0 (N * ns)))) else None).
Proof.
  intros Hs Hok. pose proof (driver_loop_at bs st Hs) as H1.
  destruct (mapM_result PAt (seq 0 (N * ns))) as [all|e] eqn:Eall.
  2: { by rewrite Hok in H1. }
  destruct H1 as (Hrect & atts1 & Hav1 & Hd1). rewrite Hd1 in Hok.
  destruct atts1 as [|a rest] eqn:Ea; [done|].
  assert (Hns : ns ≠ 0).
  { intros ->. rewrite Nat.mul_0_r in Hav1. simpl in Hav1.
    by apply Forall2_nil_inv_l in Hav1. }
  rewrite Nat.div_mul in Hav1 by done.
  assert (HN : N ≠ 0).
  { intros ->. simpl in Hav1. by apply Forall2_nil_inv_l in Hav1. }
  unfold stack in Hok. destruct (forallb (same_shape2 a) rest); [|done].
  rewrite bind_Ok in Hok.
  assert (Hlen : length all = N * ns).
  { apply mapM_result_length in Eall. by rewrite Eall, length_seq. }
  assert (Hm : ∀ (T : Type) (u v : T),
            match N * ns with 0 => u | S _ => v end = v).
  { intros T u v. destruct (N * ns) eqn:En; [nia|done]. }
  assert (atts = a :: rest ∧
          refs = (if rr then Some (groups N ns (map ref (seq 0 (N * ns))))
                  else None)) as [-> ->].
  { destruct rr; [rewrite Hm in Hok|]; by injection Hok as <- <-. }
  assert (Hreg : regular3 N A L (a :: rest))
    by (by apply (averaged_rect X hyp N A L ns all)).
  split; [done|]. split; [done|]. split; [by exists all|]. by split.
Qed.

End driver_at.

Lemma mul3_regular (N A L : nat) (a b : Tensor3) :
  regular3 N A L a → regular3 N A L b → regular3 N A L (mul3 a b).
Proof.
  intros [Hal Ha] [Hbl Hb]. split.
  - unfold mul3. rewrite length_zip_with. lia.
  - apply Forall_lookup. intros k v Hv.
    apply lookup_zip_with_Some in Hv as (x & y & -> & Hx & Hy).
    rewrite Forall_lookup in Ha, Hb.
    apply rect_zip_with; [by eapply Ha|by eapply Hb].
Qed.

(** *** A tensor of references *)

Lemma tensor_reference_lookup (N ns A L : nat) (t : Tensor4) (i : nat) :
  regular4 N ns A L t → i < N * ns →
  ∃ row e, t !! (i / ns) = Some row ∧ row !! (i mod ns) = Some e ∧
           tensor_reference t ns i = e ∧ rect A L e.
Proof.
  intros [Hl Hall] Hi.
  assert (Hns : ns ≠ 0) by (intros ->; lia).
  assert (Hd : i / ns < N) by (apply Nat.Div0.div_lt_upper_bound; lia).
  destruct (lookup_lt_is_Some_2 t (i / ns)) as [row Hrow]; [lia|].
  rewrite Forall_lookup in Hall. destruct (Hall _ _ Hrow) as [Hrl Hr].
  destruct (lookup_lt_is_Some_2 row (i mod ns)) as [e He].
  { rewrite Hrl. by apply Nat.mod_upper_bound. }
  exists row, e. split_and!; try done.
  - unfold tensor_reference.
    by rewrite (list_lookup_total_correct _ _ _ Hrow),
               (list_lookup_total_correct _ _ _ He).
  - rewrite Forall_lookup in Hr. by eapply Hr.
Qed.

Lemma tensor_batch (N ns A L : nat) (t : Tensor4) (X : Tensor3)
    (random_state : option Z) (pend : list nat) (draws : nat) :
  regular4 N ns A L t → pend ≠ [] → Forall (λ j, j < N * ns) pend →
  ∃ d', batch_references (RefTensor t) random_state
          (map (λ j, X !!! (j / ns)) pend)
          (map (λ j, j / ns) pend) (map (λ j, j mod ns) pend) draws
        = Ok (map (tensor_reference t ns) pend, d').
Proof.
  intros Ht Hne Hp. exists draws. unfold batch_references, gather2.
  change (zip (map (λ j, j / ns) pend) (map (λ j, j mod ns) pend))
    with (zip ((λ j, j / ns) <$> pend) ((λ j, j mod ns) <$> pend)).
  rewrite zip_fmap, mapM_result_fmap.
  rewrite (mapM_result_Ok _ (tensor_reference t ns)); [done|].
  intros j Hj. rewrite Forall_forall in Hp. cbn [fst snd].
  destruct (tensor_reference_lookup N ns A L t j Ht (Hp j Hj))
    as (row & e & Hrow & He & Htr & _).
  rewrite Hrow. cbn [or_raise]. rewrite bind_Ok, He, Htr. done.
Qed.

Lemma tensor_groups (N ns A L : nat) (t : Tensor4) :
  regular4 N ns A L t → ns ≠ 0 →
  groups N ns (map (tensor_reference t ns) (seq 0 (N * ns))) = t.
Proof.
  intros [Hl Hall] Hns. rewrite groups_seq.
  apply list_eq. intros zi. rewrite list_lookup_fmap.
  destruct (decide (zi < N)) as [Hz|Hz].
  - rewrite lookup_seq_lt by done.
    destruct (lookup_lt_is_Some_2 t zi) as [row Hrow]; [lia|].
    rewrite Hrow. simpl. f_equal.
    rewrite Forall_lookup in Hall. destruct (Hall _ _ Hrow) as [Hrl _].
    rewrite (map_lookup_total_seq row), Hrl.
    replace (zi * ns) with (zi * ns + 0) at 1 by lia.
    rewrite <- (fmap_add_seq (zi * ns) 0 ns).
    change (map (tensor_reference t ns) (Nat.add (zi * ns) <$> seq 0 ns))
      with (tensor_reference t ns <$> (Nat.add (zi * ns) <$> seq 0 ns)).
    rewrite <- list_fmap_compose. apply list_fmap_ext. intros i j Hj.
    apply lookup_seq in Hj as [-> Hj]. simpl. unfold tensor_reference.
    rewrite Nat.div_add_l, Nat.div_small, Nat.add_0_r by done.
    rewrite (Nat.add_comm (zi * ns) i), Nat.Div0.mod_add, Nat.mod_small by done.
    by rewrite (list_lookup_total_correct _ _ _ Hrow).
  - rewrite lookup_seq_ge by lia. simpl. symmetry. apply lookup_ge_None. lia.
Qed.

Lemma tensor_n_shuffles (N ns A L : nat) (t : Tensor4) :
  regular4 N ns A L t → N ≠ 0 → length (default [] (head t)) = ns.
Proof.
  intros [Hl Hall] HN. destruct t as [|row t]; [simpl in Hl; lia|].
  apply Forall_cons in Hall as [[Hr _] _]. done.
Qed.

Lemma tensor_reference_rect (N ns A L : nat) (t : Tensor4) (i : nat) :
  regular4 N ns A L t → i < N * ns → rect A L (tensor_reference t ns i).
Proof.
  intros Ht Hi.
  destruct (tensor_reference_lookup N ns A L t i Ht Hi) as (row & e & _ & _ & -> & Hr).
  exact Hr.
Qed.

Lemma tensor_loop_at (N ns A L : nat) (X : Tensor3) (t : Tensor4) (rr hyp : bool)
    (thr : Q) (pcd : bool) (rs : option Z) (bs : Z) (st st0 : state) :
  regular3 N A L X → regular4 N ns A L t → clean_backward (model st0) →
  map sig (model st) = map sig (model st0) →
  match mapM_result (pair_attribution_at X (tensor_reference t ns) ns A thr pcd
                                         (model st0)) (seq 0 (N * ns)) with
  | Ok all =>
      Forall (rect A L) all ∧
      ∃ atts, Forall2 (averaged X hyp ns all) (seq 0 (N * ns / ns)) atts ∧
        deep_lift_shap_loop X (RefTensor t) ns bs rr hyp thr pcd rs st =
          (t' ← stack atts;
           if rr then
             match N * ns with
             | 0 => Raise RuntimeError
             | S _ => Ok (t', Some (groups N ns (map (tensor_reference t ns)
                                                     (seq 0 (N * ns)))))
             end
           else Ok (t', None))
  | Raise _ =>
      is_ok (deep_lift_shap_loop X (RefTensor t) ns bs rr hyp thr pcd rs st) = false
  end.
Proof.
  intros HX Ht Hc Hs.
  apply (driver_loop_at N A L X (RefTensor t) rs (tensor_reference t ns) ns
           rr hyp thr pcd (model st0) HX); try done.
  - intros i Hi. by apply (tensor_reference_rect N ns A L).
  - intros pend draws Hne Hp. by apply (tensor_batch N ns A L).
Qed.

(** X10. With a tensor of references of the shape the examples ask for,
    [deep_lift_shap] does not depend on [batch_size], nor on the arguments
    [n_shuffles] and [random_state], which it does not read, nor on the
    handle counter, stored tensors and logs of the interpreter: any two
    such calls return the same attributions and references, or both
    raise. *)
Theorem tensor_references_do_not_depend_on_batch_size (N ns A L : nat)
    (X : Tensor3) (t : Tensor4) (rr hyp : bool) (thr : Q) (pcd : bool)
    (st : state) :
  regular3 N A L X → regular4 N ns A L t → clean_backward (model st) →
  ∀ (bs bs' : Z) (k k' : nat) (rs rs' : option Z) (st' : state),
    map sig (model st') = map sig (model st) →
    result_agree
      (deep_lift_shap X (RefTensor t) k bs rr hyp thr pcd rs st)
      (deep_lift_shap X (RefTensor t) k' bs' rr hyp thr pcd rs' st').
Proof.
  intros HX Ht Hc bs bs' k k' rs rs' st' Hs. unfold deep_lift_shap.
  destruct (decide (N = 0)) as [->|HN].
  { destruct HX as [HX _]. apply nil_length_inv in HX. subst X.
    unfold deep_lift_shap_loop. done. }
  rewrite (tensor_n_shuffles N ns A L t Ht HN).
  pose proof (tensor_loop_at N ns A L X t rr hyp thr pcd rs bs st st
                HX Ht Hc eq_refl) as H1.
  pose proof (tensor_loop_at N ns A L X t rr hyp thr pcd rs' bs' st' st
                HX Ht Hc Hs) as H2.
  destruct (mapM_result _ (seq 0 (N * ns))) as [all|e].
  - destruct H1 as (_ & atts1 & Hav1 & ->), H2 as (_ & atts2 & Hav2 & ->).
    assert (atts2 = atts1) as -> by (by eapply averaged_det).
    unfold result_agree. by destruct (_ ≫= _).
  - unfold result_agree.
    destruct (deep_lift_shap_loop _ _ _ bs _ _ _ _ _ _); [done|].
    by destruct (deep_lift_shap_loop _ _ _ bs' _ _ _ _ _ _).
Qed.

Lemma tensor_references_do_not_depend_on_batch_size_witness :
  let ms := [linear_layer [[2; -1; 0; 0]]%Q [0]%Q; relu_layer] in
  let st := fresh_state ms in
  let st' := mk_state ms 7 [[1 # 2]%Q] [] in
  let X : Tensor3 := [[[1]; [0]; [0]; [0]]; [[0]; [0]; [1]; [0]]]%Q in
  let R : Tensor4 := [[[[0]; [1]; [0]; [0]]; [[0]; [0]; [0]; [1]]];
                      [[[1]; [0]; [0]; [0]]; [[0]; [1]; [0]; [0]]]]%Q in
  regular3 2 4 1 X ∧ regular4 2 2 4 1 R ∧ clean_backward (model st) ∧
  map sig (model st') = map sig (model st) ∧
  result_agree
    (deep_lift_shap X (RefTensor R) 20 1 true false default_warning_threshold
                    false None st)
    (deep_lift_shap X (RefTensor R) 5 32 true false default_warning_threshold
                    false (Some 3%Z) st').
Proof.
  intros ms st st' X R.
  assert (HX : regular3 2 4 1 X) by (split; [reflexivity|repeat constructor]).
  assert (HR : regular4 2 2 4 1 R).
  { split; [reflexivity|]. repeat constructor. }
  assert (Hc : clean_backward (model st)) by (unfold clean_backward; repeat constructor).
  assert (Hs : map sig (model st') = map sig (model st)) by reflexivity.
  split; [exact HX|]. split; [exact HR|]. split; [exact Hc|]. split; [exact Hs|].
  exact (tensor_references_do_not_depend_on_batch_size 2 2 4 1 X R true false
           default_warning_threshold false st HX HR Hc 1 32 20 5 None (Some 3%Z)
           st' Hs).
Defined.

Lemma tensor_returns (N ns A L : nat) (X : Tensor3) (t : Tensor4) (rr hyp : bool)
    (thr : Q) (pcd : bool) (rs : option Z) (bs : Z) (k : nat) (st : state)
    (atts : Tensor3) (refs : option Tensor4) :
  regular3 N A L X → regular4 N ns A L t → clean_backward (model st) →
  deep_lift_shap X (RefTensor t) k bs rr hyp thr pcd rs st = Ok (atts, refs) →
  ns ≠ 0 ∧ N ≠ 0 ∧
  (∃ all, mapM_result (pair_attribution_at X (tensor_reference t ns) ns A thr pcd
                                           (model st)) (seq 0 (N * ns)) = Ok all ∧
          Forall (rect A L) all ∧
          Forall2 (averaged X hyp ns all) (seq 0 N) atts) ∧
  regular3 N A L atts ∧ refs = (if rr then Some t else None).
Proof.
  intros HX Ht Hc Hok. unfold deep_lift_shap in Hok.
  destruct (decide (N = 0)) as [->|HN].
  { destruct HX as [HX _]. apply nil_length_inv in HX. subst X.
    unfold deep_lift_shap_loop in Hok. done. }
  rewrite (tensor_n_shuffles N ns A L t Ht HN) in Hok.
  destruct (driver_loop_returns N A L X (RefTensor t) rs (tensor_reference t ns) ns
              rr hyp thr pcd (model st) HX) with (bs := bs) (st := st)
              (atts := atts) (refs := refs)
    as (Hns & _ & Hall & Hreg & Hrefs); try done.
  - intros i Hi. by apply (tensor_reference_rect N ns A L).
  - intros pend draws Hne Hp. by apply (tensor_batch N ns A L).
  - split_and!; try done. rewrite Hrefs. destruct rr; [|done].
    by rewrite (tensor_groups N ns A L).
Qed.

(** X11. With a tensor of references of the shape the examples ask for,
    what [deep_lift_shap] returns has one attribution of the shape of an
    example for every example, and, when references are asked for, the
    tensor of references it was given. *)
Theorem tensor_references_are_returned (N ns A L : nat) (X : Tensor3)
    (t : Tensor4) (rr hyp : bool) (thr : Q) (pcd : bool) (rs : option Z)
    (bs : Z) (k : nat) (st : state) :
  regular3 N A L X → regular4 N ns A L t → clean_backward (model st) →
  match deep_lift_shap X (RefTensor t) k bs rr hyp thr pcd rs st with
  | Ok (atts, refs) =>
      regular3 N A L atts ∧ refs = (if rr then Some t else None)
  | Raise _ => True
  end.
Proof.
  intros HX Ht Hc.
  destruct (deep_lift_shap X (RefTensor t) k bs rr hyp thr pcd rs st)
    as [[atts refs]|e] eqn:Hok; [|done].
  destruct (tensor_returns N ns A L X t rr hyp thr pcd rs bs k st atts refs
              HX Ht Hc Hok) as (_ & _ & _ & Hreg & Hrefs).
  by split.
Qed.

Lemma tensor_references_are_returned_witness :
  let st := fresh_state [linear_layer [[2; -1; 0; 0]]%Q [0]%Q; relu_layer] in
  let X : Tensor3 := [[[1]; [0]; [0]; [0]]; [[0]; [0]; [1]; [0]]]%Q in
  let R : Tensor4 := [[[[0]; [1]; [0]; [0]]; [[0]; [0]; [0]; [1]]];
                      [[[1]; [0]; [0]; [0]]; [[0]; [1]; [0]; [0]]]]%Q in
  regular3 2 4 1 X ∧ regular4 2 2 4 1 R ∧ clean_backward (model st) ∧
  match deep_lift_shap X (RefTensor R) 20 3 true false default_warning_threshold
                       false None st with
  | Ok (atts, refs) => regular3 2 4 1 atts ∧ refs = Some R
  | Raise _ => True
  end.
Proof.
  intros st X R.
  assert (HX : regular3 2 4 1 X) by (split; [reflexivity|repeat constructor]).
  assert (HR : regular4 2 2 4 1 R).
  { split; [reflexivity|]. repeat constructor. }
  assert (Hc : clean_backward (model st)) by (unfold clean_backward; repeat constructor).
  split; [exact HX|]. split; [exact HR|]. split; [exact Hc|].
  exact (tensor_references_are_returned 2 2 4 1 X R true false
           default_warning_threshold false None 3 20 st HX HR Hc).
Defined.

(** On the tensors above the call returns. *)
Example tensor_references_return :
  let st := fresh_state [linear_layer [[2; -1; 0; 0]]%Q [0]%Q; relu_layer] in
  let X : Tensor3 := [[[1]; [0]; [0]; [0]]; [[0]; [0]; [1]; [0]]]%Q in
  let R : Tensor4 := [[[[0]; [1]; [0]; [0]]; [[0]; [0]; [0]; [1]]];
                      [[[1]; [0]; [0]; [0]]; [[0]; [1]; [0]; [0]]]]%Q in
  is_ok (deep_lift_shap X (RefTensor R) 20 3 true false default_warning_threshold
                        false None st) = true.
Proof. vm_compute. reflexivity. Qed.

(** *** A reference function with a seed *)

Lemma pair_reference_rect (N A L : nat) (X : Tensor3) (f : generator)
    (ns : nat) (rs : Z) (i : nat) :
  regular3 N A L X →
  (∀ (x : Mat) (s : Z), rect A L x → ∃ r, f [x] 1 (Seeded s) = [[r]] ∧ rect A L r) →
  i < N * ns → rect A L (pair_reference X f ns rs i).
Proof.
  intros HX Hgen Hi. assert (Hns : ns ≠ 0) by (intros ->; lia).
  unfold pair_reference.
  apply (seeded_reference_ok A L f rs Hgen). by apply (X_row N A L X ns HX).
Qed.

Lemma seeded_batch (N A L : nat) (X : Tensor3) (f : generator) (ns : nat) (rs : Z)
    (pend : list nat) (draws : nat) :
  regular3 N A L X →
  (∀ (x : Mat) (s : Z), rect A L x → ∃ r, f [x] 1 (Seeded s) = [[r]] ∧ rect A L r) →
  pend ≠ [] → Forall (λ j, j < N * ns) pend →
  ∃ d', batch_references (RefFunc f) (Some rs)
          (map (λ j, X !!! (j / ns)) pend)
          (map (λ j, j / ns) pend) (map (λ j, j mod ns) pend) draws
        = Ok (map (pair_reference X f ns rs) pend, d').
Proof.
  intros HX Hgen Hne Hp. exists draws.
  assert (Hns : ns ≠ 0).
  { intros ->. destruct pend as [|j pend]; [done|].
    apply Forall_cons in Hp as [Hj _]. lia. }
  by destruct (batch_references_seq N A L X f ns rs HX Hgen pend draws Hns Hne Hp)
    as [H _].
Qed.

Lemma seeded_returns (N A L : nat) (X : Tensor3) (f : generator) (ns : nat)
    (rr hyp : bool) (thr : Q) (pcd : bool) (rs : Z) (bs : Z) (st : state)
    (atts : Tensor3) (refs : option Tensor4) :
  regular3 N A L X →
  (∀ (x : Mat) (s : Z), rect A L x → ∃ r, f [x] 1 (Seeded s) = [[r]] ∧ rect A L r) →
  clean_backward (model st) →
  deep_lift_shap X (RefFunc f) ns bs rr hyp thr pcd (Some rs) st = Ok (atts, refs) →
  ns ≠ 0 ∧ N ≠ 0 ∧ regular3 N A L atts ∧
  refs = (if rr then Some (map (λ x, map (seeded_reference f rs x) (seq 0 ns)) X)
          else None).
Proof.
  intros HX Hgen Hc Hok. unfold deep_lift_shap in Hok.
  destruct (driver_loop_returns N A L X (RefFunc f) (Some rs)
              (pair_reference X f ns rs) ns rr hyp thr pcd (model st) HX)
    with (bs := bs) (st := st) (atts := atts) (refs := refs)
    as (Hns & HN & _ & Hreg & Hrefs); try done.
  - intros i Hi. by apply (pair_reference_rect N A L).
  - intros pend draws Hne Hp. by apply (seeded_batch N A L).
  - split_and!; try done. rewrite Hrefs. destruct rr; [|done].
    by rewrite (seeded_groups N A L).
Qed.

(** X12. With a reference function that returns one reference of the
    shape of the example per example, and a seed, what [deep_lift_shap]
    returns has one attribution of the shape of an example for every
    example, and, when references are asked for, [n_shuffles] references of
    that shape for every example. *)
Theorem seeded_result_has_the_shape_of_the_examples (N A L : nat) (X : Tensor3)
    (f : generator) (ns : nat) (rr hyp : bool) (thr : Q) (pcd : bool) (rs : Z)
    (bs : Z) (st : state) :
  regular3 N A L X →
  (∀ (x : Mat) (s : Z), rect A L x → ∃ r, f [x] 1 (Seeded s) = [[r]] ∧ rect A L r) →
  clean_backward (model st) →
  match deep_lift_shap X (RefFunc f) ns bs rr hyp thr pcd (Some rs) st with
  | Ok (atts, refs) =>
      regular3 N A L atts ∧
      match refs with
      | Some t => rr = true ∧ regular4 N ns A L t
      | None => rr = false
      end
  | Raise _ => True
  end.
Proof.
  intros HX Hgen Hc.
  destruct (deep_lift_shap X (RefFunc f) ns bs rr hyp thr pcd (Some rs) st)
    as [[atts refs]|e] eqn:Hok; [|done].
  destruct (seeded_returns N A L X f ns rr hyp thr pcd rs bs st atts refs
              HX Hgen Hc Hok) as (Hns & HN & Hreg & ->).
  split; [done|]. destruct rr; [|done]. split; [done|].
  destruct HX as [HXl HXr]. split; [by rewrite length_map|].
  apply Forall_forall. intros row Hrow.
  apply list_elem_of_fmap in Hrow as (x & -> & Hx).
  split; [by rewrite length_map, length_seq|].
  apply Forall_forall. intros r Hr.
  apply list_elem_of_fmap in Hr as (j & -> & Hj).
  apply (seeded_reference_ok A L f rs Hgen).
  rewrite Forall_forall in HXr. by apply HXr.
Qed.

Lemma seeded_result_has_the_shape_of_the_examples_witness :
  let st := fresh_state [linear_layer [[2; -1; 0; 0]]%Q [0]%Q; relu_layer] in
  let X : Tensor3 := [[[1]; [0]; [0]; [0]]; [[0]; [0]; [1]; [0]]]%Q in
  regular3 2 4 1 X ∧
  (∀ (x : Mat) (s : Z), rect 4 1 x →
     ∃ r, rotations [x] 1 (Seeded s) = [[r]] ∧ rect 4 1 r) ∧
  clean_backward (model st) ∧
  match deep_lift_shap X (RefFunc rotations) 3 4 true false
                       default_warning_threshold false (Some 1%Z) st with
  | Ok (atts, refs) =>
      regular3 2 4 1 atts ∧
      match refs with
      | Some t => true = true ∧ regular4 2 3 4 1 t
      | None => true = false
      end
  | Raise _ => True
  end.
Proof.
  intros st X.
  assert (HX : regular3 2 4 1 X) by (split; [reflexivity|repeat constructor]).
  assert (Hgen : ∀ (x : Mat) (s : Z), rect 4 1 x →
            ∃ r, rotations [x] 1 (Seeded s) = [[r]] ∧ rect 4 1 r)
    by (intros x s; apply rotations_one).
  assert (Hc : clean_backward (model st)) by (unfold clean_backward; repeat constructor).
  split; [exact HX|]. split; [exact Hgen|]. split; [exact Hc|].
  exact (seeded_result_has_the_shape_of_the_examples 2 4 1 X rotations 3 true false
           default_warning_threshold false 1 4 st HX Hgen Hc).
Defined.

(** *** With and without [hypothetical] *)

Lemma loop_hypothetical (N A L : nat) (X : Tensor3) (references : references_arg)
    (random_state : option Z) (ref : nat → Mat) (ns : nat) (rr : bool) (thr : Q)
    (pcd : bool) (bs : Z) (st : state) :
  regular3 N A L X →
  (∀ i, i < N * ns → rect A L (ref i)) →
  (∀ (pend : list nat) (draws : nat),
     pend ≠ [] → Forall (λ j, j < N * ns) pend →
     ∃ d', batch_references references random_state
             (map (λ j, X !!! (j / ns)) pend)
             (map (λ j, j / ns) pend) (map (λ j, j mod ns) pend) draws
           = Ok (map ref pend, d')) →
  clean_backward (model st) →
  match deep_lift_shap_loop X references ns bs rr true thr pcd random_state st with
  | Ok (H, refs) =>
      deep_lift_shap_loop X references ns bs rr false thr pcd random_state st
        = Ok (mul3 H X, refs)
  | Raise _ =>
      is_ok (deep_lift_shap_loop X references ns bs rr false thr pcd
                                 random_state st) = false
  end.
Proof.
  intros HX Href Hbatch Hc.
  pose proof (driver_loop_at N A L X references random_state ref ns rr true thr pcd
                (model st) HX Href Hbatch Hc bs st eq_refl) as Ht.
  pose proof (driver_loop_at N A L X references random_state ref ns rr false thr pcd
                (model st) HX Href Hbatch Hc bs st eq_refl) as Hf.
  destruct (mapM_result _ (seq 0 (N * ns))) as [all|e] eqn:Eall.
  2: { by destruct (deep_lift_shap_loop _ _ _ _ _ true _ _ _ _) as [[H refs]|e']. }
  destruct Ht as (Hrect & at_t & Hav_t & ->), Hf as (_ & at_f & Hav_f & ->).
  destruct (decide (ns = 0 ∨ N = 0)) as [H0|H0].
  { assert (N * ns / ns = 0) as Hz.
    { destruct H0 as [->| ->]; [by rewrite Nat.mul_0_r|].
      simpl. apply Nat.Div0.div_0_l. }
    rewrite Hz in Hav_t, Hav_f. simpl in Hav_t, Hav_f.
    apply Forall2_nil_inv_l in Hav_t, Hav_f. by subst. }
  assert (Hns : ns ≠ 0) by tauto. assert (HN : N ≠ 0) by tauto.
  rewrite Nat.div_mul in Hav_t, Hav_f by done.
  assert (Hlen : length all = N * ns).
  { apply mapM_result_length in Eall. by rewrite Eall, length_seq. }
  pose proof (averaged_rect X true N A L ns all at_t HX Hns Hlen Hrect Hav_t) as Hreg.
  assert (at_f = mul3 at_t X) as ->.
  { eapply averaged_det; [exact Hav_f|].
    destruct HX as [HXl HXr], Hreg as [Htl Htr].
    apply Forall2_same_length_lookup. split.
    - unfold mul3. rewrite length_seq, length_zip_with. lia.
    - intros i k v Hk Hv. apply lookup_seq in Hk as [-> Hi]. simpl.
      apply lookup_zip_with_Some in Hv as (vt & xk & -> & Hvt & Hxk).
      rewrite Forall_lookup in HXr, Htr.
      apply (averaged_hypothetical X A L); [|by eapply Htr|done|by eapply HXr].
      apply Forall2_same_length_lookup in Hav_t as [_ Hav_t].
      apply (Hav_t i); [by apply lookup_seq_lt|done]. }
  rewrite (stack_regular N A L at_t), (stack_regular N A L (mul3 at_t X));
    [|by apply mul3_regular|done..].
  rewrite !bind_Ok. destruct rr; [|done]. by destruct (N * ns).
Qed.

(** X13. The attributions without [hypothetical] are the hypothetical ones
    multiplied, element by element, by the examples, and the references
    are the same: with a seeded reference function as with a tensor of
    references, a call with [hypothetical] set that returns [H] makes the
    call without it return [H * X], and one raises when the other does. *)
Theorem observed_attributions_are_hypothetical_times_X (N ns A L : nat)
    (X : Tensor3) (rr : bool) (thr : Q) (pcd : bool) (bs : Z) (st : state) :
  regular3 N A L X → clean_backward (model st) →
  (∀ (f : generator) (rs : Z),
     (∀ (x : Mat) (s : Z), rect A L x →
        ∃ r, f [x] 1 (Seeded s) = [[r]] ∧ rect A L r) →
     match deep_lift_shap X (RefFunc f) ns bs rr true thr pcd (Some rs) st with
     | Ok (H, refs) =>
         deep_lift_shap X (RefFunc f) ns bs rr false thr pcd (Some rs) st
           = Ok (mul3 H X, refs)
     | Raise _ =>
         is_ok (deep_lift_shap X (RefFunc f) ns bs rr false thr pcd (Some rs) st)
           = false
     end) ∧
  (∀ (t : Tensor4) (k : nat) (rs : option Z),
     regular4 N ns A L t →
     match deep_lift_shap X (RefTensor t) k bs rr true thr pcd rs st with
     | Ok (H, refs) =>
         deep_lift_shap X (RefTensor t) k bs rr false thr pcd rs st
           = Ok (mul3 H X, refs)
     | Raise _ =>
         is_ok (deep_lift_shap X (RefTensor t) k bs rr false thr pcd rs st) = false
     end).
Proof.
  intros HX Hc. split.
  - intros f rs Hgen. unfold deep_lift_shap.
    apply (loop_hypothetical N A L X (RefFunc f) (Some rs)
             (pair_reference X f ns rs)); try done.
    + intros i Hi. by apply (pair_reference_rect N A L).
    + intros pend draws Hne Hp. by apply (seeded_batch N A L).
  - intros t k rs Ht. unfold deep_lift_shap.
    destruct (decide (N = 0)) as [->|HN].
    { destruct HX as [HX _]. apply nil_length_inv in HX. subst X.
      unfold deep_lift_shap_loop. done. }
    rewrite (tensor_n_shuffles N ns A L t Ht HN).
    apply (loop_hypothetical N A L X (RefTensor t) rs (tensor_reference t ns));
      try done.
    + intros i Hi. by apply (tensor_reference_rect N ns A L).
    + intros pend draws Hne Hp. by apply (tensor_batch N ns A L).
Qed.

Lemma observed_attributions_are_hypothetical_times_X_witness :
  let st := fresh_state [linear_layer [[2; -1; 0; 0]]%Q [0]%Q; relu_layer] in
  let X : Tensor3 := [[[1]; [0]; [0]; [0]]; [[0]; [0]; [1]; [0]]]%Q in
  regular3 2 4 1 X ∧ clean_backward (model st) ∧
  (∀ (f : generator) (rs : Z),
     (∀ (x : Mat) (s : Z), rect 4 1 x →
        ∃ r, f [x] 1 (Seeded s) = [[r]] ∧ rect 4 1 r) →
     match deep_lift_shap X (RefFunc f) 2 3 true true default_warning_threshold
                          false (Some rs) st with
     | Ok (H, refs) =>
         deep_lift_shap X (RefFunc f) 2 3 true false default_warning_threshold
                        false (Some rs) st = Ok (mul3 H X, refs)
     | Raise _ =>
         is_ok (deep_lift_shap X (RefFunc f) 2 3 true false
                               default_warning_threshold false (Some rs) st) = false
     end) ∧
  (∀ (t : Tensor4) (k : nat) (rs : option Z),
     regular4 2 2 4 1 t →
     match deep_lift_shap X (RefTensor t) k 3 true true default_warning_threshold
                          false rs st with
     | Ok (H, refs) =>
         deep_lift_shap X (RefTensor t) k 3 true false default_warning_threshold
                        false rs st = Ok (mul3 H X, refs)
     | Raise _ =>
         is_ok (deep_lift_shap X (RefTensor t) k 3 true false
                               default_warning_threshold false rs st) = false
     end).
Proof.
  intros st X.
  assert (HX : regular3 2 4 1 X) by (split; [reflexivity|repeat constructor]).
  assert (Hc : clean_backward (model st)) by (unfold clean_backward; repeat constructor).
  split; [exact HX|]. split; [exact Hc|].
  exact (observed_attributions_are_hypothetical_times_X 2 2 4 1 X true
           default_warning_threshold false 3 st HX Hc).
Defined.

(** ** [_captum_deep_lift_shap] *)

Lemma captum_body_fails_with_references
    (captum_attribute : Tensor3 → Tensor3 → state → result Tensor3 * state)
    (X : Tensor3) (references : references_arg) (n_shuffles : nat)
    (hypothetical : bool) (random_state : option Z) (l : captum_loop) (i : nat) :
  ∃ e, captum_body captum_attribute X references n_shuffles true hypothetical
                   random_state l i = Fails e.
Proof.
  unfold captum_body.
  destruct (captum_references _ _ _ _ _ _) as [[r d]|e]; [|by eexists].
  destruct (captum_attribute _ _ _) as [[attr|e] w]; [|by eexists].
  destruct (if hypothetical then _ else _) as [attr'|e]; by eexists.
Qed.

(** X14. Asked for the references, [_captum_deep_lift_shap] never returns:
    whatever Captum, the model and the references do, the call raises.
    Without examples [torch.cat] is given an empty list; with examples the
    first round of the loop raises, at the latest where it reads the name
    [_reference], which is bound nowhere. *)
Theorem captum_driver_never_returns_references
    (captum_attribute : Tensor3 → Tensor3 → state → result Tensor3 * state)
    (X : Tensor3) (references : references_arg) (n_shuffles : nat)
    (hypothetical : bool) (random_state : option Z) (st : state) :
  ∃ e, _captum_deep_lift_shap captum_attribute X references n_shuffles true
                              hypothetical random_state st = Fails e.
Proof.
  unfold _captum_deep_lift_shap. destruct X as [|x X'].
  - simpl. by eexists.
  - cbn [length seq captum_for].
    destruct (captum_body_fails_with_references captum_attribute (x :: X')
                references n_shuffles hypothetical random_state
                (mk_captum_loop [] [] st 0) 0) as [e He].
    rewrite He. by eexists.
Qed.

Lemma take1_drop {T} (l : list T) (i : nat) (x : T) :
  l !! i = Some x → take 1 (drop i l) = [x].
Proof. intros H. by rewrite (drop_S _ _ _ H). Qed.

Lemma captum_for_spec (N ns A L : nat)
    (captum_attribute : Tensor3 → Tensor3 → state → result Tensor3 * state)
    (X : Tensor3) (t : Tensor4) (k : nat) (hyp : bool) (rs : option Z) :
  regular3 N A L X → regular4 N ns A L t →
  (∀ (x : Mat) (r : Tensor3) (w : state), rect A L x →
     ∃ g w', captum_attribute [x] r w = (Ok [g], w') ∧ rect A L g) →
  ∀ (m i : nat) (l : captum_loop) (outs : list Mat),
    i + m = N → c_attributions l = map (λ r, [r]) outs →
    Forall (rect A L) outs → length outs = i →
    ∃ l' outs',
      captum_for captum_attribute X (RefTensor t) k false hyp rs (seq i m) l
        = Done l' ∧
      c_attributions l' = map (λ r, [r]) outs' ∧
      Forall (rect A L) outs' ∧ length outs' = N.
Proof.
  intros HX Ht Hcap. induction m as [|m IH]; intros i l outs Him Hatt Hrect Hlen.
  - exists l, outs. simpl. split_and!; try done. lia.
  - cbn [seq captum_for]. unfold captum_body.
    destruct (regular3_lookup N A L X i HX) as (x & Hx & Hxr); [lia|].
    destruct Ht as [Htl Htr].
    destruct (lookup_lt_is_Some_2 t i) as [ti Hti]; [lia|].
    rewrite (take1_drop X i x Hx). unfold captum_references.
    rewrite (take1_drop t i ti Hti). cbn [head or_raise]. rewrite bind_Ok.
    destruct (Hcap x ti (c_world l) Hxr) as (g & w' & Hg & Hgr). rewrite Hg.
    assert (H1 : ∀ e : Mat, rect A L e → regular3 1 A L [e]).
    { intros e He. split; [done|]. constructor; [exact He|constructor]. }
    assert (Hmul : ∃ a, (if hyp then Ok [g] else bzip (ew2 Qmult) [g] [x]) = Ok [a] ∧
                        rect A L a).
    { destruct hyp; [by exists g|].
      destruct (ew3_regular Qmult 1 A L [g] [x] (H1 _ Hgr) (H1 _ Hxr)) as [-> Hr].
      eexists. split; [done|]. simpl in Hr. destruct Hr as [_ Hr].
      by apply Forall_cons in Hr as [Hr _]. }
    destruct Hmul as (a & -> & Har).
    apply (IH (S i) _ (outs ++ [a])); cbn [c_attributions]; try lia.
    + by rewrite Hatt, map_app.
    + apply Forall_app. split; [done|]. by constructor.
    + rewrite length_app. simpl. lia.
Qed.

(** X15. Not asked for the references, [_captum_deep_lift_shap] returns
    one attribution per example, of the shape of the example, whenever
    Captum returns for a single example a tensor of its shape: the
    references being a tensor with an entry for every example, and the
    examples not empty. *)
Theorem captum_driver_returns_one_attribution_per_example (N ns A L : nat)
    (captum_attribute : Tensor3 → Tensor3 → state → result Tensor3 * state)
    (X : Tensor3) (t : Tensor4) (k : nat) (hyp : bool) (rs : option Z)
    (st : state) :
  regular3 N A L X → regular4 N ns A L t → 0 < N →
  (∀ (x : Mat) (r : Tensor3) (w : state), rect A L x →
     ∃ g w', captum_attribute [x] r w = (Ok [g], w') ∧ rect A L g) →
  ∃ atts, _captum_deep_lift_shap captum_attribute X (RefTensor t) k false hyp rs st
            = Done (atts, None) ∧
          regular3 N A L atts.
Proof.
  intros HX Ht HN Hcap. unfold _captum_deep_lift_shap.
  assert (HXl : length X = N) by apply HX. rewrite HXl.
  destruct (captum_for_spec N ns A L captum_attribute X t k hyp rs HX Ht Hcap
              N 0 (mk_captum_loop [] [] st 0) [])
    as (l' & outs & Hfor & Hatt & Hr & Hl); [done..|].
  rewrite Hfor, Hatt, (cat_singletons A L outs); [|by intros ->; simpl in Hl; lia|done].
  exists outs. by split.
Qed.

Lemma captum_driver_returns_one_attribution_per_example_witness :
  let captum := λ (x r : Tensor3) (w : state), (Ok x, w) in
  let X : Tensor3 := [[[1]; [0]; [0]; [0]]; [[0]; [0]; [1]; [0]]]%Q in
  let R : Tensor4 := [[[[0]; [1]; [0]; [0]]; [[0]; [0]; [0]; [1]]];
                      [[[1]; [0]; [0]; [0]]; [[0]; [1]; [0]; [0]]]]%Q in
  regular3 2 4 1 X ∧ regular4 2 2 4 1 R ∧ 0 < 2 ∧
  (∀ (x : Mat) (r : Tensor3) (w : state), rect 4 1 x →
     ∃ g w', captum [x] r w = (Ok [g], w') ∧ rect 4 1 g) ∧
  ∃ atts, _captum_deep_lift_shap captum X (RefTensor R) 20 false false None
                                 (fresh_state [relu_layer])
            = Done (atts, None) ∧
          regular3 2 4 1 atts.
Proof.
  intros captum X R.
  assert (HX : regular3 2 4 1 X) by (split; [reflexivity|repeat constructor]).
  assert (HR : regular4 2 2 4 1 R).
  { split; [reflexivity|]. repeat constructor. }
  assert (Hcap : ∀ (x : Mat) (r : Tensor3) (w : state), rect 4 1 x →
            ∃ g w', captum [x] r w = (Ok [g], w') ∧ rect 4 1 g).
  { intros x r w Hx. exists x, w. split; [reflexivity|exact Hx]. }
  split; [exact HX|]. split; [exact HR|]. split; [lia|]. split; [exact Hcap|].
  exact (captum_driver_returns_one_attribution_per_example 2 2 4 1 captum X R 20
           false None (fresh_state [relu_layer]) HX HR ltac:(lia) Hcap).
Defined.
